(** * Reconciliation and classification engine of the financial agent

    A shallow embedding of [src/services/feegow.js] (proposal matcher,
    transaction enricher, batch driver, appointment check) and of
    [src/services/excel.js] (procedure classifier, row builder), with the
    properties the specification states about them; then the date texts,
    the payment columns, the grouping and the totals of the row, the
    history's helpers ([historico.js]) and the diagnostic script's
    classifier, with further properties of the code.

    Conventions of the embedding:
    - a JavaScript string is a [string] whose characters are UTF-16 code
      units below 256 (the Latin-1 range, which holds every character the
      patterns and the splitter's regular expression mention);
    - a JavaScript number holding money is an exact rational ([Q]);
    - identifiers (procedure, proposal, invoice, patient) are integers, and
      an optional one is an [option Z] tested for truthiness as the code
      does (absent and 0 are both falsy);
    - a date is its text together with the numbers the code reads from
      it; the time zone of the process belongs to the environment;
    - a [Set] is a [gset], a [Map] is a [gmap];
    - module-level mutable state is threaded explicitly ([Store]). *)

From Stdlib Require Import ZArith QArith Qabs Qround Lqa String Ascii List Lia
  Bool.
From stdpp Require Import gmap strings list fin_maps pretty.

Local Open Scope string_scope.
Local Open Scope Z_scope.

(** ** JavaScript strings *)

Module JsString.

Definition code (c : ascii) : N := N_of_ascii c.

(** The one-character string of a code unit. *)
Definition chr (n : N) : string := String (ascii_of_N n) EmptyString.

Definition inRange (lo hi : N) (c : ascii) : bool :=
  ((lo <=? code c) && (code c <=? hi))%N.

(** [\d] of a regular expression without flags. *)
Definition isDigit (c : ascii) : bool := inRange 48 57 c.

(** [\s] and the characters [trim] strips, below 256:
    TAB, LF, VT, FF, CR, SPACE and NO-BREAK SPACE. *)
Definition isWhiteSpace (c : ascii) : bool :=
  inRange 9 13 c || (code c =? 32)%N || (code c =? 160)%N.

(** [String.prototype.toLowerCase] on one code unit below 256: A-Z and
    À-Þ (without the multiplication sign) move up by 32. *)
Definition toLowerChar (c : ascii) : ascii :=
  if inRange 65 90 c then ascii_of_N (code c + 32)
  else if inRange 192 222 c && negb (code c =? 215)%N
       then ascii_of_N (code c + 32)
       else c.

Fixpoint toLowerCase (s : string) : string :=
  match s with
  | EmptyString => EmptyString
  | String c r => String (toLowerChar c) (toLowerCase r)
  end.

Fixpoint startsWith (s p : string) : bool :=
  match p, s with
  | EmptyString, _ => true
  | String _ _, EmptyString => false
  | String a p', String b s' => Ascii.eqb a b && startsWith s' p'
  end.

(** [String.prototype.includes]. *)
Fixpoint includes (s p : string) : bool :=
  startsWith s p ||
  match s with
  | EmptyString => false
  | String _ r => includes r p
  end.

Definition isEmpty (s : string) : bool :=
  match s with EmptyString => true | String _ _ => false end.

Fixpoint trimStart (s : string) : string :=
  match s with
  | EmptyString => EmptyString
  | String c r => if isWhiteSpace c then trimStart r else s
  end.

Fixpoint trimEnd (s : string) : string :=
  match s with
  | EmptyString => EmptyString
  | String c r =>
      let r' := trimEnd r in
      if isWhiteSpace c && isEmpty r' then EmptyString else String c r'
  end.

(** [String.prototype.trim]. *)
Definition trim (s : string) : string := trimEnd (trimStart s).

End JsString.

Import JsString.

(** Characters the source writes outside ASCII. *)
Definition ordinalMark : string := chr 186.   (* masculine ordinal indicator *)
Definition aAcute : string := chr 225.

(** ** The procedure-name splitter

    [NomeProcedimento.split(/,(?=\s*[A-Za-zÀ-ú])|,(?=\s*\d+º)/)
       .map(n => n.trim()).filter(n => n)]
    of [findMatchingProposal] and [enrichTransactionWithItems]. *)

Module Splitter.

Definition isComma (c : ascii) : bool := (code c =? 44)%N.

(** The character class [[A-Za-zÀ-ú]]. *)
Definition isLetterClass (c : ascii) : bool :=
  inRange 65 90 c || inRange 97 122 c || inRange 192 250 c.

Definition isOrdinalMark (c : ascii) : bool := (code c =? 186)%N.

(** Greedy [\s*]: what is left after the leading white space. *)
Fixpoint skipSpaces (s : string) : string :=
  match s with
  | EmptyString => EmptyString
  | String c r => if isWhiteSpace c then skipSpaces r else s
  end.

(** Greedy [\d*]. *)
Fixpoint skipDigits (s : string) : string :=
  match s with
  | EmptyString => EmptyString
  | String c r => if isDigit c then skipDigits r else s
  end.

(** The lookahead [(?=\s*[A-Za-zÀ-ú])]. *)
Definition followedByLetter (s : string) : bool :=
  match skipSpaces s with
  | String c _ => isLetterClass c
  | EmptyString => false
  end.

(** The lookahead [(?=\s*\d+º)].  White space, digits and the ordinal
    mark are disjoint classes, so backtracking finds nothing the greedy
    reading misses. *)
Definition followedByOrdinal (s : string) : bool :=
  match skipSpaces s with
  | String c r =>
      isDigit c &&
      match skipDigits r with
      | String d _ => isOrdinalMark d
      | EmptyString => false
      end
  | EmptyString => false
  end.

(** Whether a comma splits, given the text after it. *)
Definition commaSplits (rest : string) : bool :=
  followedByLetter rest || followedByOrdinal rest.

(** Put a character in front of the first piece. *)
Definition consFirst (c : ascii) (pieces : list string) : list string :=
  match pieces with
  | h :: t => String c h :: t
  | [] => [String c EmptyString]
  end.

(** [String.prototype.split] with the regular expression: every match
    is exactly one comma, the pieces are what lies between the matches. *)
Fixpoint split (s : string) : list string :=
  match s with
  | EmptyString => [EmptyString]
  | String c r =>
      if isComma c && commaSplits r then EmptyString :: split r
      else consFirst c (split r)
  end.

(** [.map(n => n.trim()).filter(n => n)] after the split. *)
Definition splitNames (s : string) : list string :=
  List.filter (fun n => negb (isEmpty n)) (List.map trim (split s)).

(** [NomeProcedimento ? NomeProcedimento.split(..).. : []]: an absent
    or empty name gives no token. *)
Definition reportNames (NomeProcedimento : option string) : list string :=
  match NomeProcedimento with
  | Some (String c r) => splitNames (String c r)
  | _ => []
  end.

End Splitter.

Import Splitter.

(** ** Date texts ([feegow.js], [excel.js], [historico.js]) *)

Module DateText.

(** [String.prototype.split] with a separator of one character. *)
Fixpoint splitOn (sep : ascii) (s : string) : list string :=
  match s with
  | EmptyString => [EmptyString]
  | String c r =>
      if Ascii.eqb c sep then EmptyString :: splitOn sep r
      else consFirst c (splitOn sep r)
  end.

(** An element of a destructured array inside a template literal: a
    missing one prints as [undefined]. *)
Definition show (part : option string) : string :=
  match part with
  | Some text => text
  | None => "undefined"
  end.

(** [isoToFeegow]: YYYY-MM-DD to DD/MM/YYYY. *)
Definition isoToFeegow (isoDate : string) : string :=
  let parts := splitOn "-" isoDate in
  let year := nth_error parts 0 in
  let month := nth_error parts 1 in
  let day := nth_error parts 2 in
  show day +:+ "/" +:+ show month +:+ "/" +:+ show year.

(** [feegowToIso]: DD/MM/YYYY to YYYY-MM-DD. *)
Definition feegowToIso (feegowDate : string) : string :=
  let parts := splitOn "/" feegowDate in
  let day := nth_error parts 0 in
  let month := nth_error parts 1 in
  let year := nth_error parts 2 in
  show year +:+ "-" +:+ show month +:+ "-" +:+ show day.

(** [s.replace(/x/g, y)] for single characters [x] and [y]. *)
Fixpoint replaceAll (from to : ascii) (s : string) : string :=
  match s with
  | EmptyString => EmptyString
  | String c r =>
      String (if Ascii.eqb c from then to else c) (replaceAll from to r)
  end.

(** [procDateNorm] of [checkAppointmentDate]: the processing date put
    into the order DD-MM-YYYY of the appointments' dates.  A text with
    slashes only has them replaced; any other text is read as
    YYYY-MM-DD.  The parts stay as they are written: nothing is padded. *)
Definition procDateNorm (processingDate : string) : string :=
  if includes processingDate "/" then replaceAll "/" "-" processingDate
  else
    let parts := splitOn "-" processingDate in
    let y := nth_error parts 0 in
    let m := nth_error parts 1 in
    let d := nth_error parts 2 in
    show d +:+ "-" +:+ show m +:+ "-" +:+ show y.

(** [s.padStart(2, '0')]. *)
Definition padStart2 (s : string) : string :=
  match s with
  | EmptyString => "00"
  | String c EmptyString => String "0" (String c EmptyString)
  | _ => s
  end.

(** [s.indexOf(c)], [None] for -1. *)
Fixpoint indexOf (c : ascii) (s : string) : option nat :=
  match s with
  | EmptyString => None
  | String d r =>
      if Ascii.eqb d c then Some O else option_map S (indexOf c r)
  end.

(** [normalizeDate] of [historico.js]; [None] is the [TypeError] of
    [padStart] on a missing part. *)
Definition normalizeDate (date : string) : option string :=
  if includes date "-" && bool_decide (indexOf "-" date = Some 4%nat)
  then Some date
  else if includes date "/" then
    let parts := splitOn "/" date in
    match nth_error parts 0, nth_error parts 1 with
    | Some d, Some m =>
        Some (show (nth_error parts 2) +:+ "-" +:+ padStart2 m
              +:+ "-" +:+ padStart2 d)
    | _, _ => None
    end
  else Some date.

(** The value of a run of decimal digits read after [acc]; the rest of
    the text is ignored. *)
Fixpoint digitsValue (acc : Z) (s : string) : Z :=
  match s with
  | String c r =>
      if isDigit c then digitsValue (10 * acc + Z.of_N (code c) - 48) r
      else acc
  | EmptyString => acc
  end.

Definition startsWithDigit (s : string) : bool :=
  match s with
  | String c _ => isDigit c
  | EmptyString => false
  end.

(** [parseInt(text, 10)]: leading white space, an optional sign, then
    the longest run of digits; [None] is [NaN].  A missing text reads as
    ["undefined"], which is [NaN]. *)
Definition parseInt (text : option string) : option Z :=
  match text with
  | None => None
  | Some s =>
      match trimStart s with
      | String "-" r =>
          if startsWithDigit r then Some (- digitsValue 0 r) else None
      | String "+" r =>
          if startsWithDigit r then Some (digitsValue 0 r) else None
      | r => if startsWithDigit r then Some (digitsValue 0 r) else None
      end
  end.

Definition MONTH_NAMES_PT : list string :=
  [ "JANEIRO"; "FEVEREIRO"; "MAR" +:+ chr 199 +:+ "O"; "ABRIL"; "MAIO";
    "JUNHO"; "JULHO"; "AGOSTO"; "SETEMBRO"; "OUTUBRO"; "NOVEMBRO";
    "DEZEMBRO" ].

(** [MONTH_NAMES_PT[parseInt(month, 10) - 1]]. *)
Definition monthNameOf (month : option string) : option string :=
  match parseInt month with
  | Some n =>
      if 0 <=? n - 1 then nth_error MONTH_NAMES_PT (Z.to_nat (n - 1))
      else None
  | None => None
  end.

(** The month and the year both functions read from the date:
    the second and first part of a text with a dash, else the second and
    third part of a text with a slash. *)
Definition monthAndYear (date : string)
  : option (option string * option string) :=
  if includes date "-" then
    let parts := splitOn "-" date in
    Some (nth_error parts 1, nth_error parts 0)
  else if includes date "/" then
    let parts := splitOn "/" date in
    Some (nth_error parts 1, nth_error parts 2)
  else None.

(** [resolveSheetName] of [excel.js]; [EXCEL_ABA] is the environment
    variable. *)
Definition resolveSheetName (EXCEL_ABA : option string) (date : string)
  : string :=
  match EXCEL_ABA with
  | Some (String c r) => String c r
  | _ =>
      match monthAndYear date with
      | None => "Testes"
      | Some (month, year) =>
          match monthNameOf month with
          | Some (String c r) => String c r +:+ " " +:+ show year
          | _ => "Testes"
          end
      end
  end.

(** [resolveHistoryFilename] of [historico.js]. *)
Definition resolveHistoryFilename (date : string) : string :=
  match monthAndYear date with
  | None => "historico-desconhecido.json"
  | Some (month, year) =>
      match monthNameOf month with
      | Some (String c r) =>
          "historico-" +:+ toLowerCase (String c r) +:+ "-" +:+ show year
          +:+ ".json"
      | _ => "historico-desconhecido.json"
      end
  end.

End DateText.

(** ** Spreadsheet columns and the procedure classifier ([excel.js]) *)

Module COLUMNS.
Definition DATA := "A".
Definition NOME := "B".
Definition VENDA := "C".
Definition AVALIACAO := "D".
Definition TRATAMENTO := "E".
Definition DESCONTO := "F".
Definition DR_RIGATTI := "G".
Definition IMPLANTE := "H".
Definition SORO_DR := "I".
Definition TIRZEPATIDA := "J".
Definition APLICACOES := "K".
Definition ONLINE := "L".
Definition COMISSAO := "M".
Definition NUTRIS := "N".
Definition EXTRA := "O".
Definition ESTORNO_PROC := "P".
Definition DINHEIRO := "Q".
Definition SICOOB := "R".
Definition SAFRA := "S".
Definition PIX_SAFRA := "T".
Definition INFINITE := "U".
Definition PIX := "V".
Definition CHEQUE := "W".
Definition BOLETO := "X".
Definition OBSERVACAO := "AG".
Definition JUROS_CARTAO := "Z".
Definition TX_SICOOB := "AA".
Definition TX_INFINITE := "AB".
Definition TX_SAFRA := "AC".
Definition ESTORNO := "AD".
Definition NP_ABERTA := "AE".
Definition BOLETO_2 := "AF".

(** [Object.entries(COLUMNS)]: the own properties, in source order. *)
Definition entries : list (string * string) :=
  [ ("DATA", DATA); ("NOME", NOME); ("VENDA", VENDA);
    ("AVALIACAO", AVALIACAO); ("TRATAMENTO", TRATAMENTO);
    ("DESCONTO", DESCONTO); ("DR_RIGATTI", DR_RIGATTI);
    ("IMPLANTE", IMPLANTE); ("SORO_DR", SORO_DR);
    ("TIRZEPATIDA", TIRZEPATIDA); ("APLICACOES", APLICACOES);
    ("ONLINE", ONLINE); ("COMISSAO", COMISSAO); ("NUTRIS", NUTRIS);
    ("EXTRA", EXTRA); ("ESTORNO_PROC", ESTORNO_PROC);
    ("DINHEIRO", DINHEIRO); ("SICOOB", SICOOB); ("SAFRA", SAFRA);
    ("PIX_SAFRA", PIX_SAFRA); ("INFINITE", INFINITE); ("PIX", PIX);
    ("CHEQUE", CHEQUE); ("BOLETO", BOLETO);
    ("OBSERVACAO", OBSERVACAO);
    ("JUROS_CARTAO", JUROS_CARTAO); ("TX_SICOOB", TX_SICOOB);
    ("TX_INFINITE", TX_INFINITE); ("TX_SAFRA", TX_SAFRA);
    ("ESTORNO", ESTORNO); ("NP_ABERTA", NP_ABERTA);
    ("BOLETO_2", BOLETO_2) ].

Fixpoint assoc (k : string) (l : list (string * string)) : option string :=
  match l with
  | [] => None
  | (k', v) :: r => if String.eqb k k' then Some v else assoc k r
  end.

(** [COLUMNS[key]], [undefined] as [None]. *)
Definition get (key : string) : option string := assoc key entries.

(** [COLUMN_NAMES = Object.fromEntries(entries.map(([n, c]) => [c, n]))]:
    a later entry with the same letter would overwrite an earlier one. *)
Definition COLUMN_NAMES : gmap string string :=
  List.fold_left (fun m '(name, col) => <[col := name]> m) entries ∅.
End COLUMNS.

(** [PROCEDURE_MAPPING], in the order [Object.entries] enumerates it. *)
Definition PROCEDURE_MAPPING : list (string * string) :=
  [ ("nutricional", COLUMNS.NUTRIS);
    ("avalia", COLUMNS.AVALIACAO);
    ("rigatti", COLUMNS.DR_RIGATTI);
    ("recompra", COLUMNS.DR_RIGATTI);
    ("protocolo", COLUMNS.DR_RIGATTI);
    ("online", COLUMNS.ONLINE);
    ("consulta", COLUMNS.AVALIACAO);
    ("victor", COLUMNS.EXTRA);
    ("implante", COLUMNS.IMPLANTE);
    ("soro", COLUMNS.SORO_DR);
    ("soroterapia", COLUMNS.SORO_DR);
    ("noripurum", COLUMNS.SORO_DR);
    ("tirzepatida", COLUMNS.TIRZEPATIDA);
    ("injet" +:+ aAcute +:+ "vel", COLUMNS.APLICACOES);
    ("injetavel", COLUMNS.APLICACOES);
    ("cipionato", COLUMNS.APLICACOES);
    ("testosterona", COLUMNS.APLICACOES);
    ("blend", COLUMNS.APLICACOES);
    ("gh ", COLUMNS.APLICACOES);
    ("genotropin", COLUMNS.APLICACOES);
    ("omnitrope", COLUMNS.APLICACOES);
    ("nutri", COLUMNS.NUTRIS);
    ("tratamento proposto", COLUMNS.DR_RIGATTI);
    ("juros", COLUMNS.JUROS_CARTAO);
    ("estorno", COLUMNS.ESTORNO_PROC) ].

(** An optional identifier is truthy when present and not 0. *)
Definition truthyId (id : option Z) : bool :=
  match id with
  | Some n => negb (n =? 0)
  | None => false
  end.

(** *** Loading the category map ([fetchGroupMapping] of [feegow.js]) *)

Module ProcedureGroup.
(** A group of [/api/procedures/groups]: its id and the ids of its
    [procedimentos]. *)
Record t := { id : Z; procedimentos : list Z }.
End ProcedureGroup.

(** [GROUP_TO_COLUMN[id] || null]. *)
Definition GROUP_TO_COLUMN (id : Z) : option string :=
  if id =? 1 then Some "IMPLANTE"
  else if id =? 2 then Some "APLICACOES"
  else if id =? 4 then Some "SORO_DR"
  else if id =? 5 then Some "EXTRA"
  else None.

(** [OVERRIDES]: [None] is the [null] of procedure 20 (discard). *)
Definition OVERRIDES : list (Z * option string) :=
  [ (58, Some "TIRZEPATIDA"); (144, Some "TIRZEPATIDA");
    (16, Some "AVALIACAO"); (17, Some "ONLINE"); (18, Some "NUTRIS");
    (19, Some "ONLINE"); (20, None); (22, Some "NUTRIS");
    (23, Some "AVALIACAO"); (24, Some "NUTRIS");
    (104, Some "DR_RIGATTI"); (105, Some "DR_RIGATTI");
    (106, Some "DR_RIGATTI"); (107, Some "DR_RIGATTI");
    (108, Some "DR_RIGATTI"); (109, Some "NUTRIS"); (110, Some "NUTRIS");
    (111, Some "NUTRIS"); (112, Some "NUTRIS"); (137, Some "ONLINE") ].

(** [proc.id in OVERRIDES] and [OVERRIDES[proc.id]] at once: the outer
    option is the membership, the inner one the value. *)
Fixpoint overrideOf (id : Z) (l : list (Z * option string))
  : option (option string) :=
  match l with
  | [] => None
  | (k, v) :: r => if id =? k then Some v else overrideOf id r
  end.

(** The body of [for (const proc of group.procedimentos)].  A value of
    the map is a column key; the map could hold [null] ([None]) as well,
    which the test [if (column)] keeps out. *)
Definition mapProcedure (groupColumn : option string)
    (mapping : gmap Z (option string)) (procId : Z)
  : gmap Z (option string) :=
  match overrideOf procId OVERRIDES with
  | Some (Some column) =>
      if isEmpty column then mapping
      else <[procId := Some column]> mapping
  | Some None => mapping     (* column is null: don't map (discarded) *)
  | None =>
      match groupColumn with
      | Some col => <[procId := Some col]> mapping
      | None => mapping
      end
  end.

(** The body of [for (const group of groups)]. *)
Definition mapGroup (mapping : gmap Z (option string))
    (group : ProcedureGroup.t) : gmap Z (option string) :=
  List.fold_left (mapProcedure (GROUP_TO_COLUMN (ProcedureGroup.id group)))
                 (ProcedureGroup.procedimentos group) mapping.

(** [fetchGroupMapping] on the answer of [/api/procedures/groups]; [None]
    is a failed request, caught with the mapping still empty.  The result
    is kept in [groupsCache], so the first answer decides for the process. *)
Definition fetchGroupMapping (response : option (list ProcedureGroup.t))
  : gmap Z (option string) :=
  match response with
  | Some groups => List.fold_left mapGroup groups ∅
  | None => ∅
  end.

(** *** [classifyProcedure] *)

Module Classification.
(** [{ column, classificadoPor }]; a [null] column is [None]. *)
Record t := { column : option string; classificadoPor : string }.
End Classification.

(** The first pattern of the table that the lower-cased name includes. *)
Fixpoint firstPattern (normalizedName : string)
    (table : list (string * string)) : option string :=
  match table with
  | [] => None
  | (pattern, column) :: rest =>
      if includes normalizedName (toLowerCase pattern) then Some column
      else firstPattern normalizedName rest
  end.

(** Step 2 and the fallback of [classifyProcedure]. *)
Definition classifyByName (procedureName : string) : Classification.t :=
  match firstPattern (toLowerCase procedureName) PROCEDURE_MAPPING with
  | Some column =>
      {| Classification.column := Some column;
         Classification.classificadoPor := "nome" |}
  | None =>
      {| Classification.column := Some COLUMNS.EXTRA;
         Classification.classificadoPor := "fallback" |}
  end.

(** [COLUMNS[columnById] || columnById]: the letter of a column key, the
    value itself when it is no key of [COLUMNS], [null] for [null]. *)
Definition columnOfKey (columnById : option string) : option string :=
  match columnById with
  | Some key => Some (default key (COLUMNS.get key))
  | None => None
  end.

(** [classifyProcedure(procedureName, procedureId)] with the module's
    [groupMapping] ([None] while it is still [null]). *)
Definition classifyProcedure (groupMapping : option (gmap Z (option string)))
    (procedureName : string) (procedureId : option Z) : Classification.t :=
  match procedureId, groupMapping with
  | Some id, Some mapping =>
      if truthyId procedureId then
        match mapping !! id with
        | Some columnById =>
            {| Classification.column := columnOfKey columnById;
               Classification.classificadoPor := "id" |}
        | None => classifyByName procedureName
        end
      else classifyByName procedureName
  | _, _ => classifyByName procedureName
  end.

Definition identifyProcedureColumn
    (groupMapping : option (gmap Z (option string)))
    (procedureName : string) (procedureId : option Z) : option string :=
  Classification.column
    (classifyProcedure groupMapping procedureName procedureId).


(** ** Dates

    The report and the invoice give dates as [DD/MM/YYYY] text, the
    command line as [DD/MM/YYYY] or [YYYY-MM-DD].  A date of the
    embedding is that text together with the three numbers the code
    reads from it ([split('/').map(Number)], or [split('-').map(Number)]
    with the year first).  The code compares dates and builds its keys
    with the text, and computes with the numbers. *)

Module FeegowDate.
Record t := { text : string; day : Z; month : Z; year : Z }.

#[global] Instance eq_dec : EqDecision t.
Proof. solve_decision. Defined.

#[global] Instance countable : Countable t.
Proof.
  refine (inj_countable' (fun d => (text d, day d, month d, year d))
            (fun '(s, d, m, y) =>
               {| text := s; day := d; month := m; year := y |}) _).
  by intros [].
Defined.

(** Days from 1970-01-01 to the civil date [y]-[m]-[d], [1 <= m <= 12]. *)
Definition daysFromCivil (y m d : Z) : Z :=
  let y' := if m <=? 2 then y - 1 else y in
  let era := y' / 400 in
  let yoe := y' - era * 400 in
  let mp := (m + 9) mod 12 in
  let doy := (153 * mp + 2) / 5 + d - 1 in
  let doe := yoe * 365 + yoe / 4 - yoe / 100 + doy in
  era * 146097 + doe - 719468.

(** The day number, counted from 1 January 1970, of the local date of
    [new Date(year, month - 1, day)]: a year from 0 to 99 means
    1900 + year, a month outside 1..12 carries into the year and the day
    counts on from the first of the month. *)
Definition jsDay (date : t) : Z :=
  let y := if (0 <=? year date) && (year date <=? 99)
           then 1900 + year date else year date in
  let monthIndex := month date - 1 in
  daysFromCivil (y + monthIndex / 12) (monthIndex mod 12 + 1) 1
  + day date - 1.
End FeegowDate.

(** ** Records of the external platform *)

Module ProposalItem.
Record t := {
  procedimento_id : Z;
  nome : string;
  valor : Q;
  quantidade : Q;       (* 0 when absent: both are falsy *)
  desconto : Q;
  acrescimo : Q
}.
End ProposalItem.

Module Proposal.
Record t := {
  proposal_id : Z;
  status : string;
  value : Q;
  procedimentos : list ProposalItem.t   (* [procedimentos?.data || []] *)
}.
End Proposal.

Module InvoiceItem.
Record t := {
  procedimento_id : Z;
  valor : Q;            (* cents *)
  quantidade : Q;
  desconto : Q          (* cents *)
}.
End InvoiceItem.

Module Transaction.
Record t := {
  PacienteID : option Z;
  NomePaciente : string;
  Data : FeegowDate.t;
  Value : Q;
  NomeProcedimento : option string;
  ProcedimentoID : option Z;
  NumeroInvoice : option Z;
  Quantidade : Q
}.
End Transaction.

Module DetailedItem.
Record t := {
  procedimento_id : option Z;
  nome : string;
  valor : Q;
  quantidade : Q;
  desconto : Q;         (* 0 when the field is not set *)
  acrescimo : Q
}.
End DetailedItem.

Module Enriched.
(** [{...transaction, paymentOnly, fonteItens, detailedItems}].
    [proposalId] is a ghost field: the proposal the items were taken
    from, which the source only writes to its debug log. *)
Record t := {
  transaction : Transaction.t;
  paymentOnly : bool;
  fonteItens : string;
  detailedItems : list DetailedItem.t;
  proposalId : option Z
}.
End Enriched.

Module Appointment.
Record t := {
  data : string;        (* DD-MM-YYYY *)
  telemedicina : bool;
  notas : option string
}.
End Appointment.

Module AppointmentsResult.
Record t := { appointments : list Appointment.t; apiError : bool }.
End AppointmentsResult.

(** ** The external API, as the access functions see it at one moment,
    and the time zone of the process *)

Module Api.
Inductive Response (A : Type) : Type :=
| Ok (content : A)
| Failed (status : option Z).    (* no status: a network failure *)
Arguments Ok {A} content.
Arguments Failed {A} status.

Record t := {
  (* what [fetchInvoiceProposalDate] returns *)
  invoiceProposalDate : Z -> option FeegowDate.t;
  (* content of [/api/proposal/list]; [None] when the request fails *)
  proposalList : Z -> FeegowDate.t -> option (list Proposal.t);
  (* what [fetchInvoiceItems] returns *)
  invoiceItems : Z -> FeegowDate.t -> list InvoiceItem.t;
  (* the [nome] of what [fetchProcedure] returns *)
  procedure : Z -> option string;
  (* [/api/appoints/search] around a date, at the n-th attempt *)
  appointSearch : option Z -> FeegowDate.t -> nat
                  -> Response (list Appointment.t);
  (* the offset of local time from UTC, in milliseconds, at a local time
     value: what [new Date(y, m, d)] subtracts to get [getTime()] *)
  localTZA : Z -> Z
}.
End Api.

(** ** Module-level state of [feegow.js] *)

Record Store := {
  usedProposalIds : gset Z;
  proposalsCache : gmap (Z * FeegowDate.t) (list Proposal.t);
  proceduresCache : gmap Z string;
  appointmentsCache : gmap (option Z) AppointmentsResult.t
}.

Definition emptyStore : Store :=
  {| usedProposalIds := ∅; proposalsCache := ∅;
     proceduresCache := ∅; appointmentsCache := ∅ |}.

Definition withUsedProposalIds (f : gset Z -> gset Z) (st : Store) : Store :=
  {| usedProposalIds := f (usedProposalIds st);
     proposalsCache := proposalsCache st;
     proceduresCache := proceduresCache st;
     appointmentsCache := appointmentsCache st |}.

Definition withProposalsCache
    (f : gmap (Z * FeegowDate.t) (list Proposal.t)
         -> gmap (Z * FeegowDate.t) (list Proposal.t))
    (st : Store) : Store :=
  {| usedProposalIds := usedProposalIds st;
     proposalsCache := f (proposalsCache st);
     proceduresCache := proceduresCache st;
     appointmentsCache := appointmentsCache st |}.

Definition withProceduresCache (f : gmap Z string -> gmap Z string)
    (st : Store) : Store :=
  {| usedProposalIds := usedProposalIds st;
     proposalsCache := proposalsCache st;
     proceduresCache := f (proceduresCache st);
     appointmentsCache := appointmentsCache st |}.

Definition withAppointmentsCache
    (f : gmap (option Z) AppointmentsResult.t
         -> gmap (option Z) AppointmentsResult.t)
    (st : Store) : Store :=
  {| usedProposalIds := usedProposalIds st;
     proposalsCache := proposalsCache st;
     proceduresCache := proceduresCache st;
     appointmentsCache := f (appointmentsCache st) |}.

(** A computation that reads and updates the module state. *)
Definition M (A : Type) : Type := Store -> A * Store.

Definition ret {A : Type} (a : A) : M A := fun st => (a, st).

Definition bind {A B : Type} (m : M A) (k : A -> M B) : M B :=
  fun st => let '(a, st') := m st in k a st'.

Notation "'let*' x ':=' m 'in' k" := (bind m (fun x => k))
  (at level 10, x name, m at level 100, k at level 200).

(** JavaScript's [x || d] and [x > 0] on numbers. *)
Definition orElse (x d : Q) : Q := if Qeq_bool x 0 then d else x.
Definition isPositive (x : Q) : bool := negb (Qle_bool x 0).


(** ** Cached lookups ([feegow.js]) *)

Definition fetchProcedureWithCache (api : Api.t) (procedureId : Z)
  : M (option string) :=
  fun st =>
    match proceduresCache st !! procedureId with
    | Some procedure => (Some procedure, st)
    | None =>
        match Api.procedure api procedureId with
        | Some procedure =>
            (Some procedure,
             withProceduresCache (insert procedureId procedure) st)
        | None => (None, st)
        end
    end.

(** [fetchPatientProposals]: executed proposals of a patient on a date,
    memoized by patient and date; a failed request caches [[]]. *)
Definition fetchPatientProposals (api : Api.t) (pacienteId : Z)
    (date : FeegowDate.t) : M (list Proposal.t) :=
  fun st =>
    match proposalsCache st !! (pacienteId, date) with
    | Some cached => (cached, st)
    | None =>
        let proposals :=
          match Api.proposalList api pacienteId date with
          | Some content =>
              List.filter
                (fun p => String.eqb (Proposal.status p) "Executada")
                content
          | None => []
          end in
        (proposals,
         withProposalsCache (insert (pacienteId, date) proposals) st)
    end.

(** ** The proposal matcher ([findMatchingProposal]) *)

Section Sorting.
Context {A : Type} (compareFn : A -> A -> Q).

(** [Array.prototype.sort(compareFn)]: a stable sort; an element stays
    in front of a later one unless the comparator is positive. *)
Fixpoint insertSorted (x : A) (sorted : list A) : list A :=
  match sorted with
  | [] => [x]
  | y :: rest =>
      if Qle_bool (compareFn x y) 0 then x :: y :: rest
      else y :: insertSorted x rest
  end.

Definition sort (l : list A) : list A := List.fold_right insertSorted [] l.
End Sorting.

(** [(p.procedimentos?.data || []).some(proc =>
      proc.procedimento_id === transaction.ProcedimentoID)]. *)
Definition hasProcedure (procedimentoID : Z) (p : Proposal.t) : bool :=
  existsb (fun proc => ProposalItem.procedimento_id proc =? procedimentoID)
          (Proposal.procedimentos p).

(** [Math.abs(p.value - transaction.Value)], in exact arithmetic.  The
    code computes in doubles ([distanceWith] below), which gives this
    very number when both amounts are whole numbers (of a size up to
    2^52), and a number within a rounding error of it otherwise. *)
Definition distance (transaction : Transaction.t) (p : Proposal.t) : Q :=
  Qabs (Proposal.value p - Transaction.Value transaction).

(** The comparator of the sort, in exact arithmetic as well: on whole
    amounts it is the number the code computes ([byDistanceWith] below),
    on other amounts it can differ from it by a rounding error, and so
    in sign where the two distances are equal. *)
Definition byDistance (transaction : Transaction.t) (a b : Proposal.t) : Q :=
  (distance transaction a - distance transaction b)%Q.

(** [propProcIds.filter(id => invoiceProcIds.has(id)).length]. *)
Definition matchCount (invoiceProcIds : gset Z) (proposal : Proposal.t)
  : nat :=
  length
    (List.filter (fun id => bool_decide (id ∈ invoiceProcIds))
       (List.map ProposalItem.procedimento_id
          (Proposal.procedimentos proposal))).

(** The body of [for (const proposal of proposals)] on
    [(bestProposal, bestMatchCount)]. *)
Definition bestStep (invoiceProcIds : gset Z)
    (best : option Proposal.t * nat) (proposal : Proposal.t)
  : option Proposal.t * nat :=
  let count := matchCount invoiceProcIds proposal in
  if (snd best <? count)%nat then (Some proposal, count) else best.

Definition isMultiProcedure (transaction : Transaction.t) : bool :=
  (1 <? length (reportNames (Transaction.NomeProcedimento transaction)))%nat.

(** The candidates of the single-procedure case. *)
Definition candidatesFor (procedimentoID : Z) (proposals : list Proposal.t)
  : list Proposal.t :=
  List.filter (hasProcedure procedimentoID) proposals.

(** The single-procedure case. *)
Definition matchSingle (transaction : Transaction.t) (procedimentoID : Z)
    (proposals : list Proposal.t) : option Proposal.t :=
  match candidatesFor procedimentoID proposals with
  | [] => None
  | [candidate] => Some candidate
  | candidates => head (sort (byDistance transaction) candidates)
  end.

(** The single-procedure case in the code's own arithmetic.  The code
    computes in doubles: a subtraction gives the double nearest to the
    exact difference, which is what [fl] stands for; [Math.abs] does not
    round. *)
Section Doubles.
Variable fl : Q -> Q.

Definition distanceWith (transaction : Transaction.t) (p : Proposal.t) : Q :=
  Qabs (fl (Proposal.value p - Transaction.Value transaction)).

Definition byDistanceWith (transaction : Transaction.t) (a b : Proposal.t)
  : Q :=
  fl (distanceWith transaction a - distanceWith transaction b).

Definition matchSingleWith (transaction : Transaction.t) (procedimentoID : Z)
    (proposals : list Proposal.t) : option Proposal.t :=
  match candidatesFor procedimentoID proposals with
  | [] => None
  | [candidate] => Some candidate
  | candidates => head (sort (byDistanceWith transaction) candidates)
  end.
End Doubles.

(** [new Set(items.map(i => i.procedimento_id))]. *)
Definition invoiceProcIdsOf (items : list InvoiceItem.t) : gset Z :=
  list_to_set (List.map InvoiceItem.procedimento_id items).

(** The multi-procedure case, given the invoice's items. *)
Definition matchMulti (items : list InvoiceItem.t)
    (proposals : list Proposal.t) : option Proposal.t :=
  match items with
  | [] => None
  | _ =>
      let '(bestProposal, bestMatchCount) :=
        List.fold_left (bestStep (invoiceProcIdsOf items)) proposals
                       (None, 0%nat) in
      match bestProposal with
      | Some proposal =>
          if (2 <=? bestMatchCount)%nat then Some proposal else None
      | None => None
      end
  end.

Definition findMatchingProposal (api : Api.t) (transaction : Transaction.t)
    (proposals : list Proposal.t) : option Proposal.t :=
  match proposals with
  | [] => None
  | _ =>
      if negb (isMultiProcedure transaction)
         && truthyId (Transaction.ProcedimentoID transaction)
      then
        match Transaction.ProcedimentoID transaction with
        | Some procedimentoID =>
            matchSingle transaction procedimentoID proposals
        | None => None
        end
      else if isMultiProcedure transaction
              && truthyId (Transaction.NumeroInvoice transaction)
      then
        match Transaction.NumeroInvoice transaction with
        | Some invoice =>
            matchMulti
              (Api.invoiceItems api invoice (Transaction.Data transaction))
              proposals
        | None => None
        end
      else None
  end.


(** ** The transaction enricher ([enrichTransactionWithItems]) *)

Definition msPerDay : Z := 1000 * 60 * 60 * 24.

(** The largest time value of a [Date]; beyond it the date is invalid. *)
Definition maxTime : Z := 8640000000000000.

(** [new Date(year, month - 1, day).getTime()]: the local midnight of the
    date as milliseconds of UTC, that is the local time value less the
    offset of the zone at it; [None] is [NaN], the time of a date out of
    range. *)
Definition getTime (api : Api.t) (date : FeegowDate.t) : option Z :=
  let local := msPerDay * FeegowDate.jsDay date in
  let time := local - Api.localTZA api local in
  if Z.abs time <=? maxTime then Some time else None.

(** [Math.abs(transactionMs - proposalMs) / (1000 * 60 * 60 * 24)];
    [None] is [NaN].  The two times are whole numbers of milliseconds,
    so the quotient the code computes exceeds 30 exactly when this
    rational does. *)
Definition daysDiff (api : Api.t) (proposalDate transactionDate : FeegowDate.t)
  : option Q :=
  match getTime api proposalDate, getTime api transactionDate with
  | Some proposalMs, Some transactionMs =>
      Some (Qabs (inject_Z (transactionMs - proposalMs))
            / inject_Z msPerDay)%Q
  | _, _ => None
  end.

(** [daysDiff > 30], which [NaN] fails. *)
Definition moreThan30 (daysDiff : option Q) : bool :=
  match daysDiff with
  | Some days => negb (Qle_bool days 30)
  | None => false
  end.

(** The payment-only check: the invoice's proposal date exists, is not
    the transaction's date and lies more than 30 days away from it. *)
Definition isPaymentOnly (api : Api.t) (transaction : Transaction.t) : bool :=
  match Transaction.NumeroInvoice transaction with
  | Some invoice =>
      truthyId (Transaction.NumeroInvoice transaction) &&
      match Api.invoiceProposalDate api invoice with
      | Some proposalDate =>
          bool_decide (proposalDate ≠ Transaction.Data transaction)
          && moreThan30
               (daysDiff api proposalDate (Transaction.Data transaction))
      | None => false
      end
  | None => false
  end.

Definition paymentOnlyResult (transaction : Transaction.t) : Enriched.t :=
  {| Enriched.transaction := transaction;
     Enriched.paymentOnly := true;
     Enriched.fonteItens := "payment-only";
     Enriched.detailedItems := [];
     Enriched.proposalId := None |}.

(** One item per line of the matched proposal. *)
Definition proposalItem (proc : ProposalItem.t) : DetailedItem.t :=
  {| DetailedItem.procedimento_id := Some (ProposalItem.procedimento_id proc);
     DetailedItem.nome := ProposalItem.nome proc;
     DetailedItem.valor :=
       (ProposalItem.valor proc * orElse (ProposalItem.quantidade proc) 1)%Q;
     DetailedItem.quantidade := orElse (ProposalItem.quantidade proc) 1;
     DetailedItem.desconto := orElse (ProposalItem.desconto proc) 0;
     DetailedItem.acrescimo := orElse (ProposalItem.acrescimo proc) 0 |}.

Definition proposalResult (transaction : Transaction.t)
    (matchedProposal : Proposal.t) : Enriched.t :=
  {| Enriched.transaction := transaction;
     Enriched.paymentOnly := false;
     Enriched.fonteItens := "proposal";
     Enriched.detailedItems :=
       List.map proposalItem (Proposal.procedimentos matchedProposal);
     Enriched.proposalId := Some (Proposal.proposal_id matchedProposal) |}.

Definition reportSingleResult (transaction : Transaction.t) : Enriched.t :=
  {| Enriched.transaction := transaction;
     Enriched.paymentOnly := false;
     Enriched.fonteItens := "report-single";
     Enriched.detailedItems :=
       [ {| DetailedItem.procedimento_id :=
              Transaction.ProcedimentoID transaction;
            DetailedItem.nome :=
              match Transaction.NomeProcedimento transaction with
              | Some (String c r) => String c r
              | _ => "Procedimento"
              end;
            DetailedItem.valor := Transaction.Value transaction;
            DetailedItem.quantidade :=
              orElse (Transaction.Quantidade transaction) 1;
            DetailedItem.desconto := 0;
            DetailedItem.acrescimo := 0 |} ];
     Enriched.proposalId := None |}.

(** The value spread equally over the names of the report. *)
Definition distributedResult (transaction : Transaction.t)
    (names : list string) : Enriched.t :=
  let valuePerItem :=
    (Transaction.Value transaction / inject_Z (Z.of_nat (length names)))%Q in
  {| Enriched.transaction := transaction;
     Enriched.paymentOnly := false;
     Enriched.fonteItens := "report-distributed";
     Enriched.detailedItems :=
       List.map (fun nome =>
                   {| DetailedItem.procedimento_id := None;
                      DetailedItem.nome := nome;
                      DetailedItem.valor := valuePerItem;
                      DetailedItem.quantidade := 1;
                      DetailedItem.desconto := 0;
                      DetailedItem.acrescimo := 0 |}) names;
     Enriched.proposalId := None |}.

(** The body of [for (const item of items)] on the invoice path. *)
Definition invoiceItem (api : Api.t) (item : InvoiceItem.t)
  : M DetailedItem.t :=
  let* proc := fetchProcedureWithCache api (InvoiceItem.procedimento_id item) in
  let nome :=
    match proc with
    | Some (String c r) => String c r
    | _ => "Procedimento #" +:+ pretty (InvoiceItem.procedimento_id item)
    end in
  ret {| DetailedItem.procedimento_id :=
           Some (InvoiceItem.procedimento_id item);
         DetailedItem.nome := nome;
         DetailedItem.valor := (InvoiceItem.valor item / 100)%Q;
         DetailedItem.quantidade := orElse (InvoiceItem.quantidade item) 1;
         DetailedItem.desconto :=
           (orElse (InvoiceItem.desconto item) 0 / 100)%Q;
         DetailedItem.acrescimo := 0 |}.

Fixpoint invoiceItems (api : Api.t) (items : list InvoiceItem.t)
  : M (list DetailedItem.t) :=
  match items with
  | [] => ret []
  | item :: rest =>
      let* detailed := invoiceItem api item in
      let* more := invoiceItems api rest in
      ret (detailed :: more)
  end.

(** The fallback on report and invoice data, once no proposal is used. *)
Definition enrichFromReport (api : Api.t) (transaction : Transaction.t)
  : M Enriched.t :=
  let names := reportNames (Transaction.NomeProcedimento transaction) in
  if (length names <=? 1)%nat then ret (reportSingleResult transaction)
  else
    match Transaction.NumeroInvoice transaction with
    | Some invoice =>
        if truthyId (Transaction.NumeroInvoice transaction) then
          match Api.invoiceItems api invoice (Transaction.Data transaction)
          with
          | [] => ret (distributedResult transaction names)
          | items =>
              let* detailedItems := invoiceItems api items in
              ret {| Enriched.transaction := transaction;
                     Enriched.paymentOnly := false;
                     Enriched.fonteItens := "invoice";
                     Enriched.detailedItems := detailedItems;
                     Enriched.proposalId := None |}
          end
        else ret (distributedResult transaction names)
    | None => ret (distributedResult transaction names)
    end.

(** The proposal path: [Some] when a proposal with items is matched; the
    proposal's id goes into [usedProposalIds]. *)
Definition enrichFromProposal (api : Api.t) (transaction : Transaction.t)
  : M (option Enriched.t) :=
  match Transaction.PacienteID transaction with
  | Some pacienteID =>
      if truthyId (Transaction.PacienteID transaction) then
        let* proposals :=
          fetchPatientProposals api pacienteID (Transaction.Data transaction) in
        fun st =>
          let availableProposals :=
            List.filter
              (fun p => negb (bool_decide
                                (Proposal.proposal_id p ∈ usedProposalIds st)))
              proposals in
          match findMatchingProposal api transaction availableProposals with
          | Some matchedProposal =>
              match Proposal.procedimentos matchedProposal with
              | [] => (None, st)
              | _ =>
                  (Some (proposalResult transaction matchedProposal),
                   withUsedProposalIds
                     (union {[Proposal.proposal_id matchedProposal]}) st)
              end
          | None => (None, st)
          end
      else ret None
  | None => ret None
  end.

(** Everything after the payment-only check. *)
Definition enrichNormally (api : Api.t) (transaction : Transaction.t)
  : M Enriched.t :=
  let* fromProposal := enrichFromProposal api transaction in
  match fromProposal with
  | Some enriched => ret enriched
  | None => enrichFromReport api transaction
  end.

Definition enrichTransactionWithItems (api : Api.t)
    (transaction : Transaction.t) : M Enriched.t :=
  if isPaymentOnly api transaction then ret (paymentOnlyResult transaction)
  else enrichNormally api transaction.

(** ** The batch driver ([fetchDetailedTransactions]) *)

(** The loop [for (let i = 0; i < transactions.length; i++)]; [world i]
    is the API as it answers while transaction [i] is enriched. *)
Fixpoint enrichLoop (world : nat -> Api.t) (i : nat)
    (transactions : list Transaction.t) : M (list Enriched.t) :=
  match transactions with
  | [] => ret []
  | mov :: rest =>
      let* enriched := enrichTransactionWithItems (world i) mov in
      let* more := enrichLoop world (S i) rest in
      ret (enriched :: more)
  end.

(** [usedProposalIds.clear()]. *)
Definition clearUsedProposalIds (st : Store) : Store :=
  withUsedProposalIds (fun _ => ∅) st.

(** [fetchDetailedTransactions]; [report] is the answer of
    [fetchTransactions], [None] when it throws (and the batch with it). *)
Definition fetchDetailedTransactions (world : nat -> Api.t)
    (report : option (list Transaction.t)) : M (option (list Enriched.t)) :=
  match report with
  | None => ret None
  | Some transactions =>
      fun st =>
        let '(enrichedTransactions, st') :=
          enrichLoop world 0 transactions (clearUsedProposalIds st) in
        (Some enrichedTransactions, st')
  end.


(** ** Appointments ([fetchPatientAppointments], [checkAppointmentDate]) *)

(** [appointmentsCache.clear()]. *)
Definition clearAppointmentsCache (st : Store) : Store :=
  withAppointmentsCache (fun _ => ∅) st.

Definition MAX_RETRIES : nat := 3.

(** [!status || status === 409 || status >= 500]. *)
Definition isRetryable (status : option Z) : bool :=
  match status with
  | None => true
  | Some code => (code =? 0) || (code =? 409) || (500 <=? code)
  end.

(** The retry loop from attempt [attempt] on; [remaining] bounds the
    attempts still allowed.  The waits between attempts take time only. *)
Fixpoint searchAppointments (api : Api.t) (patientId : option Z)
    (date : FeegowDate.t) (attempt remaining : nat) : AppointmentsResult.t :=
  let errorResult :=
    {| AppointmentsResult.appointments := [];
       AppointmentsResult.apiError := true |} in
  match remaining with
  | O => errorResult
  | S remaining' =>
      match Api.appointSearch api patientId date attempt with
      | Api.Ok content =>
          {| AppointmentsResult.appointments := content;
             AppointmentsResult.apiError := false |}
      | Api.Failed status =>
          if isRetryable status && (attempt <? MAX_RETRIES)%nat
          then searchAppointments api patientId date (S attempt) remaining'
          else errorResult
      end
  end.

(** [fetchPatientAppointments]: memoized by patient id alone; the answer
    of the search, good or failed, is cached. *)
Definition fetchPatientAppointments (api : Api.t) (patientId : option Z)
    (date : FeegowDate.t) : M AppointmentsResult.t :=
  fun st =>
    match appointmentsCache st !! patientId with
    | Some cached => (cached, st)
    | None =>
        let result := searchAppointments api patientId date 1 MAX_RETRIES in
        (result, withAppointmentsCache (insert patientId result) st)
    end.

Module AppointmentCheck.
Record t := {
  hasAppointmentToday : bool;
  isOnlineConsultation : bool;
  apiError : bool
}.
End AppointmentCheck.

Definition isOnlineAppointment (apt : Appointment.t) : bool :=
  Appointment.telemedicina apt ||
  match Appointment.notas apt with
  | Some notas => includes (toLowerCase notas) "consulta online"
  | None => false
  end.

Definition checkAppointmentDate (api : Api.t) (patientId : option Z)
    (processingDate : FeegowDate.t) : M AppointmentCheck.t :=
  let* found := fetchPatientAppointments api patientId processingDate in
  if AppointmentsResult.apiError found then
    ret {| AppointmentCheck.hasAppointmentToday := false;
           AppointmentCheck.isOnlineConsultation := false;
           AppointmentCheck.apiError := true |}
  else
    ret {| AppointmentCheck.hasAppointmentToday :=
             existsb (fun apt =>
                        bool_decide
                          (Appointment.data apt
                           = DateText.procDateNorm
                               (FeegowDate.text processingDate)))
                     (AppointmentsResult.appointments found);
           AppointmentCheck.isOnlineConsultation :=
             existsb isOnlineAppointment
                     (AppointmentsResult.appointments found);
           AppointmentCheck.apiError := false |}.

(** ** The row builder ([buildRow] of [excel.js]): the loop over the
    group's detailed items, which classifies every item, checks the
    evaluations against the appointments and accumulates the procedure
    columns and the discounts. *)

Module Detail.
(** An entry of [classificationDetails] ([tipo] is always
    ['procedimento'] in this loop). *)
Record t := {
  procedimentoId : option Z;
  nome : string;
  valor : Q;
  quantidade : Q;
  desconto : Q;
  colunaDestino : option string;
  colunaDestinoNome : string;
  classificadoPor : string
}.
End Detail.

Module Group.
(** A group of [groupTransactions]; it is created with its first
    transaction, so [transactions[0]] exists. *)
Record t := {
  patientId : option Z;
  patientName : string;
  firstTransaction : Enriched.t;
  otherTransactions : list Enriched.t;
  detailedItems : list DetailedItem.t
}.
End Group.

Module RowAcc.
(** The accumulators of the loop. *)
Record t := {
  procedureValues : gmap string Q;
  classificationDetails : list Detail.t;
  discountTotal : Q
}.
End RowAcc.

Definition emptyRowAcc : RowAcc.t :=
  {| RowAcc.procedureValues := ∅;
     RowAcc.classificationDetails := [];
     RowAcc.discountTotal := 0 |}.

(** [formatValue] on a number. *)
Definition formatValue (value : Q) : Q := value.

Definition detailOf (item : DetailedItem.t) (colunaDestino : option string)
    (colunaDestinoNome classificadoPor : string) : Detail.t :=
  {| Detail.procedimentoId := DetailedItem.procedimento_id item;
     Detail.nome := DetailedItem.nome item;
     Detail.valor := formatValue (DetailedItem.valor item);
     Detail.quantidade := orElse (DetailedItem.quantidade item) 1;
     Detail.desconto := orElse (DetailedItem.desconto item) 0;
     Detail.colunaDestino := colunaDestino;
     Detail.colunaDestinoNome := colunaDestinoNome;
     Detail.classificadoPor := classificadoPor |}.

(** The accumulated discount after the item's own is added, when it has
    a positive one. *)
Definition addDiscount (item : DetailedItem.t) (total : Q) : Q :=
  if isPositive (DetailedItem.desconto item)
  then (total + DetailedItem.desconto item
                * orElse (DetailedItem.quantidade item) 1)%Q
  else total.

(** [discountTotal -= item.desconto * (item.quantidade || 1)] under the
    same test. *)
Definition undoDiscount (item : DetailedItem.t) (total : Q) : Q :=
  if isPositive (DetailedItem.desconto item)
  then (total - DetailedItem.desconto item
                * orElse (DetailedItem.quantidade item) 1)%Q
  else total.

(** The item lands in [column]: the tail of the loop body. *)
Definition addToColumn (column classificadoPor : string)
    (item : DetailedItem.t) (discountTotal : Q) (acc : RowAcc.t) : RowAcc.t :=
  {| RowAcc.procedureValues :=
       <[column :=
           (default 0%Q (RowAcc.procedureValues acc !! column)
            + formatValue (DetailedItem.valor item))%Q]>
         (RowAcc.procedureValues acc);
     RowAcc.classificationDetails :=
       RowAcc.classificationDetails acc ++
       [detailOf item (Some column)
          (default column (COLUMNS.COLUMN_NAMES !! column)) classificadoPor];
     RowAcc.discountTotal := discountTotal |}.

(** The item is only recorded, under [colunaDestinoNome], in no column. *)
Definition recordOnly (colunaDestinoNome classificadoPor : string)
    (item : DetailedItem.t) (discountTotal : Q) (acc : RowAcc.t) : RowAcc.t :=
  {| RowAcc.procedureValues := RowAcc.procedureValues acc;
     RowAcc.classificationDetails :=
       RowAcc.classificationDetails acc ++
       [detailOf item None colunaDestinoNome classificadoPor];
     RowAcc.discountTotal := discountTotal |}.

(** The body of [for (const item of group.detailedItems)]. *)
Definition processItem (groupMapping : option (gmap Z (option string)))
    (api : Api.t)
    (referenceDate : FeegowDate.t) (group : Group.t)
    (acc : RowAcc.t) (item : DetailedItem.t) : M RowAcc.t :=
  let discountTotal := addDiscount item (RowAcc.discountTotal acc) in
  let classification :=
    classifyProcedure groupMapping (DetailedItem.nome item)
                      (DetailedItem.procedimento_id item) in
  let classificadoPor := Classification.classificadoPor classification in
  match Classification.column classification with
  | None => ret (recordOnly "DESCARTADO" classificadoPor item discountTotal acc)
  | Some column =>
      if String.eqb column COLUMNS.AVALIACAO then
        let* check :=
          checkAppointmentDate api
            (Transaction.PacienteID
               (Enriched.transaction (Group.firstTransaction group)))
            referenceDate in
        if AppointmentCheck.apiError check then
          ret (addToColumn column classificadoPor item discountTotal acc)
        else if negb (AppointmentCheck.hasAppointmentToday check) then
          ret (recordOnly "SINAL_ANTECIPADO" "agendamento-futuro" item
                 (undoDiscount item discountTotal) acc)
        else ret (addToColumn column classificadoPor item discountTotal acc)
      else ret (addToColumn column classificadoPor item discountTotal acc)
  end.

Fixpoint processItems (groupMapping : option (gmap Z (option string)))
    (api : Api.t)
    (referenceDate : FeegowDate.t) (group : Group.t)
    (acc : RowAcc.t) (items : list DetailedItem.t) : M RowAcc.t :=
  match items with
  | [] => ret acc
  | item :: rest =>
      let* acc' := processItem groupMapping api referenceDate group acc item in
      processItems groupMapping api referenceDate group acc' rest
  end.

(** The first loop of [buildRow(group, referenceDate)]. *)
Definition buildRowItems (groupMapping : option (gmap Z (option string)))
    (api : Api.t)
    (referenceDate : FeegowDate.t) (group : Group.t) : M RowAcc.t :=
  processItems groupMapping api referenceDate group emptyRowAcc
               (Group.detailedItems group).


(** ** Vocabulary of the specification *)

(** Every character of a string is in a class. *)
Fixpoint allChars (class : ascii -> bool) (s : string) : bool :=
  match s with
  | EmptyString => true
  | String c r => class c && allChars class r
  end.

(** The specification's condition on the text after a comma: optional
    spaces, then a letter, or then a digit sequence ending in the ordinal
    mark. *)
Definition FollowedByLetterOrOrdinal (rest : string) : Prop :=
  exists spaces tail,
    rest = spaces +:+ tail /\ allChars isWhiteSpace spaces = true /\
    ((exists c r, tail = String c r /\ isLetterClass c = true) \/
     (exists digits r,
        tail = digits +:+ ordinalMark +:+ r /\
        digits <> EmptyString /\ allChars isDigit digits = true)).

(** A decimal part: digits that do not run into the ordinal mark. *)
Definition DecimalPart (rest : string) : Prop :=
  exists digits r,
    rest = digits +:+ r /\ digits <> EmptyString /\
    allChars isDigit digits = true /\
    match r with
    | EmptyString => True
    | String c _ => isDigit c = false /\ isOrdinalMark c = false
    end.

(** A name contains a pattern, letter case apart. *)
Definition ContainsIgnoringCase (name pattern : string) : Prop :=
  exists before found after,
    name = before +:+ found +:+ after /\
    toLowerCase found = toLowerCase pattern.

(** The lookup by id gives nothing: the id is absent (or 0), the
    category map is not loaded, or it has no entry for the id. *)
Definition NotInCategoryMap (groupMapping : option (gmap Z (option string)))
    (procedureId : option Z) : Prop :=
  truthyId procedureId = false \/ groupMapping = None \/
  exists mapping id,
    groupMapping = Some mapping /\ procedureId = Some id /\
    mapping !! id = None.

(** The category map the row builder works with: not loaded, or what
    [fetchGroupMapping] made of some answer of the API. *)
Definition LoadedMapping (groupMapping : option (gmap Z (option string)))
  : Prop :=
  groupMapping = None \/
  exists response, groupMapping = Some (fetchGroupMapping response).

(** The column keys [fetchGroupMapping] can store. *)
Definition knownKeys : list string :=
  [ "IMPLANTE"; "APLICACOES"; "SORO_DR"; "EXTRA"; "TIRZEPATIDA";
    "AVALIACAO"; "ONLINE"; "NUTRIS"; "DR_RIGATTI" ].

(** The columns a procedure can be classified into. *)
Definition procedureLetters : list string :=
  [ COLUMNS.AVALIACAO; COLUMNS.DR_RIGATTI; COLUMNS.IMPLANTE;
    COLUMNS.SORO_DR; COLUMNS.TIRZEPATIDA; COLUMNS.APLICACOES;
    COLUMNS.ONLINE; COLUMNS.NUTRIS; COLUMNS.EXTRA;
    COLUMNS.ESTORNO_PROC; COLUMNS.JUROS_CARTAO ].

(** Every value of the map is a known column key, never [null]. *)
Definition KeysOnly (mapping : gmap Z (option string)) : Prop :=
  forall id v, mapping !! id = Some v ->
               exists key, v = Some key /\ In key knownKeys.

(** What the loop over the proposals holds after the proposals [seen]. *)
Definition BestOf (invoiceProcIds : gset Z) (seen : list Proposal.t)
    (best : option Proposal.t * nat) : Prop :=
  (forall q, In q seen -> (matchCount invoiceProcIds q <= snd best)%nat) /\
  match fst best with
  | None => snd best = 0%nat
  | Some p =>
      In p seen /\ matchCount invoiceProcIds p = snd best /\
      (0 < snd best)%nat
  end.


(** ** Scenarios of the specification *)

Module Scenario.
(** The text DD/MM/YYYY of a day, a month and a year, and its numbers. *)
Definition twoDigits (n : Z) : string :=
  if n <? 10 then "0" +:+ pretty n else pretty n.
Definition date (d m y : Z) : FeegowDate.t :=
  {| FeegowDate.text :=
       twoDigits d +:+ "/" +:+ twoDigits m +:+ "/" +:+ pretty y;
     FeegowDate.day := d; FeegowDate.month := m; FeegowDate.year := y |}.

(** The zone of the deployment, America/Sao_Paulo without daylight
    saving: three hours behind UTC. *)
Definition saoPaulo : Z -> Z := fun _ => -10800000.

(** An API that answers nothing. *)
Definition silentApi : Api.t :=
  {| Api.invoiceProposalDate := fun _ => None;
     Api.proposalList := fun _ _ => None;
     Api.invoiceItems := fun _ _ => [];
     Api.procedure := fun _ => None;
     Api.appointSearch := fun _ _ _ => Api.Failed None;
     Api.localTZA := saoPaulo |}.

Definition line (procedimentoID : Z) (valor : Q) : ProposalItem.t :=
  {| ProposalItem.procedimento_id := procedimentoID;
     ProposalItem.nome := "Procedimento";
     ProposalItem.valor := valor;
     ProposalItem.quantidade := 1;
     ProposalItem.desconto := 0;
     ProposalItem.acrescimo := 0 |}.

Definition proposal (id : Z) (value : Q) (lines : list ProposalItem.t)
  : Proposal.t :=
  {| Proposal.proposal_id := id;
     Proposal.status := "Executada";
     Proposal.value := value;
     Proposal.procedimentos := lines |}.

Definition payment (paciente : Z) (data : FeegowDate.t) (value : Q)
    (nome : string) (procedimentoID invoice : option Z) : Transaction.t :=
  {| Transaction.PacienteID := Some paciente;
     Transaction.NomePaciente := "Paciente";
     Transaction.Data := data;
     Transaction.Value := value;
     Transaction.NomeProcedimento := Some nome;
     Transaction.ProcedimentoID := procedimentoID;
     Transaction.NumeroInvoice := invoice;
     Transaction.Quantidade := 1 |}.

(** Scenario A: one proposal with the single line 104 at 500, for a
    transaction of procedure 104 and value 500; procedure 104 is in the
    consultations group of the platform. *)
Definition proposalA : Proposal.t := proposal 5 500 [line 104 500].
Definition transactionA : Transaction.t :=
  payment 7 (date 5 2 2026) 500 "Consulta Recompra" (Some 104) None.
Definition scenarioAApi : Api.t :=
  {| Api.invoiceProposalDate := fun _ => None;
     Api.proposalList := fun _ _ => Some [proposalA];
     Api.invoiceItems := fun _ _ => [];
     Api.procedure := fun _ => None;
     Api.appointSearch := fun _ _ _ => Api.Failed None;
     Api.localTZA := saoPaulo |}.
Definition consultations : list ProcedureGroup.t :=
  [ {| ProcedureGroup.id := 3;
       ProcedureGroup.procedimentos := [16; 20; 104] |} ].

(** Scenario E: two names, a value of 200 and no invoice. *)
Definition transactionE : Transaction.t :=
  payment 7 (date 5 2 2026) 200 "Consulta,Nutri" None None.

(** Scenario B: two proposals with procedure 58, totals 300 and 320,
    and a transaction of 305. *)
Definition proposal300 : Proposal.t := proposal 1 300 [line 58 300].
Definition proposal320 : Proposal.t := proposal 2 320 [line 58 320].
Definition transactionB : Transaction.t :=
  payment 7 (date 5 2 2026) 305 "Tirzepatida 40Mg/1,6Ml" (Some 58) None.

(** A transaction of two procedures on invoice 900, whose items are the
    procedures 10 and 11. *)
Definition transactionMulti : Transaction.t :=
  payment 7 (date 5 2 2026) 800 "Implante,Soroterapia" None (Some 900).
Definition invoiceApi : Api.t :=
  {| Api.invoiceProposalDate := fun _ => None;
     Api.proposalList := fun _ _ => None;
     Api.invoiceItems := fun _ _ =>
       [ {| InvoiceItem.procedimento_id := 10; InvoiceItem.valor := 50000;
            InvoiceItem.quantidade := 1; InvoiceItem.desconto := 0 |};
         {| InvoiceItem.procedimento_id := 11; InvoiceItem.valor := 30000;
            InvoiceItem.quantidade := 1; InvoiceItem.desconto := 0 |} ];
     Api.procedure := fun _ => None;
     Api.appointSearch := fun _ _ _ => Api.Failed None;
     Api.localTZA := saoPaulo |}.
Definition proposalBoth : Proposal.t :=
  proposal 3 800 [line 10 500; line 11 300].
Definition proposalOne : Proposal.t := proposal 4 500 [line 10 500].

(** Scenario C: invoice 901 was proposed on 2025-11-01 and is paid on
    2026-02-05. *)
Definition oldInvoiceApi : Api.t :=
  {| Api.invoiceProposalDate := fun _ => Some (date 1 11 2025);
     Api.proposalList := fun _ _ => None;
     Api.invoiceItems := fun _ _ => [];
     Api.procedure := fun _ => None;
     Api.appointSearch := fun _ _ _ => Api.Failed None;
     Api.localTZA := saoPaulo |}.
Definition transactionC : Transaction.t :=
  payment 7 (date 5 2 2026) 400 "Implante" (Some 10) (Some 901).

(** Scenario C across a change of the clocks: in America/Sao_Paulo the
    summer time of 2017 ended on 18 February 2018, when the offset went
    from two to three hours behind UTC.  Invoice 902 was proposed on
    2018-02-01 and is paid on 2018-03-03, 30 calendar days and one hour
    later. *)
Definition summer2018 : Z -> Z :=
  fun local =>
    if local <? msPerDay * FeegowDate.jsDay (date 18 2 2018)
    then -7200000 else -10800000.
Definition summerInvoiceApi : Api.t :=
  {| Api.invoiceProposalDate := fun _ => Some (date 1 2 2018);
     Api.proposalList := fun _ _ => None;
     Api.invoiceItems := fun _ _ => [];
     Api.procedure := fun _ => None;
     Api.appointSearch := fun _ _ _ => Api.Failed None;
     Api.localTZA := summer2018 |}.
Definition transactionSummer : Transaction.t :=
  payment 7 (date 3 3 2018) 400 "Implante" (Some 10) (Some 902).

(** Two payments of patient 7 for procedure 58 on one day, with the
    proposals of scenario B on offer. *)
Definition twoProposalsApi : Api.t :=
  {| Api.invoiceProposalDate := fun _ => None;
     Api.proposalList := fun _ _ => Some [proposal300; proposal320];
     Api.invoiceItems := fun _ _ => [];
     Api.procedure := fun _ => None;
     Api.appointSearch := fun _ _ _ => Api.Failed None;
     Api.localTZA := saoPaulo |}.
Definition twoPayments : list Transaction.t := [transactionB; transactionB].

(** Two days of patient 7: on each day the appointment search answers
    with the appointment of that day. *)
Definition appointmentOn (data : FeegowDate.t) : Appointment.t :=
  {| Appointment.data := DateText.replaceAll "/" "-" (FeegowDate.text data);
     Appointment.telemedicina := false;
     Appointment.notas := None |}.
Definition appointmentsApi (today : FeegowDate.t) : Api.t :=
  {| Api.invoiceProposalDate := fun _ => None;
     Api.proposalList := fun _ _ => None;
     Api.invoiceItems := fun _ _ => [];
     Api.procedure := fun _ => None;
     Api.appointSearch := fun _ _ _ => Api.Ok [appointmentOn today];
     Api.localTZA := saoPaulo |}.
Definition firstDay : FeegowDate.t := date 4 2 2026.
Definition secondDay : FeegowDate.t := date 5 2 2026.

(** Scenario D: an evaluation of 200 with a discount of 50, and a
    platform that knows no appointment of the patient. *)
Definition noAppointmentApi : Api.t :=
  {| Api.invoiceProposalDate := fun _ => None;
     Api.proposalList := fun _ _ => None;
     Api.invoiceItems := fun _ _ => [];
     Api.procedure := fun _ => None;
     Api.appointSearch := fun _ _ _ => Api.Ok [];
     Api.localTZA := saoPaulo |}.
Definition evaluationItem : DetailedItem.t :=
  {| DetailedItem.procedimento_id := None;
     DetailedItem.nome := "Consulta";
     DetailedItem.valor := 200;
     DetailedItem.quantidade := 1;
     DetailedItem.desconto := 50;
     DetailedItem.acrescimo := 0 |}.
Definition evaluationPayment : Transaction.t :=
  payment 7 secondDay 200 "Consulta" None None.
Definition evaluationGroup : Group.t :=
  {| Group.patientId := Some 7;
     Group.patientName := "Paciente";
     Group.firstTransaction :=
       {| Enriched.transaction := evaluationPayment;
          Enriched.paymentOnly := false;
          Enriched.fonteItens := "report-single";
          Enriched.detailedItems := [evaluationItem];
          Enriched.proposalId := None |};
     Group.otherTransactions := [];
     Group.detailedItems := [evaluationItem] |}.
End Scenario.

(** The sources an enrichment that is not payment-only can end in. *)
Definition itemSources : list string :=
  [ "proposal"; "report-single"; "report-distributed"; "invoice" ].

(** A whole amount, of a size for which the code's subtractions of such
    amounts are exact (2^52). *)
Definition isWholeAmount (value : Q) : Prop :=
  exists n : Z, (value == inject_Z n)%Q /\ Z.abs n <= 4503599627370496.



(** A rounding that leaves the whole numbers of a size up to 2^53 as
    they are, as the rounding to the nearest double does. *)
Definition ExactOnWhole (fl : Q -> Q) : Prop :=
  forall (q : Q) (k : Z),
    (q == inject_Z k)%Q -> Z.abs k <= 9007199254740992 ->
    (fl q == inject_Z k)%Q.

(** The number of calendar days between two dates. *)
Definition calendarDays (a b : FeegowDate.t) : Z :=
  Z.abs (FeegowDate.jsDay b - FeegowDate.jsDay a).

(** The offset of the zone at the local midnight of a date. *)
Definition offsetAt (api : Api.t) (date : FeegowDate.t) : Z :=
  Api.localTZA api (msPerDay * FeegowDate.jsDay date).

(** ** Payment columns ([excel.js], [historico.js]) *)

Module Payment.

(** [PAYMENT_MAPPING[FormaPagamentoID]]. *)
Definition PAYMENT_MAPPING (FormaPagamentoID : option Z) : option string :=
  match FormaPagamentoID with
  | Some 1 => Some COLUMNS.DINHEIRO
  | Some 2 => Some COLUMNS.CHEQUE
  | Some 3 => Some COLUMNS.PIX
  | Some 4 => Some COLUMNS.BOLETO
  | Some 5 => Some COLUMNS.PIX
  | Some 6 => Some COLUMNS.PIX
  | Some 7 => Some COLUMNS.PIX
  | Some 8 => Some COLUMNS.INFINITE
  | Some 9 => Some COLUMNS.INFINITE
  | Some 10 => Some COLUMNS.INFINITE
  | Some 15 => Some COLUMNS.PIX
  | _ => None
  end.

(** [(AccountName || '').toLowerCase()]. *)
Definition accountOf (AccountName : option string) : string :=
  match AccountName with
  | Some name => toLowerCase name
  | None => EmptyString
  end.

Definition isMethod (n : Z) (FormaPagamentoID : option Z) : bool :=
  match FormaPagamentoID with
  | Some m => m =? n
  | None => false
  end.

(** [identifyPaymentColumn] of [excel.js] on the two fields it reads.
    The last fallback is [COLUMNS.PGTO_OUTROS], a key [COLUMNS] does not
    have: [undefined], here [None]. *)
Definition identifyPaymentColumn (FormaPagamentoID : option Z)
    (AccountName : option string) : option string :=
  let account := accountOf AccountName in
  if includes account "caixa" || isMethod 1 FormaPagamentoID
  then Some COLUMNS.DINHEIRO
  else if includes account "sicoob" then Some COLUMNS.SICOOB
  else if includes account "safra pay" then Some COLUMNS.SAFRA
  else if includes account "safra" then
    if isMethod 4 FormaPagamentoID then Some COLUMNS.BOLETO
    else Some COLUMNS.PIX_SAFRA
  else if includes account "infinte" || includes account "infinite"
  then Some COLUMNS.INFINITE
  else if includes account "cora" then Some COLUMNS.PIX
  else PAYMENT_MAPPING FormaPagamentoID.

(** The pair [(col, name)] of [identifyPaymentColumnName] of
    [historico.js]. *)
Definition historyPaymentColumn (FormaPagamentoID : option Z)
    (AccountName : option string) : string * string :=
  let account := accountOf AccountName in
  if includes account "caixa" || isMethod 1 FormaPagamentoID
  then ("Q", "DINHEIRO")
  else if includes account "sicoob" then ("R", "SICOOB")
  else if includes account "safra pay" then ("S", "SAFRA")
  else if includes account "safra" && isMethod 4 FormaPagamentoID
  then ("X", "BOLETO")
  else if includes account "safra" then ("T", "PIX_SAFRA")
  else if includes account "infinte" || includes account "infinite"
  then ("U", "INFINITE")
  else if includes account "cora" then ("V", "PIX")
  else ("V", "PIX").

(** [identifyPaymentColumnName]: [`${col} (${name})`]. *)
Definition identifyPaymentColumnName (FormaPagamentoID : option Z)
    (AccountName : option string) : string :=
  let '(col, name) := historyPaymentColumn FormaPagamentoID AccountName in
  col +:+ " (" +:+ name +:+ ")".

(** Whether the account name holds one of the words both functions
    look for. *)
Definition accountDecides (AccountName : option string) : bool :=
  let account := accountOf AccountName in
  includes account "caixa" || includes account "sicoob"
  || includes account "safra" || includes account "infinte"
  || includes account "infinite" || includes account "cora".

End Payment.

(** ** Grouping ([groupTransactions] of [excel.js]) *)

Module Grouping.

(** The key [`${mov.PacienteID}_${mov.Data}`]: the patient and the date
    as a text.  A date of the embedding carries its text, and the same
    text is read as the same numbers, so two keys are the same exactly
    when the patient and the date are. *)
Definition keyOf (mov : Enriched.t) : option Z * FeegowDate.t :=
  (Transaction.PacienteID (Enriched.transaction mov),
   Transaction.Data (Enriched.transaction mov)).

Definition groupKey (group : Group.t) : option Z * FeegowDate.t :=
  keyOf (Group.firstTransaction group).

(** [group.transactions]. *)
Definition transactionsOf (group : Group.t) : list Enriched.t :=
  Group.firstTransaction group :: Group.otherTransactions group.

(** The group [groups.set(key, {...})] creates, after its first
    transaction is pushed; its [date] is the [Data] of that
    transaction. *)
Definition newGroup (mov : Enriched.t) : Group.t :=
  {| Group.patientId := Transaction.PacienteID (Enriched.transaction mov);
     Group.patientName := Transaction.NomePaciente (Enriched.transaction mov);
     Group.firstTransaction := mov;
     Group.otherTransactions := [];
     Group.detailedItems := Enriched.detailedItems mov |}.

(** [group.transactions.push(mov)] and
    [group.detailedItems.push(...mov.detailedItems)]. *)
Definition pushInto (group : Group.t) (mov : Enriched.t) : Group.t :=
  {| Group.patientId := Group.patientId group;
     Group.patientName := Group.patientName group;
     Group.firstTransaction := Group.firstTransaction group;
     Group.otherTransactions := Group.otherTransactions group ++ [mov];
     Group.detailedItems :=
       Group.detailedItems group ++ Enriched.detailedItems mov |}.

(** The body of the loop on the [Map], whose values are kept in the
    order their keys were first set. *)
Fixpoint addToGroups (mov : Enriched.t) (groups : list Group.t)
  : list Group.t :=
  match groups with
  | [] => [newGroup mov]
  | group :: rest =>
      if bool_decide (groupKey group = keyOf mov)
      then pushInto group mov :: rest
      else group :: addToGroups mov rest
  end.

Definition groupTransactions (transactions : list Enriched.t)
  : list Group.t :=
  List.fold_left (fun groups mov => addToGroups mov groups) transactions [].

End Grouping.

(** ** Vocabulary of the further properties *)

(** A part of a date text: it holds neither a dash nor a slash. *)
Definition isDatePart (s : string) : bool :=
  allChars (fun c => negb (Ascii.eqb c "-") && negb (Ascii.eqb c "/")) s.

Definition sameKey (key : option Z * FeegowDate.t) (mov : Enriched.t) : bool :=
  bool_decide (Grouping.keyOf mov = key).

(** What holds of the groups after the transactions [seen]. *)
Definition Grouped (seen : list Enriched.t) (groups : list Group.t) : Prop :=
  NoDup (List.map Grouping.groupKey groups) /\
  (forall g, In g groups ->
     Grouping.transactionsOf g = List.filter (sameKey (Grouping.groupKey g)) seen /\
     Group.detailedItems g
     = List.concat (List.map Enriched.detailedItems (Grouping.transactionsOf g)) /\
     Group.patientId g
     = Transaction.PacienteID (Enriched.transaction (Group.firstTransaction g)))
  /\
  (forall mov, In mov seen -> In (Grouping.keyOf mov) (List.map Grouping.groupKey groups)) /\
  sublist (List.map Group.firstTransaction groups) seen.


(** The sum of the values of a list of items. *)
Definition totalValue (items : list DetailedItem.t) : Q :=
  List.fold_right (fun item acc => (DetailedItem.valor item + acc)%Q) 0%Q
                  items.

(** Every cached list of proposals holds executed proposals only. *)
Definition CacheExecuted (st : Store) : Prop :=
  forall key proposals,
    proposalsCache st !! key = Some proposals ->
    Forall (fun p => Proposal.status p = "Executada") proposals.

(** An entry of the category map for [id] that comes from a group of
    [groups] listing the procedure and having a column of its own. *)
Definition FromGroup (id : Z) (groups : list ProcedureGroup.t)
    (mapping : gmap Z (option string)) : Prop :=
  forall v, mapping !! id = Some v ->
    exists g col,
      In g groups /\ In id (ProcedureGroup.procedimentos g) /\
      GROUP_TO_COLUMN (ProcedureGroup.id g) = Some col /\ v = Some col.

(** A detail of the classification records the item it was made for. *)
Definition sameItem (d : Detail.t) (item : DetailedItem.t) : Prop :=
  Detail.procedimentoId d = DetailedItem.procedimento_id item /\
  Detail.nome d = DetailedItem.nome item /\
  Detail.valor d = DetailedItem.valor item.

(** The sum of the values of the details that went to [column]. *)
Definition columnTotal (column : string) (details : list Detail.t) : Q :=
  List.fold_right
    (fun d acc =>
       if bool_decide (Detail.colunaDestino d = Some column)
       then (Detail.valor d + acc)%Q else acc)
    0%Q details.

(** The discount a detail stands for: per unit, times the quantity. *)
Definition discountOf (d : Detail.t) : Q :=
  if isPositive (Detail.desconto d)
  then (Detail.desconto d * Detail.quantidade d)%Q else 0%Q.

(** The detail of an evaluation paid in advance. *)
Definition isAdvanceDeposit (d : Detail.t) : bool :=
  String.eqb (Detail.classificadoPor d) "agendamento-futuro".

(** The detail of an item that went to a column. *)
Definition landed (d : Detail.t) : bool :=
  match Detail.colunaDestino d with Some _ => true | None => false end.

(** The sum of the discounts of the details that [keep] selects. *)
Definition discountsOf (keep : Detail.t -> bool) (details : list Detail.t)
  : Q :=
  List.fold_right
    (fun d acc => if keep d then (discountOf d + acc)%Q else acc)
    0%Q details.

(** What the loop over a group's items holds after the items [seen]:
    one detail per item, every column the sum of the details sent to it,
    and the discounts of all details but the advance deposits. *)
Definition RowInvariant (groupMapping : option (gmap Z (option string)))
    (acc : RowAcc.t) (seen : list DetailedItem.t) : Prop :=
  Forall2 sameItem (RowAcc.classificationDetails acc) seen /\
  (forall column,
     (default 0%Q (RowAcc.procedureValues acc !! column)
      == columnTotal column (RowAcc.classificationDetails acc))%Q) /\
  (forall column,
     RowAcc.procedureValues acc !! column = None <->
     forall d, In d (RowAcc.classificationDetails acc) ->
               Detail.colunaDestino d <> Some column) /\
  (RowAcc.discountTotal acc
   == discountsOf (fun d => negb (isAdvanceDeposit d))
        (RowAcc.classificationDetails acc))%Q /\
  (forall d, In d (RowAcc.classificationDetails acc) ->
             isAdvanceDeposit d = true -> Detail.colunaDestino d = None) /\
  (LoadedMapping groupMapping ->
   forall d, In d (RowAcc.classificationDetails acc) ->
             Detail.colunaDestino d = None -> isAdvanceDeposit d = true).

(** ** The diagnostic script (second script of [comparar-abas.js])

    It classifies the items with a table and a function of its own, which
    answer with the column key, not with the letter. *)

Module Diagnostic.

Definition PROCEDURE_MAPPING : list (string * string) :=
  [ ("nutricional", "NUTRIS");
    ("avalia", "AVALIACAO");
    ("rigatti", "DR_RIGATTI");
    ("recompra", "DR_RIGATTI");
    ("protocolo", "DR_RIGATTI");
    ("consulta", "AVALIACAO");
    ("victor", "EXTRA");
    ("implante", "IMPLANTE");
    ("soro", "SORO_DR");
    ("soroterapia", "SORO_DR");
    ("noripurum", "SORO_DR");
    ("tirzepatida", "TIRZEPATIDA");
    ("injet" +:+ aAcute +:+ "vel", "APLICACOES");
    ("injetavel", "APLICACOES");
    ("cipionato", "APLICACOES");
    ("testosterona", "APLICACOES");
    ("blend", "APLICACOES");
    ("gh ", "APLICACOES");
    ("genotropin", "APLICACOES");
    ("omnitrope", "APLICACOES");
    ("nutri", "NUTRIS");
    ("tratamento proposto", "DR_RIGATTI");
    ("juros", "JUROS_CARTAO");
    ("estorno", "ESTORNO_PROC") ].

(** Step 2 and the fallback: the first pattern the lower-cased name
    includes, ['EXTRA'] when there is none. *)
Definition classifyByName (name : string) : option string :=
  match firstPattern (toLowerCase name) PROCEDURE_MAPPING with
  | Some column => Some column
  | None => Some "EXTRA"
  end.

(** [classifyProcedure(name, procedureId)]; [None] is [null]. *)
Definition classifyProcedure (groupMapping : option (gmap Z (option string)))
    (name : string) (procedureId : option Z) : option string :=
  match procedureId, groupMapping with
  | Some id, Some mapping =>
      if truthyId procedureId then
        match mapping !! id with
        | Some columnById => columnById
        | None => classifyByName name
        end
      else classifyByName name
  | _, _ => classifyByName name
  end.

End Diagnostic.

(** ** The totals of a row ([buildRow] of [excel.js], after the loops) *)

Definition columnsForTotal : list string :=
  [ COLUMNS.DR_RIGATTI; COLUMNS.IMPLANTE; COLUMNS.SORO_DR;
    COLUMNS.TIRZEPATIDA; COLUMNS.APLICACOES; COLUMNS.ONLINE;
    COLUMNS.COMISSAO; COLUMNS.NUTRIS; COLUMNS.EXTRA ].

(** [procedureValues[col] || 0]. *)
Definition valueOrZero (procedureValues : gmap string Q) (col : string) : Q :=
  match procedureValues !! col with
  | Some value => orElse value 0
  | None => 0%Q
  end.

(** [for (const col of columnsForTotal) treatmentTotal += ...]. *)
Definition treatmentTotal (procedureValues : gmap string Q) : Q :=
  List.fold_left (fun total col => (total + valueOrZero procedureValues col)%Q)
                 columnsForTotal 0%Q.

(** [rowData[COLUMNS.TRATAMENTO]] in what [buildRow] returns.  Column E
    is written, in this order, by the loop over the entries of
    [procedureValues] (a positive value, should a procedure have been
    sent to E), by the treatment total less the discount total when the
    total is positive, and by the last loop, which puts 0 into every
    numeric column that is not set by then.  The date, the name, the
    notes, the observation, the discount and the payments go to other
    columns. *)
Definition treatmentCell (acc : RowAcc.t) : Q :=
  let fromProcedures :=
    match RowAcc.procedureValues acc !! COLUMNS.TRATAMENTO with
    | Some value => if isPositive value then Some value else None
    | None => None
    end in
  let afterTotals :=
    if isPositive (treatmentTotal (RowAcc.procedureValues acc))
    then Some (treatmentTotal (RowAcc.procedureValues acc)
               - RowAcc.discountTotal acc)%Q
    else fromProcedures in
  match afterTotals with
  | Some value => value
  | None => 0%Q
  end.

(** The detail went to one of the columns of the treatment total. *)
Definition inTreatment (d : Detail.t) : bool :=
  match Detail.colunaDestino d with
  | Some column => bool_decide (column ∈ columnsForTotal)
  | None => false
  end.

(** The sum of the values of the details that [keep] selects. *)
Definition valuesOf (keep : Detail.t -> bool) (details : list Detail.t) : Q :=
  List.fold_right
    (fun d acc => if keep d then (Detail.valor d + acc)%Q else acc)
    0%Q details.

(** * Properties *)

(** ** The splitter *)

Ltac by_code c :=
  destruct c as [[] [] [] [] [] [] [] []]; vm_compute; congruence.

Lemma append_nil (s : string) : EmptyString +:+ s = s.
Proof. reflexivity. Qed.

Lemma append_cons c (a b : string) : String c a +:+ b = String c (a +:+ b).
Proof. reflexivity. Qed.

Ltac ssimpl :=
  repeat (progress (rewrite ?append_nil, ?append_cons; simpl)).

Section SplitterFacts.

Lemma letter_not_space c : isLetterClass c = true -> isWhiteSpace c = false.
Proof.
  by_code c.
Qed.

Lemma digit_not_space c : isDigit c = true -> isWhiteSpace c = false.
Proof.
  by_code c.
Qed.

Lemma digit_not_letter c : isDigit c = true -> isLetterClass c = false.
Proof.
  by_code c.
Qed.

Lemma skipSpaces_spec s :
  exists spaces, s = spaces +:+ skipSpaces s /\
                 allChars isWhiteSpace spaces = true.
Proof.
  induction s as [|c s [w [Hs Hw]]]; simpl.
  - exists EmptyString. split; reflexivity.
  - destruct (isWhiteSpace c) eqn:Hc.
    + exists (String c w). ssimpl. rewrite Hc, Hw. split; [|reflexivity].
      now rewrite <- Hs.
    + exists EmptyString. split; reflexivity.
Qed.

Lemma skipDigits_spec s :
  exists digits, s = digits +:+ skipDigits s /\
                 allChars isDigit digits = true.
Proof.
  induction s as [|c s [w [Hs Hw]]]; simpl.
  - exists EmptyString. split; reflexivity.
  - destruct (isDigit c) eqn:Hc.
    + exists (String c w). ssimpl. rewrite Hc, Hw. split; [|reflexivity].
      now rewrite <- Hs.
    + exists EmptyString. split; reflexivity.
Qed.

Lemma skipSpaces_app spaces tail :
  allChars isWhiteSpace spaces = true ->
  skipSpaces (spaces +:+ tail) = skipSpaces tail.
Proof.
  induction spaces as [|c w IH]; ssimpl; [reflexivity|].
  intros H. apply andb_true_iff in H as [Hc Hw]. rewrite Hc. now apply IH.
Qed.

Lemma skipDigits_app digits tail :
  allChars isDigit digits = true ->
  skipDigits (digits +:+ tail) = skipDigits tail.
Proof.
  induction digits as [|c w IH]; ssimpl; [reflexivity|].
  intros H. apply andb_true_iff in H as [Hc Hw]. rewrite Hc. now apply IH.
Qed.

(** The lookahead holds exactly under the specification's condition. *)
Lemma commaSplits_iff rest :
  commaSplits rest = true <-> FollowedByLetterOrOrdinal rest.
Proof.
  unfold commaSplits, followedByLetter, followedByOrdinal,
    FollowedByLetterOrOrdinal.
  split.
  - intros H. destruct (skipSpaces_spec rest) as [w [Hs Hw]].
    exists w, (skipSpaces rest). split; [exact Hs|]. split; [exact Hw|].
    destruct (skipSpaces rest) as [|c r]; [discriminate|].
    apply orb_true_iff in H as [H|H].
    + left. now exists c, r.
    + right. apply andb_true_iff in H as [Hc H].
      destruct (skipDigits_spec r) as [d [Hr Hd]].
      destruct (skipDigits r) as [|o t]; [discriminate|].
      exists (String c d), t. split; [|split].
      * unfold ordinalMark, chr. ssimpl. f_equal. rewrite Hr at 1. f_equal.
        revert H. by_code o.
      * discriminate.
      * simpl. now rewrite Hc, Hd.
  - intros [w [tail [-> [Hw H]]]]. rewrite skipSpaces_app by exact Hw.
    destruct H as [[c [r [-> Hc]]] | [d [r [-> [Hne Hd]]]]].
    + simpl. rewrite (letter_not_space c Hc). now rewrite Hc.
    + destruct d as [|c d]; [congruence|]. ssimpl. simpl in Hd.
      apply andb_true_iff in Hd as [Hc Hd].
      rewrite (digit_not_space c Hc), Hc, (digit_not_letter c Hc). simpl.
      rewrite skipDigits_app by exact Hd. reflexivity.
Qed.

(** A decimal part never satisfies the lookahead. *)
Lemma decimal_not_split rest : DecimalPart rest -> commaSplits rest = false.
Proof.
  intros [d [r [-> [Hne [Hd Hr]]]]].
  destruct d as [|c d]; [congruence|]. simpl in Hd.
  apply andb_true_iff in Hd as [Hc Hd].
  unfold commaSplits, followedByLetter, followedByOrdinal. ssimpl.
  rewrite (digit_not_space c Hc), Hc, (digit_not_letter c Hc). simpl.
  rewrite skipDigits_app by exact Hd.
  destruct r as [|x r]; simpl; [reflexivity|].
  destruct Hr as [Hx Ho]. now rewrite Hx.
Qed.

(** What follows a comma inside the text to the left of another comma
    is judged the same with or without that other comma and its rest. *)
Lemma followedByLetter_before_comma a b :
  followedByLetter (a +:+ String "," b) = followedByLetter a.
Proof.
  unfold followedByLetter.
  induction a as [|c a IH]; ssimpl; [reflexivity|].
  destruct (isWhiteSpace c); [exact IH | reflexivity].
Qed.

Lemma skipDigits_before_comma a b :
  match skipDigits (a +:+ String "," b) with
  | String d _ => isOrdinalMark d
  | EmptyString => false
  end
  = match skipDigits a with
    | String d _ => isOrdinalMark d
    | EmptyString => false
    end.
Proof.
  induction a as [|c a IH]; ssimpl; [reflexivity|].
  destruct (isDigit c); [exact IH | reflexivity].
Qed.

Lemma followedByOrdinal_before_comma a b :
  followedByOrdinal (a +:+ String "," b) = followedByOrdinal a.
Proof.
  unfold followedByOrdinal.
  induction a as [|c a IH]; ssimpl; [reflexivity|].
  destruct (isWhiteSpace c); [exact IH|].
  now rewrite skipDigits_before_comma.
Qed.

Lemma commaSplits_before_comma a b :
  commaSplits (a +:+ String "," b) = commaSplits a.
Proof.
  unfold commaSplits.
  now rewrite followedByLetter_before_comma, followedByOrdinal_before_comma.
Qed.

Lemma split_nonempty s : split s <> [].
Proof.
  destruct s as [|c r]; simpl; [discriminate|].
  destruct (isComma c && commaSplits r); [discriminate|].
  destruct (split r); discriminate.
Qed.

Lemma consFirst_app c l1 l2 :
  l1 <> [] -> consFirst c (l1 ++ l2)%list = (consFirst c l1 ++ l2)%list.
Proof. destruct l1; [congruence | reflexivity]. Qed.

(** A comma that satisfies the lookahead separates the pieces of the two
    sides. *)
Lemma split_at_comma a b :
  commaSplits b = true ->
  split (a +:+ String "," b) = (split a ++ split b)%list.
Proof.
  intros Hb. induction a as [|c a IH]; ssimpl.
  - now rewrite Hb.
  - rewrite commaSplits_before_comma, IH.
    destruct (isComma c && commaSplits a); [reflexivity|].
    apply consFirst_app, split_nonempty.
Qed.

(** A comma that does not satisfy it stays inside one piece: the last
    piece of the left side, the comma and the first piece of the right
    side are one piece. *)
Lemma split_not_at_comma a b :
  commaSplits b = false ->
  split (a +:+ String "," b)
  = (removelast (split a)
     ++ (List.last (split a) EmptyString
         +:+ String "," (hd EmptyString (split b)))
        :: tl (split b))%list.
Proof.
  intros Hb. induction a as [|c a IH]; ssimpl.
  - rewrite Hb. simpl.
    pose proof (split_nonempty b). destruct (split b); [congruence|reflexivity].
  - rewrite commaSplits_before_comma, IH.
    pose proof (split_nonempty a) as Ha.
    destruct (isComma c && commaSplits a).
    + destruct (split a) as [|h t]; [congruence|]. reflexivity.
    + destruct (split a) as [|h t]; [congruence|].
      destruct t as [|h' t]; reflexivity.
Qed.

End SplitterFacts.

(** C4.  The splitter cuts the name at a comma exactly when the comma is
    followed, after optional spaces, by a letter or by digits ending in
    the ordinal mark; at any other comma, and so at the comma of a
    decimal number, the text on both sides stays in one piece.
    ["Implante,Soroterapia"] and ["Im,3º Consulta"] give two tokens,
    ["Estradiol 12,5Mg"] and ["Tirzepatida 40Mg/1,6Ml"] give one. *)
Theorem splitter_cuts_only_before_names :
  (forall a b, FollowedByLetterOrOrdinal b ->
     split (a +:+ String "," b) = (split a ++ split b)%list) /\
  (forall a b, ~ FollowedByLetterOrOrdinal b ->
     split (a +:+ String "," b)
     = (removelast (split a)
        ++ (List.last (split a) EmptyString
            +:+ String "," (hd EmptyString (split b)))
           :: tl (split b))%list) /\
  (forall b, DecimalPart b -> ~ FollowedByLetterOrOrdinal b) /\
  reportNames (Some "Implante,Soroterapia") = ["Implante"; "Soroterapia"] /\
  reportNames (Some ("Im,3" +:+ ordinalMark +:+ " Consulta"))
  = ["Im"; "3" +:+ ordinalMark +:+ " Consulta"] /\
  reportNames (Some "Estradiol 12,5Mg") = ["Estradiol 12,5Mg"] /\
  reportNames (Some "Tirzepatida 40Mg/1,6Ml") = ["Tirzepatida 40Mg/1,6Ml"].
Proof.
  split; [|split; [|split]].
  - intros a b Hb. apply split_at_comma. now apply commaSplits_iff.
  - intros a b Hb. apply split_not_at_comma.
    destruct (commaSplits b) eqn:E; [|reflexivity].
    exfalso. apply Hb. now apply commaSplits_iff.
  - intros b Hd Hb. apply commaSplits_iff in Hb.
    rewrite (decimal_not_split b Hd) in Hb. discriminate.
  - repeat split; reflexivity.
Qed.

Lemma splitter_cuts_only_before_names_witness :
  split "Implante,Soroterapia" = (split "Implante" ++ split "Soroterapia")%list
  /\ ~ FollowedByLetterOrOrdinal "5Mg".
Proof.
  split.
  - apply (proj1 splitter_cuts_only_before_names "Implante" "Soroterapia").
    now apply commaSplits_iff.
  - apply (proj1 (proj2 (proj2 splitter_cuts_only_before_names)) "5Mg").
    exists "5", "Mg". repeat split. discriminate.
Defined.

(** ** The classifier *)

Section ClassifierFacts.

Lemma toLowerCase_app a b :
  toLowerCase (a +:+ b) = toLowerCase a +:+ toLowerCase b.
Proof. induction a as [|c a IH]; ssimpl; [reflexivity | now rewrite IH]. Qed.

Lemma toLowerCase_split name x y :
  toLowerCase name = x +:+ y ->
  exists n1 n2, name = n1 +:+ n2 /\ toLowerCase n1 = x /\ toLowerCase n2 = y.
Proof.
  revert name. induction x as [|c x IH]; intros name H.
  - exists EmptyString, name. now rewrite append_nil in *.
  - destruct name as [|d name]; [discriminate|].
    rewrite append_cons in H. simpl in H. injection H as Hc H.
    destruct (IH name H) as [n1 [n2 [-> [H1 H2]]]].
    exists (String d n1), n2. rewrite append_cons. simpl.
    now rewrite Hc, H1.
Qed.

Lemma startsWith_app p b : startsWith (p +:+ b) p = true.
Proof.
  induction p as [|c p IH]; ssimpl; [now destruct b|].
  now rewrite Ascii.eqb_refl.
Qed.

Lemma startsWith_inv s p :
  startsWith s p = true -> exists b, s = p +:+ b.
Proof.
  revert s. induction p as [|c p IH]; intros s H.
  - now exists s.
  - destruct s as [|d s]; [discriminate|]. simpl in H.
    apply andb_true_iff in H as [Hc H]. apply Ascii.eqb_eq in Hc as ->.
    destruct (IH s H) as [b ->]. now exists b.
Qed.

Lemma includes_startsWith s p : startsWith s p = true -> includes s p = true.
Proof. intros H. destruct s; cbn [includes]; now rewrite H. Qed.

Lemma includes_app a p b : includes (a +:+ p +:+ b) p = true.
Proof.
  induction a as [|c a IH].
  - rewrite append_nil. apply includes_startsWith, startsWith_app.
  - rewrite append_cons. simpl. rewrite IH. apply orb_true_r.
Qed.

Lemma includes_inv s p :
  includes s p = true -> exists a b, s = a +:+ p +:+ b.
Proof.
  induction s as [|c s IH]; cbn [includes]; intros H.
  - rewrite orb_false_r in H. destruct (startsWith_inv _ _ H) as [b Hb].
    now exists EmptyString, b.
  - apply orb_true_iff in H as [H|H].
    + destruct (startsWith_inv _ _ H) as [b Hb]. now exists EmptyString, b.
    + destruct (IH H) as [a [b ->]]. now exists (String c a), b.
Qed.

(** The test of the classifier's loop is containment, letter case apart. *)
Lemma includes_iff name pattern :
  includes (toLowerCase name) (toLowerCase pattern) = true
  <-> ContainsIgnoringCase name pattern.
Proof.
  split.
  - intros H. destruct (includes_inv _ _ H) as [a [b Hab]].
    destruct (toLowerCase_split _ _ _ Hab) as [n1 [n' [-> [H1 H']]]].
    destruct (toLowerCase_split _ _ _ H') as [v [n2 [-> [Hv H2]]]].
    now exists n1, v, n2.
  - intros [a [v [b [-> Hv]]]].
    rewrite !toLowerCase_app, Hv. apply includes_app.
Qed.

Lemma classify_without_id gm name id :
  NotInCategoryMap gm id -> classifyProcedure gm name id = classifyByName name.
Proof.
  unfold classifyProcedure.
  intros [H | [H | [m [n [-> [-> H]]]]]].
  - destruct id; [|reflexivity]. destruct gm; [|reflexivity]. now rewrite H.
  - subst. now destruct id.
  - rewrite H. now destruct (truthyId (Some n)).
Qed.

Lemma firstPattern_first name pre pattern column post :
  (forall p c, In (p, c) pre -> ~ ContainsIgnoringCase name p) ->
  ContainsIgnoringCase name pattern ->
  firstPattern (toLowerCase name) (pre ++ (pattern, column) :: post)
  = Some column.
Proof.
  intros Hpre Hp. induction pre as [|[p c] pre IH]; simpl.
  - apply includes_iff in Hp. now rewrite Hp.
  - destruct (includes (toLowerCase name) (toLowerCase p)) eqn:E.
    + exfalso. apply (Hpre p c); [now left | now apply includes_iff].
    + apply IH. intros p' c' Hin. apply (Hpre p' c'). now right.
Qed.

Lemma firstPattern_none name table :
  (forall p c, In (p, c) table -> ~ ContainsIgnoringCase name p) ->
  firstPattern (toLowerCase name) table = None.
Proof.
  intros H. induction table as [|[p c] table IH]; simpl; [reflexivity|].
  destruct (includes (toLowerCase name) (toLowerCase p)) eqn:E.
  - exfalso. apply (H p c); [now left | now apply includes_iff].
  - apply IH. intros p' c' Hin. apply (H p' c'). now right.
Qed.

End ClassifierFacts.

(** C3.  When the lookup by id gives nothing, the column of the first
    pattern of the table that the name contains (letter case apart) is
    returned with provenance ['nome']; a name containing "nutricional" goes
    to NUTRIS whatever else it contains ("Consulta Nutricional" does, though
    "consulta" is a later pattern); a name containing no pattern goes to
    EXTRA with provenance ['fallback']. *)
Theorem first_name_pattern_wins :
  (forall gm name id pre pattern column post,
     NotInCategoryMap gm id ->
     PROCEDURE_MAPPING = (pre ++ (pattern, column) :: post)%list ->
     (forall p c, In (p, c) pre -> ~ ContainsIgnoringCase name p) ->
     ContainsIgnoringCase name pattern ->
     classifyProcedure gm name id
     = {| Classification.column := Some column;
          Classification.classificadoPor := "nome" |}) /\
  (forall gm name id,
     NotInCategoryMap gm id ->
     ContainsIgnoringCase name "nutricional" ->
     classifyProcedure gm name id
     = {| Classification.column := Some COLUMNS.NUTRIS;
          Classification.classificadoPor := "nome" |}) /\
  (ContainsIgnoringCase "Consulta Nutricional" "consulta" /\
   classifyProcedure None "Consulta Nutricional" None
   = {| Classification.column := Some COLUMNS.NUTRIS;
        Classification.classificadoPor := "nome" |}) /\
  (forall gm name id,
     NotInCategoryMap gm id ->
     (forall p c, In (p, c) PROCEDURE_MAPPING -> ~ ContainsIgnoringCase name p) ->
     classifyProcedure gm name id
     = {| Classification.column := Some COLUMNS.EXTRA;
          Classification.classificadoPor := "fallback" |}).
Proof.
  split; [|split; [|split]].
  - intros gm name id pre pattern column post Hid Htable Hpre Hp.
    rewrite (classify_without_id _ _ _ Hid). unfold classifyByName.
    rewrite Htable. now rewrite (firstPattern_first _ _ _ _ _ Hpre Hp).
  - intros gm name id Hid Hp.
    rewrite (classify_without_id _ _ _ Hid). unfold classifyByName.
    change PROCEDURE_MAPPING
      with ([] ++ ("nutricional", COLUMNS.NUTRIS) :: tl PROCEDURE_MAPPING)%list.
    rewrite (firstPattern_first name [] _ _ _); [reflexivity| |exact Hp].
    intros p c [].
  - split; [|reflexivity].
    apply includes_iff. reflexivity.
  - intros gm name id Hid Hnone.
    rewrite (classify_without_id _ _ _ Hid). unfold classifyByName.
    now rewrite (firstPattern_none _ _ Hnone).
Qed.

Lemma first_name_pattern_wins_witness :
  classifyProcedure None "Consulta Online" None
  = {| Classification.column := Some COLUMNS.ONLINE;
       Classification.classificadoPor := "nome" |}.
Proof.
  apply (proj1 first_name_pattern_wins None "Consulta Online" None
           (firstn 5 PROCEDURE_MAPPING) "online" COLUMNS.ONLINE
           (skipn 6 PROCEDURE_MAPPING)).
  - now left.
  - reflexivity.
  - intros p c Hin Hc. apply includes_iff in Hc.
    cbn [firstn PROCEDURE_MAPPING In] in Hin.
    repeat (destruct Hin as [Hin|Hin];
            [injection Hin as <- _; vm_compute in Hc; discriminate|]).
    destruct Hin.
  - apply includes_iff. reflexivity.
Defined.

(** *** The category map *)

Section CategoryMapFacts.

Lemma overrides_known id column :
  overrideOf id OVERRIDES = Some (Some column) -> In column knownKeys.
Proof.
  unfold OVERRIDES. simpl.
  repeat match goal with
         | |- context [if ?b then _ else _] => destruct b
         end;
    intros H; try discriminate; injection H as <-; simpl; tauto.
Qed.

Lemma groupColumn_known id column :
  GROUP_TO_COLUMN id = Some column -> In column knownKeys.
Proof.
  unfold GROUP_TO_COLUMN.
  repeat match goal with
         | |- context [if ?b then _ else _] => destruct b
         end;
    intros H; try discriminate; injection H as <-; simpl; tauto.
Qed.

Lemma KeysOnly_insert mapping id key :
  KeysOnly mapping -> In key knownKeys ->
  KeysOnly (<[id := Some key]> mapping).
Proof.
  intros Hm Hk id' v. rewrite lookup_insert.
  destruct (decide (id = id')).
  - intros [= <-]. now exists key.
  - apply Hm.
Qed.

Lemma mapProcedure_keys groupId mapping procId :
  KeysOnly mapping ->
  KeysOnly (mapProcedure (GROUP_TO_COLUMN groupId) mapping procId).
Proof.
  intros Hm. unfold mapProcedure.
  destruct (overrideOf procId OVERRIDES) as [[column|]|] eqn:E.
  - destruct (isEmpty column); [exact Hm|].
    apply KeysOnly_insert; [exact Hm | now apply (overrides_known procId)].
  - exact Hm.
  - destruct (GROUP_TO_COLUMN groupId) as [col|] eqn:G; [|exact Hm].
    apply KeysOnly_insert; [exact Hm | now apply (groupColumn_known groupId)].
Qed.

Lemma mapGroup_keys mapping group :
  KeysOnly mapping -> KeysOnly (mapGroup mapping group).
Proof.
  unfold mapGroup. generalize (ProcedureGroup.procedimentos group) as procs.
  intros procs. revert mapping.
  induction procs as [|p procs IH]; intros mapping Hm; simpl; [exact Hm|].
  apply IH. now apply mapProcedure_keys.
Qed.

Lemma fetchGroupMapping_keys response : KeysOnly (fetchGroupMapping response).
Proof.
  assert (H0 : KeysOnly ∅) by (intros id v; now rewrite lookup_empty).
  destruct response as [groups|]; simpl; [|exact H0].
  revert H0. generalize (∅ : gmap Z (option string)) as mapping.
  induction groups as [|g groups IH]; intros mapping Hm; simpl; [exact Hm|].
  apply IH. now apply mapGroup_keys.
Qed.

(** A procedure whose override is [null] is left out of the map. *)
Lemma mapProcedure_discarded groupColumn mapping procId id :
  overrideOf id OVERRIDES = Some None ->
  mapping !! id = None ->
  mapProcedure groupColumn mapping procId !! id = None.
Proof.
  intros Hid Hm. unfold mapProcedure.
  destruct (decide (procId = id)) as [->|Hne].
  - now rewrite Hid.
  - destruct (overrideOf procId OVERRIDES) as [[column|]|].
    + destruct (isEmpty column); [exact Hm|]. now rewrite lookup_insert_ne.
    + exact Hm.
    + destruct groupColumn; [|exact Hm]. now rewrite lookup_insert_ne.
Qed.

Lemma mapGroup_discarded mapping group id :
  overrideOf id OVERRIDES = Some None ->
  mapping !! id = None -> mapGroup mapping group !! id = None.
Proof.
  intros Hid. unfold mapGroup.
  generalize (ProcedureGroup.procedimentos group) as procs.
  intros procs. revert mapping.
  induction procs as [|p procs IH]; intros mapping Hm; simpl; [exact Hm|].
  apply IH. now apply mapProcedure_discarded.
Qed.

Lemma fetchGroupMapping_discarded response id :
  overrideOf id OVERRIDES = Some None ->
  fetchGroupMapping response !! id = None.
Proof.
  intros Hid.
  destruct response as [groups|]; simpl; [|apply lookup_empty].
  assert (H0 : (∅ : gmap Z (option string)) !! id = None)
    by apply lookup_empty.
  revert H0. generalize (∅ : gmap Z (option string)) as mapping.
  induction groups as [|g groups IH]; intros mapping Hm; simpl; [exact Hm|].
  apply IH. now apply mapGroup_discarded.
Qed.

(** With an entry in the map, the classification is the entry's, by id. *)
Lemma classify_by_id mapping name id columnById :
  id <> 0 -> mapping !! id = Some columnById ->
  classifyProcedure (Some mapping) name (Some id)
  = {| Classification.column := columnOfKey columnById;
       Classification.classificadoPor := "id" |}.
Proof.
  intros Hid Hm. unfold classifyProcedure, truthyId.
  destruct (Z.eqb_spec id 0) as [->|_]; [congruence|]. simpl.
  now rewrite Hm.
Qed.

Lemma firstPattern_In name table column :
  firstPattern name table = Some column ->
  exists pattern, In (pattern, column) table.
Proof.
  induction table as [|[p c] table IH]; simpl; [discriminate|].
  destruct (includes name (toLowerCase p)).
  - intros [= <-]. exists p. now left.
  - intros H. destruct (IH H) as [p' Hp']. exists p'. now right.
Qed.

Lemma pattern_letters pattern column :
  In (pattern, column) PROCEDURE_MAPPING -> In column procedureLetters.
Proof.
  intros H. unfold PROCEDURE_MAPPING in H. cbn [In] in H.
  repeat (destruct H as [H|H]; [injection H as _ <-; simpl; tauto|]).
  destruct H.
Qed.

Lemma key_letters key :
  In key knownKeys -> In (default key (COLUMNS.get key)) procedureLetters.
Proof.
  intros H. unfold knownKeys in H. cbn [In] in H.
  repeat (destruct H as [H|H]; [subst key; vm_compute; tauto|]).
  destruct H.
Qed.

Lemma classifyByName_letter name :
  exists column,
    Classification.column (classifyByName name) = Some column /\
    In column procedureLetters.
Proof.
  unfold classifyByName.
  destruct (firstPattern (toLowerCase name) PROCEDURE_MAPPING) as [c|] eqn:E.
  - exists c. split; [reflexivity|].
    destruct (firstPattern_In _ _ _ E) as [p Hp]. now apply (pattern_letters p).
  - exists COLUMNS.EXTRA. split; [reflexivity|]. simpl. tauto.
Qed.

(** With a loaded map the classifier always names a procedure column. *)
Lemma classify_letter gm name id :
  LoadedMapping gm ->
  exists column,
    Classification.column (classifyProcedure gm name id) = Some column /\
    In column procedureLetters.
Proof.
  intros Hgm. unfold classifyProcedure.
  destruct id as [n|]; [|apply classifyByName_letter].
  destruct Hgm as [-> | [response ->]]; [apply classifyByName_letter|].
  destruct (truthyId (Some n)); [|apply classifyByName_letter].
  destruct (fetchGroupMapping response !! n) as [v|] eqn:E;
    [|apply classifyByName_letter].
  destruct (fetchGroupMapping_keys response n v E) as [key [-> Hk]].
  exists (default key (COLUMNS.get key)). split; [reflexivity|].
  now apply key_letters.
Qed.

End CategoryMapFacts.

(** C2.  A procedure whose override is the discard sentinel (procedure
    20, the inbound inquiry) never enters the category map, whatever the
    API answers; the classifier therefore finds no entry for it and
    classifies it by its name or by the fallback, and for the name
    "Conversa" returns EXTRA with provenance ['fallback'] where a discard
    with provenance ['id'] is meant. *)
Theorem discard_override_is_never_mapped :
  overrideOf 20 OVERRIDES = Some None /\
  (forall response, fetchGroupMapping response !! 20 = None) /\
  (forall response name,
     classifyProcedure (Some (fetchGroupMapping response)) name (Some 20)
     = classifyByName name) /\
  classifyProcedure
    (Some (fetchGroupMapping
             (Some [ {| ProcedureGroup.id := 3;
                        ProcedureGroup.procedimentos := [20] |} ])))
    "Conversa" (Some 20)
  = {| Classification.column := Some COLUMNS.EXTRA;
       Classification.classificadoPor := "fallback" |}.
Proof.
  assert (H : forall response, fetchGroupMapping response !! 20 = None)
    by (intros response; now apply fetchGroupMapping_discarded).
  split; [reflexivity|]. split; [exact H|]. split.
  - intros response name. apply classify_without_id.
    right. right. now exists (fetchGroupMapping response), 20.
  - rewrite classify_without_id; [reflexivity|].
    right. right. eexists _, 20. split; [reflexivity|]. split; [reflexivity|].
    apply H.
Qed.

(** ** The proposal matcher *)

Section MatcherFacts.

Variable transaction : Transaction.t.

Lemma byDistance_le a b :
  Qle_bool (byDistance transaction a b) 0 = true
  <-> (distance transaction a <= distance transaction b)%Q.
Proof. unfold byDistance. rewrite Qle_bool_iff. split; intros H; lra. Qed.

(** The head of the sorted candidates is one of them and no candidate is
    nearer to the transaction's value. *)
Lemma sort_head (l : list Proposal.t) :
  match head (sort (byDistance transaction) l) with
  | None => l = []
  | Some m =>
      In m l /\
      forall c, In c l -> (distance transaction m <= distance transaction c)%Q
  end.
Proof.
  induction l as [|x l IH]; simpl; [reflexivity|].
  destruct (sort (byDistance transaction) l) as [|m s]; simpl in *.
  - subst l. split; [now left|]. intros c [<-|[]]. lra.
  - destruct IH as [Hm Hmin].
    destruct (Qle_bool (byDistance transaction x m) 0) eqn:E; simpl.
    + apply byDistance_le in E. split; [now left|].
      intros c [<-|Hc]; [lra|]. specialize (Hmin c Hc). lra.
    + assert (Hlt : (distance transaction m < distance transaction x)%Q).
      { apply Qnot_le_lt. intros Hle. apply byDistance_le in Hle. congruence. }
      split; [now right|].
      intros c [<-|Hc]; [lra|]. now apply Hmin.
Qed.

Lemma matchSingle_spec procedimentoID proposals :
  match matchSingle transaction procedimentoID proposals with
  | None => candidatesFor procedimentoID proposals = []
  | Some m =>
      In m (candidatesFor procedimentoID proposals) /\
      forall c, In c (candidatesFor procedimentoID proposals) ->
                (distance transaction m <= distance transaction c)%Q
  end.
Proof.
  unfold matchSingle.
  destruct (candidatesFor procedimentoID proposals) as [|c1 [|c2 r]] eqn:E.
  - reflexivity.
  - split; [now left|]. intros c [<-|[]]. lra.
  - pose proof (sort_head (c1 :: c2 :: r)) as H.
    destruct (head (sort (byDistance transaction) (c1 :: c2 :: r)));
      [exact H | discriminate].
Qed.

End MatcherFacts.

Section OverlapFacts.

Variable invoiceProcIds : gset Z.

Lemma bestStep_inv seen best proposal :
  BestOf invoiceProcIds seen best ->
  BestOf invoiceProcIds (seen ++ [proposal])%list (bestStep invoiceProcIds best proposal).
Proof.
  intros [Hle Hbest]. unfold bestStep.
  destruct (Nat.ltb_spec (snd best) (matchCount invoiceProcIds proposal))
    as [Hlt|Hge]; split; simpl.
  - intros q Hq. apply in_app_or in Hq as [Hq|[<-|[]]]; [|lia].
    specialize (Hle q Hq). lia.
  - split; [apply in_or_app; right; now left|]. split; [reflexivity | lia].
  - intros q Hq. apply in_app_or in Hq as [Hq|[<-|[]]]; [|lia].
    now apply Hle.
  - destruct (fst best) as [p|]; [|exact Hbest].
    destruct Hbest as [Hp Hrest]. split; [|exact Hrest].
    apply in_or_app. now left.
Qed.

Lemma bestLoop_inv rest seen best :
  BestOf invoiceProcIds seen best ->
  BestOf invoiceProcIds (seen ++ rest)%list (List.fold_left (bestStep invoiceProcIds) rest best).
Proof.
  revert seen best. induction rest as [|p rest IH]; intros seen best H; simpl.
  - now rewrite app_nil_r.
  - replace (seen ++ p :: rest)%list with ((seen ++ [p]) ++ rest)%list
      by (now rewrite <- app_assoc).
    apply IH. now apply bestStep_inv.
Qed.

Lemma bestLoop_spec proposals :
  BestOf invoiceProcIds proposals
    (List.fold_left (bestStep invoiceProcIds) proposals (None, 0%nat)).
Proof.
  apply (bestLoop_inv proposals [] (None, 0%nat)).
  split; [intros q []|reflexivity].
Qed.

End OverlapFacts.

(** A matched proposal is one of the proposals offered. *)
Lemma findMatchingProposal_In api transaction proposals p :
  findMatchingProposal api transaction proposals = Some p -> In p proposals.
Proof.
  unfold findMatchingProposal.
  destruct proposals as [|p0 ps]; [discriminate|].
  set (proposals := p0 :: ps).
  destruct (negb (isMultiProcedure transaction)
            && truthyId (Transaction.ProcedimentoID transaction)).
  - destruct (Transaction.ProcedimentoID transaction) as [pid|];
      [|discriminate].
    intros H. pose proof (matchSingle_spec transaction pid proposals) as Hs.
    rewrite H in Hs. destruct Hs as [Hin _].
    unfold candidatesFor in Hin. now apply filter_In in Hin.
  - destruct (isMultiProcedure transaction
              && truthyId (Transaction.NumeroInvoice transaction));
      [|discriminate].
    destruct (Transaction.NumeroInvoice transaction) as [inv|];
      [|discriminate].
    unfold matchMulti.
    destruct (Api.invoiceItems api inv (Transaction.Data transaction))
      as [|i items]; [discriminate|].
    pose proof (bestLoop_spec (invoiceProcIdsOf (i :: items)) proposals)
      as [_ Hb].
    destruct (List.fold_left _ proposals (None, 0%nat)) as [[b|] n];
      [|discriminate].
    simpl in Hb. destruct (2 <=? n)%nat; [|discriminate].
    intros [= <-]. apply Hb.
Qed.

(** C6.  For a transaction of one procedure that has a procedure id,
    the matcher returns null when no offered proposal has a line with
    that id, and otherwise one of the proposals that have one, such that
    no other of them has a total nearer to the transaction's value.
    With totals 300 and 320 and a value of 305 it is the proposal of
    300, in whichever order the two are offered. *)
Theorem single_procedure_match_is_nearest :
  (forall api transaction procedimentoID proposals,
     isMultiProcedure transaction = false ->
     Transaction.ProcedimentoID transaction = Some procedimentoID ->
     procedimentoID <> 0 ->
     (candidatesFor procedimentoID proposals = [] ->
      findMatchingProposal api transaction proposals = None) /\
     (candidatesFor procedimentoID proposals <> [] ->
      exists m,
        findMatchingProposal api transaction proposals = Some m /\
        In m proposals /\ hasProcedure procedimentoID m = true /\
        forall c, In c proposals -> hasProcedure procedimentoID c = true ->
                  (distance transaction m <= distance transaction c)%Q)) /\
  findMatchingProposal Scenario.silentApi Scenario.transactionB
    [Scenario.proposal300; Scenario.proposal320]
  = Some Scenario.proposal300 /\
  findMatchingProposal Scenario.silentApi Scenario.transactionB
    [Scenario.proposal320; Scenario.proposal300]
  = Some Scenario.proposal300.
Proof.
  split; [|split; reflexivity].
  intros api transaction pid proposals Hmulti Hpid Hne.
  assert (Hfind : findMatchingProposal api transaction proposals
                  = matchSingle transaction pid proposals).
  { unfold findMatchingProposal. rewrite Hmulti, Hpid. unfold truthyId.
    destruct (Z.eqb_spec pid 0) as [->|_]; [congruence|]. simpl.
    destruct proposals; reflexivity. }
  rewrite Hfind.
  pose proof (matchSingle_spec transaction pid proposals) as Hs.
  split.
  - intros Hnil. destruct (matchSingle transaction pid proposals) as [m|];
      [|reflexivity].
    destruct Hs as [Hin _]. rewrite Hnil in Hin. destruct Hin.
  - intros Hsome. destruct (matchSingle transaction pid proposals) as [m|];
      [|congruence].
    destruct Hs as [Hin Hmin]. exists m. split; [reflexivity|].
    unfold candidatesFor in *. apply filter_In in Hin as [Hin Hhas].
    split; [exact Hin|]. split; [exact Hhas|].
    intros c Hc Hch. apply Hmin. now apply filter_In.
Qed.

Lemma single_procedure_match_is_nearest_witness :
  candidatesFor 58 [Scenario.proposal320; Scenario.proposal300] <> [] /\
  exists m,
    findMatchingProposal Scenario.silentApi Scenario.transactionB
      [Scenario.proposal320; Scenario.proposal300] = Some m /\
    In m [Scenario.proposal320; Scenario.proposal300] /\
    hasProcedure 58 m = true /\
    forall c, In c [Scenario.proposal320; Scenario.proposal300] ->
              hasProcedure 58 c = true ->
              (distance Scenario.transactionB m
               <= distance Scenario.transactionB c)%Q.
Proof.
  assert (H : candidatesFor 58 [Scenario.proposal320; Scenario.proposal300]
              <> []) by discriminate.
  split; [exact H|].
  apply (proj1 single_procedure_match_is_nearest Scenario.silentApi
           Scenario.transactionB 58
           [Scenario.proposal320; Scenario.proposal300]);
    [reflexivity | reflexivity | discriminate | exact H].
Defined.

(** C7.  For a transaction of several procedures the matcher returns a
    proposal only if the transaction has an invoice id, the invoice has
    items, and the proposal is offered, shares at least two procedure ids
    with the invoice and no offered proposal shares more; without an
    invoice id, without invoice items, or when every offered proposal
    shares fewer than two, it returns null; and when some offered
    proposal shares two or more, it does return one. *)
Theorem multi_procedure_match_needs_two_shared
    (api : Api.t) (transaction : Transaction.t) (proposals : list Proposal.t)
    (items : list InvoiceItem.t) :
  isMultiProcedure transaction = true ->
  items = match Transaction.NumeroInvoice transaction with
          | Some invoice =>
              Api.invoiceItems api invoice (Transaction.Data transaction)
          | None => []
          end ->
  (forall p,
     findMatchingProposal api transaction proposals = Some p ->
     truthyId (Transaction.NumeroInvoice transaction) = true /\
     items <> [] /\ In p proposals /\
     (2 <= matchCount (invoiceProcIdsOf items) p)%nat /\
     forall q, In q proposals ->
               (matchCount (invoiceProcIdsOf items) q
                <= matchCount (invoiceProcIdsOf items) p)%nat) /\
  (truthyId (Transaction.NumeroInvoice transaction) = false \/
   items = [] \/
   (forall q, In q proposals ->
              (matchCount (invoiceProcIdsOf items) q < 2)%nat) ->
   findMatchingProposal api transaction proposals = None) /\
  (truthyId (Transaction.NumeroInvoice transaction) = true ->
   items <> [] ->
   (exists q, In q proposals /\
              (2 <= matchCount (invoiceProcIdsOf items) q)%nat) ->
   exists p, findMatchingProposal api transaction proposals = Some p).
Proof.
  intros Hmulti Hitems.
  assert (Hfind :
    findMatchingProposal api transaction proposals
    = if truthyId (Transaction.NumeroInvoice transaction)
      then matchMulti items proposals else None).
  { unfold findMatchingProposal. rewrite Hmulti. simpl. subst items.
    destruct proposals as [|p0 ps].
    - destruct (truthyId _); [|reflexivity]. unfold matchMulti.
      destruct (Transaction.NumeroInvoice transaction); [|reflexivity].
      now destruct (Api.invoiceItems _ _ _).
    - destruct (Transaction.NumeroInvoice transaction); reflexivity. }
  rewrite Hfind. clear Hfind Hitems Hmulti.
  pose proof (bestLoop_spec (invoiceProcIdsOf items) proposals) as [Hle Hb].
  unfold matchMulti.
  destruct (List.fold_left _ proposals (None, 0%nat)) as [b n].
  simpl in Hle, Hb.
  split; [|split].
  - intros p Hp.
    destruct (truthyId (Transaction.NumeroInvoice transaction));
      [|discriminate].
    split; [reflexivity|].
    destruct items as [|i items]; [discriminate|].
    split; [discriminate|].
    destruct b as [b|]; [|discriminate].
    destruct (Nat.leb_spec 2 n); [|discriminate].
    injection Hp as <-. destruct Hb as [Hin [Hn _]].
    split; [exact Hin|]. rewrite Hn. split; [assumption|exact Hle].
  - intros [H|[H|H]].
    + now rewrite H.
    + subst items. now destruct (truthyId _).
    + destruct (truthyId _); [|reflexivity].
      destruct items; [reflexivity|].
      destruct b as [b|]; [|reflexivity].
      destruct Hb as [Hin [Hn _]]. specialize (H b Hin).
      destruct (Nat.leb_spec 2 n); [lia|reflexivity].
  - intros Ht Hne [q [Hq Hq2]]. rewrite Ht.
    destruct items as [|i items]; [congruence|].
    specialize (Hle q Hq).
    destruct b as [b|]; [|lia].
    destruct (Nat.leb_spec 2 n); [now exists b | lia].
Qed.

Lemma multi_procedure_match_needs_two_shared_witness :
  isMultiProcedure Scenario.transactionMulti = true /\
  findMatchingProposal Scenario.invoiceApi Scenario.transactionMulti
    [Scenario.proposalOne] = None /\
  exists p,
    findMatchingProposal Scenario.invoiceApi Scenario.transactionMulti
      [Scenario.proposalOne; Scenario.proposalBoth] = Some p.
Proof.
  split; [reflexivity|]. split.
  - apply (multi_procedure_match_needs_two_shared Scenario.invoiceApi
             Scenario.transactionMulti [Scenario.proposalOne]
             (Api.invoiceItems Scenario.invoiceApi 900
                (Scenario.date 5 2 2026)) eq_refl eq_refl).
    right. right. intros q [<-|[]]. vm_compute. lia.
  - apply (multi_procedure_match_needs_two_shared Scenario.invoiceApi
             Scenario.transactionMulti
             [Scenario.proposalOne; Scenario.proposalBoth]
             (Api.invoiceItems Scenario.invoiceApi 900
                (Scenario.date 5 2 2026)) eq_refl eq_refl);
      [reflexivity | discriminate |].
    exists Scenario.proposalBoth. split; [right; now left|].
    vm_compute. lia.
Defined.

(** ** The enricher *)

Section EnricherFacts.

Lemma fetchPatientProposals_used api pacienteId date st proposals st' :
  fetchPatientProposals api pacienteId date st = (proposals, st') ->
  usedProposalIds st' = usedProposalIds st.
Proof.
  unfold fetchPatientProposals.
  destruct (proposalsCache st !! (pacienteId, date)); cbv zeta;
    intros [= _ <-]; reflexivity.
Qed.

Lemma fetchProcedureWithCache_used api procedureId st r st' :
  fetchProcedureWithCache api procedureId st = (r, st') ->
  usedProposalIds st' = usedProposalIds st.
Proof.
  unfold fetchProcedureWithCache.
  destruct (proceduresCache st !! procedureId);
    [now intros [= _ <-]|].
  destruct (Api.procedure api procedureId); now intros [= _ <-].
Qed.

Lemma invoiceItem_used api item st r st' :
  invoiceItem api item st = (r, st') ->
  usedProposalIds st' = usedProposalIds st.
Proof.
  unfold invoiceItem, bind, ret.
  destruct (fetchProcedureWithCache api _ st) as [proc st1] eqn:E.
  intros [= _ <-]. now apply fetchProcedureWithCache_used in E.
Qed.

Lemma invoiceItems_used api items st detailed st' :
  invoiceItems api items st = (detailed, st') ->
  usedProposalIds st' = usedProposalIds st.
Proof.
  revert st detailed st'.
  induction items as [|item items IH]; intros st detailed st'; simpl.
  - unfold ret. now intros [= _ <-].
  - unfold bind, ret.
    destruct (invoiceItem api item st) as [d st1] eqn:E1.
    destruct (invoiceItems api items st1) as [more st2] eqn:E2.
    intros [= _ <-]. apply invoiceItem_used in E1. apply IH in E2.
    congruence.
Qed.

(** The fallback takes nothing from a proposal and marks none used. *)
Lemma enrichFromReport_spec api transaction st e st' :
  enrichFromReport api transaction st = (e, st') ->
  Enriched.proposalId e = None /\ Enriched.paymentOnly e = false /\
  In (Enriched.fonteItens e) ["report-single"; "report-distributed"; "invoice"]
  /\ usedProposalIds st' = usedProposalIds st.
Proof.
  unfold enrichFromReport.
  destruct (length (reportNames _) <=? 1)%nat.
  { intros [= <- <-]. simpl. tauto. }
  destruct (Transaction.NumeroInvoice transaction) as [inv|];
    [|intros [= <- <-]; simpl; tauto].
  destruct (truthyId (Some inv)); [|intros [= <- <-]; simpl; tauto].
  destruct (Api.invoiceItems api inv (Transaction.Data transaction))
    as [|i items]; [intros [= <- <-]; simpl; tauto|].
  unfold bind, ret.
  destruct (invoiceItems api (i :: items) st) as [detailed st1] eqn:E.
  intros [= <- <-]. simpl. apply invoiceItems_used in E. tauto.
Qed.

(** The proposal path: a matched proposal was not used before and is
    marked used; without a match nothing is marked. *)
Lemma enrichFromProposal_spec api transaction st r st' :
  enrichFromProposal api transaction st = (r, st') ->
  match r with
  | None => usedProposalIds st' = usedProposalIds st
  | Some e =>
      exists id,
        Enriched.proposalId e = Some id /\
        Enriched.fonteItens e = "proposal" /\
        Enriched.paymentOnly e = false /\
        (id ∉ usedProposalIds st) /\
        usedProposalIds st' = {[id]} ∪ usedProposalIds st
  end.
Proof.
  unfold enrichFromProposal.
  destruct (Transaction.PacienteID transaction) as [pid|];
    [|now intros [= <- <-]].
  destruct (truthyId (Some pid)); [|now intros [= <- <-]].
  unfold bind.
  destruct (fetchPatientProposals api pid (Transaction.Data transaction) st)
    as [proposals st1] eqn:E.
  apply fetchPatientProposals_used in E.
  destruct (findMatchingProposal api transaction _) as [matched|] eqn:F;
    [|intros [= <- <-]; exact E].
  destruct (Proposal.procedimentos matched) eqn:P;
    [intros [= <- <-]; exact E|].
  intros [= <- <-]. exists (Proposal.proposal_id matched).
  apply findMatchingProposal_In in F. apply filter_In in F as [_ F].
  apply negb_true_iff, bool_decide_eq_false in F.
  simpl. rewrite <- E. repeat split; try reflexivity. exact F.
Qed.

Lemma enrichNormally_spec api transaction st e st' :
  enrichNormally api transaction st = (e, st') ->
  Enriched.paymentOnly e = false /\
  In (Enriched.fonteItens e) itemSources /\
  ((Enriched.proposalId e = None /\ Enriched.fonteItens e <> "proposal" /\
    usedProposalIds st' = usedProposalIds st) \/
   (exists id,
      Enriched.proposalId e = Some id /\ Enriched.fonteItens e = "proposal" /\
      (id ∉ usedProposalIds st) /\
      usedProposalIds st' = {[id]} ∪ usedProposalIds st)).
Proof.
  unfold enrichNormally, bind.
  destruct (enrichFromProposal api transaction st) as [r st1] eqn:E.
  apply enrichFromProposal_spec in E. destruct r as [e1|].
  - intros [= <- <-]. destruct E as [id [Hid [Hsrc [Hpay [Hnew Hused]]]]].
    split; [exact Hpay|]. split; [rewrite Hsrc; now left|].
    right. now exists id.
  - intros H. apply enrichFromReport_spec in H as [Hid [Hpay [Hsrc Hused]]].
    split; [exact Hpay|]. split; [now right|].
    left. split; [exact Hid|]. split; [|congruence].
    intros Heq. rewrite Heq in Hsrc. simpl in Hsrc.
    destruct Hsrc as [H|[H|[H|[]]]]; discriminate.
Qed.

Lemma enrich_spec api transaction st e st' :
  enrichTransactionWithItems api transaction st = (e, st') ->
  (Enriched.proposalId e = None /\ Enriched.fonteItens e <> "proposal" /\
   usedProposalIds st' = usedProposalIds st) \/
  (exists id,
     Enriched.proposalId e = Some id /\ Enriched.fonteItens e = "proposal" /\
     (id ∉ usedProposalIds st) /\
     usedProposalIds st' = {[id]} ∪ usedProposalIds st).
Proof.
  unfold enrichTransactionWithItems.
  destruct (isPaymentOnly api transaction).
  - intros [= <- <-]. left. simpl. repeat split. discriminate.
  - intros H. now apply enrichNormally_spec in H.
Qed.

End EnricherFacts.

(** The day count against whole numbers of days. *)
Lemma days_lt (n z : Z) :
  (inject_Z n < Qabs (inject_Z z) / inject_Z msPerDay)%Q
  <-> n * msPerDay < Z.abs z.
Proof.
  change (Qabs (inject_Z z)) with (inject_Z (Z.abs z)).
  unfold Qlt, Qdiv, Qmult, Qinv, inject_Z, msPerDay. simpl. lia.
Qed.

Lemma days_le (n z : Z) :
  (Qabs (inject_Z z) / inject_Z msPerDay <= inject_Z n)%Q
  <-> Z.abs z <= n * msPerDay.
Proof.
  change (Qabs (inject_Z z)) with (inject_Z (Z.abs z)).
  unfold Qle, Qdiv, Qmult, Qinv, inject_Z, msPerDay. simpl. lia.
Qed.

Lemma days_eq (n z : Z) :
  Z.abs z = n * msPerDay ->
  (Qabs (inject_Z z) / inject_Z msPerDay == inject_Z n)%Q.
Proof.
  intros H. change (Qabs (inject_Z z)) with (inject_Z (Z.abs z)).
  rewrite H. unfold Qeq, Qdiv, Qmult, Qinv, inject_Z, msPerDay. simpl. lia.
Qed.

Lemma moreThan30_spec days :
  moreThan30 (Some days) = true <-> (30 < days)%Q.
Proof.
  unfold moreThan30. rewrite negb_true_iff. split.
  - intros H. apply Qnot_le_lt. intros Hle.
    apply Qle_bool_iff in Hle. congruence.
  - intros H. destruct (Qle_bool days 30) eqn:E; [|reflexivity].
    apply Qle_bool_iff in E. exfalso. apply (Qlt_not_le _ _ H E).
Qed.

(** What [daysDiff] is made of. *)
Lemma daysDiff_Some api a b days :
  daysDiff api a b = Some days ->
  exists ta tb,
    getTime api a = Some ta /\ getTime api b = Some tb /\
    ta = msPerDay * FeegowDate.jsDay a - offsetAt api a /\
    tb = msPerDay * FeegowDate.jsDay b - offsetAt api b /\
    days = (Qabs (inject_Z (tb - ta)) / inject_Z msPerDay)%Q.
Proof.
  unfold daysDiff.
  destruct (getTime api a) as [ta|] eqn:Ea; [|discriminate].
  destruct (getTime api b) as [tb|] eqn:Eb; [|discriminate].
  intros [= <-]. exists ta, tb. repeat split.
  - unfold getTime in Ea.
    destruct (Z.abs _ <=? maxTime); [|discriminate].
    now injection Ea as <-.
  - unfold getTime in Eb.
    destruct (Z.abs _ <=? maxTime); [|discriminate].
    now injection Eb as <-.
Qed.

(** C5.  For a transaction with an invoice id whose proposal date the
    platform gives, the days between that date and the transaction's
    date are the time from one local midnight to the other, in units of
    24 hours.  More than 30 of them end the enrichment at once, with
    [paymentOnly] set, no item and the source ['payment-only'], and
    nothing else changed; with 30 or fewer, or with a date out of the
    range of [Date], the enrichment is what the proposal, report and
    invoice paths make of the transaction, and ends in one of their four
    sources without [paymentOnly].  When the zone has the same offset on
    both dates the days are the calendar days between them; when the
    offsets differ by less than a day, more than 30 calendar days are
    always more than 30 days and fewer than 30 never, and a transaction
    on the 30th calendar day after the proposal is more than 30 days
    after it exactly when the offset of the zone has gone down in
    between (the clocks were set back). *)
Theorem payment_only_beyond_thirty_days
    (api : Api.t) (transaction : Transaction.t) (invoice : Z)
    (proposalDate : FeegowDate.t) (st : Store) :
  Transaction.NumeroInvoice transaction = Some invoice ->
  invoice <> 0 ->
  Api.invoiceProposalDate api invoice = Some proposalDate ->
  let days := daysDiff api proposalDate (Transaction.Data transaction) in
  let calendar := calendarDays proposalDate (Transaction.Data transaction) in
  let proceeds :=
    enrichTransactionWithItems api transaction st
    = enrichNormally api transaction st /\
    Enriched.paymentOnly (fst (enrichTransactionWithItems api transaction st))
    = false /\
    In (Enriched.fonteItens
          (fst (enrichTransactionWithItems api transaction st)))
       itemSources in
  (forall d,
     days = Some d -> (30 < d)%Q ->
     enrichTransactionWithItems api transaction st
     = ({| Enriched.transaction := transaction;
           Enriched.paymentOnly := true;
           Enriched.fonteItens := "payment-only";
           Enriched.detailedItems := [];
           Enriched.proposalId := None |}, st)) /\
  (forall d, days = Some d -> (d <= 30)%Q -> proceeds) /\
  (days = None -> proceeds) /\
  (forall d,
     days = Some d ->
     offsetAt api proposalDate = offsetAt api (Transaction.Data transaction) ->
     (d == inject_Z calendar)%Q) /\
  (forall d,
     days = Some d ->
     Z.abs (offsetAt api (Transaction.Data transaction)
            - offsetAt api proposalDate) < msPerDay ->
     (30 < calendar -> (30 < d)%Q) /\ (calendar < 30 -> (d <= 30)%Q) /\
     (FeegowDate.jsDay (Transaction.Data transaction)
      = FeegowDate.jsDay proposalDate + 30 ->
      ((30 < d)%Q <->
       offsetAt api (Transaction.Data transaction)
       < offsetAt api proposalDate))).
Proof.
  intros Hinv Hne Hdate days calendar proceeds.
  assert (Hcheck : isPaymentOnly api transaction
                   = bool_decide (proposalDate ≠ Transaction.Data transaction)
                     && moreThan30 days).
  { unfold isPaymentOnly. rewrite Hinv, Hdate. unfold truthyId.
    destruct (Z.eqb_spec invoice 0); [congruence|reflexivity]. }
  assert (Hproceeds : isPaymentOnly api transaction = false -> proceeds).
  { intros Hno. subst proceeds. unfold enrichTransactionWithItems.
    rewrite Hno. split; [reflexivity|].
    destruct (enrichNormally api transaction st) as [e st'] eqn:E.
    apply enrichNormally_spec in E. simpl. tauto. }
  split; [|split; [|split; [|split]]].
  - intros d Hd Hfar.
    assert (Hdiff : proposalDate ≠ Transaction.Data transaction).
    { intros Heq. subst days. rewrite Heq in Hd.
      apply daysDiff_Some in Hd as (ta & tb & _ & _ & -> & -> & ->).
      rewrite Z.sub_diag in Hfar. now apply (days_lt 30 0) in Hfar. }
    unfold enrichTransactionWithItems. rewrite Hcheck, Hd.
    rewrite (bool_decide_eq_true_2 _ Hdiff).
    apply moreThan30_spec in Hfar. now rewrite Hfar.
  - intros d Hd Hnear. apply Hproceeds. rewrite Hcheck, Hd.
    destruct (moreThan30 (Some d)) eqn:E; [|apply andb_false_r].
    apply moreThan30_spec in E. exfalso. apply (Qlt_not_le _ _ E Hnear).
  - intros Hnan. apply Hproceeds. rewrite Hcheck, Hnan. apply andb_false_r.
  - intros d Hd Hsame. subst days calendar.
    apply daysDiff_Some in Hd as (ta & tb & _ & _ & -> & -> & ->).
    apply days_eq. unfold calendarDays. rewrite Hsame.
    unfold msPerDay. lia.
  - intros d Hd Hoff. subst days calendar.
    apply daysDiff_Some in Hd as (ta & tb & _ & _ & -> & -> & ->).
    unfold calendarDays in *. unfold msPerDay in *. split; [|split].
    + intros Hfar. apply (days_lt 30). unfold msPerDay. lia.
    + intros Hnear.
      change 30%Q with (inject_Z 30). apply days_le. unfold msPerDay. lia.
    + intros Hthirty. split.
      * intros Hfar. apply (days_lt 30) in Hfar. unfold msPerDay in Hfar.
        lia.
      * intros Hback. apply (days_lt 30). unfold msPerDay. lia.
Qed.

(** Scenario C: 96 days between proposal and payment; and a payment 30
    calendar days after the proposal, with the clocks set back in
    between. *)
Lemma payment_only_beyond_thirty_days_witness :
  (exists d,
     daysDiff Scenario.oldInvoiceApi (Scenario.date 1 11 2025)
       (Scenario.date 5 2 2026) = Some d /\
     (d == 96)%Q /\
     enrichTransactionWithItems Scenario.oldInvoiceApi Scenario.transactionC
       emptyStore
     = ({| Enriched.transaction := Scenario.transactionC;
           Enriched.paymentOnly := true;
           Enriched.fonteItens := "payment-only";
           Enriched.detailedItems := [];
           Enriched.proposalId := None |}, emptyStore)) /\
  calendarDays (Scenario.date 1 2 2018) (Scenario.date 3 3 2018) = 30 /\
  enrichTransactionWithItems Scenario.summerInvoiceApi
    Scenario.transactionSummer emptyStore
  = ({| Enriched.transaction := Scenario.transactionSummer;
        Enriched.paymentOnly := true;
        Enriched.fonteItens := "payment-only";
        Enriched.detailedItems := [];
        Enriched.proposalId := None |}, emptyStore).
Proof.
  assert (Hinvoice : (901 : Z) <> 0) by discriminate.
  assert (Hsummer : (902 : Z) <> 0) by discriminate.
  split; [|split; [reflexivity|]].
  - eexists. split; [vm_compute; reflexivity|]. split; [reflexivity|].
    refine (proj1 (payment_only_beyond_thirty_days Scenario.oldInvoiceApi
                     Scenario.transactionC 901 (Scenario.date 1 11 2025)
                     emptyStore eq_refl Hinvoice eq_refl) _ _ _).
    + vm_compute. reflexivity.
    + reflexivity.
  - refine (proj1 (payment_only_beyond_thirty_days Scenario.summerInvoiceApi
                     Scenario.transactionSummer 902 (Scenario.date 1 2 2018)
                     emptyStore eq_refl Hsummer eq_refl) _ _ _).
    + vm_compute. reflexivity.
    + reflexivity.
Defined.

(** ** The batch *)

Section BatchFacts.

Variable world : nat -> Api.t.

(** What the loop does to [usedProposalIds], and which proposals its
    results carry. *)
Lemma enrichLoop_spec transactions :
  forall i st l st',
    enrichLoop world i transactions st = (l, st') ->
    (forall e, In e l ->
               (Enriched.fonteItens e = "proposal"
                <-> is_Some (Enriched.proposalId e))) /\
    (forall e id, In e l -> Enriched.proposalId e = Some id ->
                  (id ∉ usedProposalIds st) /\ id ∈ usedProposalIds st') /\
    (forall id, id ∈ usedProposalIds st' ->
                id ∈ usedProposalIds st \/
                exists e, In e l /\ Enriched.proposalId e = Some id) /\
    (forall id, id ∈ usedProposalIds st -> id ∈ usedProposalIds st') /\
    (forall a b ea eb id,
       a <> b -> l !! a = Some ea -> l !! b = Some eb ->
       Enriched.proposalId ea = Some id ->
       Enriched.proposalId eb <> Some id).
Proof.
  induction transactions as [|mov rest IH]; intros i st l st'; simpl.
  - unfold ret. intros [= <- <-].
    split; [|split; [|split; [|split]]].
    + intros e [].
    + intros e id [].
    + intros id Hid. now left.
    + intros id Hid. exact Hid.
    + intros a b ea eb id _ Ha. now rewrite lookup_nil in Ha.
  - unfold bind, ret.
    destruct (enrichTransactionWithItems (world i) mov st) as [e st1] eqn:E1.
    destruct (enrichLoop world (S i) rest st1) as [more st2] eqn:E2.
    intros [= <- <-].
    apply enrich_spec in E1.
    destruct (IH _ _ _ _ E2) as (Hsrc & Hnew & Hfrom & Hmono & Hdist).
    assert (Hstep : forall id, id ∈ usedProposalIds st ->
                               id ∈ usedProposalIds st1).
    { intros id Hid.
      destruct E1 as [(_ & _ & ->) | (k & _ & _ & _ & ->)];
        [exact Hid | apply elem_of_union; now right]. }
    assert (Hhead : forall id, Enriched.proposalId e = Some id ->
                               (id ∉ usedProposalIds st) /\
                               id ∈ usedProposalIds st1).
    { intros id Hid.
      destruct E1 as [(Hnone & _) | (k & Hk & _ & Hfresh & ->)];
        [congruence|].
      assert (k = id) as -> by congruence. split; [exact Hfresh|].
      apply elem_of_union. left. now apply elem_of_singleton. }
    split; [|split; [|split; [|split]]].
    + intros e' [<-|He']; [|now apply Hsrc].
      destruct E1 as [(Hnone & Hne & _) | (k & Hk & Hp & _)].
      * rewrite Hnone. split; [congruence|]. intros [x Hx]. discriminate.
      * rewrite Hk. split; [eauto|]. intros _. exact Hp.
    + intros e' id [<-|He'] Hid.
      * destruct (Hhead id Hid) as [H1 H2]. split; [exact H1|]. now apply Hmono.
      * destruct (Hnew e' id He' Hid) as [H1 H2]. split; [|exact H2].
        intros Hin. apply H1. now apply Hstep.
    + intros id Hid. destruct (Hfrom id Hid) as [H1 | (e' & He' & Hp)].
      * destruct E1 as [(_ & _ & Hsame) | (k & Hk & _ & _ & Hadd)].
        -- left. now rewrite <- Hsame.
        -- rewrite Hadd in H1. apply elem_of_union in H1 as [H1|H1].
           ++ apply elem_of_singleton in H1 as ->. right. exists e.
              split; [now left | exact Hk].
           ++ now left.
      * right. exists e'. split; [now right | exact Hp].
    + intros id Hid. now apply Hmono, Hstep.
    + intros a b ea eb id Hab Ha Hb Hida Hidb.
      destruct a as [|a], b as [|b]; simpl in Ha, Hb.
      * congruence.
      * injection Ha as <-. destruct (Hhead id Hida) as [_ Hin].
        apply list_elem_of_lookup_2, list_elem_of_In in Hb.
        destruct (Hnew eb id Hb Hidb) as [Hout _]. now apply Hout.
      * injection Hb as <-. destruct (Hhead id Hidb) as [_ Hin].
        apply list_elem_of_lookup_2, list_elem_of_In in Ha.
        destruct (Hnew ea id Ha Hida) as [Hout _]. now apply Hout.
      * apply (Hdist a b ea eb id); [congruence | assumption..].
Qed.

End BatchFacts.

(** C1.  In one batch no two enriched transactions with source
    ['proposal'] are taken from the same proposal; the proposals marked
    used at the end of the batch are exactly those its transactions were
    taken from; and a transaction is never taken from a proposal that is
    marked used when its enrichment starts. *)
Theorem no_proposal_is_used_twice
    (world : nat -> Api.t) (transactions : list Transaction.t)
    (st : Store) (enriched : list Enriched.t) (st' : Store) :
  fetchDetailedTransactions world (Some transactions) st
  = (Some enriched, st') ->
  (forall a b ea eb,
     a <> b -> enriched !! a = Some ea -> enriched !! b = Some eb ->
     Enriched.fonteItens ea = "proposal" ->
     Enriched.fonteItens eb = "proposal" ->
     exists ida idb,
       Enriched.proposalId ea = Some ida /\
       Enriched.proposalId eb = Some idb /\ ida <> idb) /\
  (forall id,
     id ∈ usedProposalIds st' <->
     exists e, In e enriched /\ Enriched.fonteItens e = "proposal" /\
               Enriched.proposalId e = Some id) /\
  (forall api transaction st0 e st1 id,
     enrichTransactionWithItems api transaction st0 = (e, st1) ->
     id ∈ usedProposalIds st0 -> Enriched.proposalId e <> Some id).
Proof.
  unfold fetchDetailedTransactions.
  destruct (enrichLoop world 0 transactions (clearUsedProposalIds st))
    as [l st2] eqn:E.
  intros [= <- <-].
  destruct (enrichLoop_spec world _ _ _ _ _ E)
    as (Hsrc & Hnew & Hfrom & _ & Hdist).
  split; [|split].
  - intros a b ea eb Hab Ha Hb Hsa Hsb.
    assert (Hina : In ea l)
      by (eapply list_elem_of_In, list_elem_of_lookup_2; exact Ha).
    assert (Hinb : In eb l)
      by (eapply list_elem_of_In, list_elem_of_lookup_2; exact Hb).
    apply (Hsrc ea Hina) in Hsa as [ida Hida].
    apply (Hsrc eb Hinb) in Hsb as [idb Hidb].
    exists ida, idb. split; [exact Hida|]. split; [exact Hidb|].
    intros ->. now apply (Hdist a b ea eb idb Hab).
  - intros id. split.
    + intros Hid. destruct (Hfrom id Hid) as [H | (e & He & Hp)].
      * simpl in H. now apply not_elem_of_empty in H.
      * exists e. split; [exact He|]. split; [|exact Hp].
        apply (Hsrc e He). eauto.
    + intros (e & He & _ & Hp). now apply (Hnew e id He Hp).
  - intros api transaction st0 e st1 id Hrun Hid Hp.
    apply enrich_spec in Hrun
      as [(Hnone & _) | (k & Hk & _ & Hfresh & _)]; [congruence|].
    assert (k = id) as -> by congruence. now apply Hfresh.
Qed.

Lemma no_proposal_is_used_twice_witness :
  exists e1 e2 st',
    fetchDetailedTransactions (fun _ => Scenario.twoProposalsApi)
      (Some Scenario.twoPayments) emptyStore = (Some [e1; e2], st') /\
    Enriched.proposalId e1 = Some 1 /\ Enriched.proposalId e2 = Some 2 /\
    (forall id, id ∈ usedProposalIds st' <-> id = 1 \/ id = 2).
Proof.
  destruct (fetchDetailedTransactions (fun _ => Scenario.twoProposalsApi)
              (Some Scenario.twoPayments) emptyStore) as [r st'] eqn:E.
  pose proof E as E'. vm_compute in E'.
  injection E' as <- Hst.
  eexists _, _, st'. split; [reflexivity|].
  split; [reflexivity|]. split; [reflexivity|].
  intros id.
  destruct (no_proposal_is_used_twice _ _ _ _ _ E) as (_ & Hused & _).
  rewrite Hused. split.
  - intros (e & [<-|[<-|[]]] & _ & Hp); injection Hp as <-; tauto.
  - intros [->| ->]; eexists.
    + split; [left; reflexivity | split; reflexivity].
    + split; [right; left; reflexivity | split; reflexivity].
Defined.

(** ** The appointment cache *)

Section AppointmentCacheFacts.

Lemma fetchPatientProposals_appointments api pacienteId date st r st' :
  fetchPatientProposals api pacienteId date st = (r, st') ->
  appointmentsCache st' = appointmentsCache st.
Proof.
  unfold fetchPatientProposals.
  destruct (proposalsCache st !! (pacienteId, date)); cbv zeta;
    now intros [= _ <-].
Qed.

Lemma invoiceItem_appointments api item st r st' :
  invoiceItem api item st = (r, st') ->
  appointmentsCache st' = appointmentsCache st.
Proof.
  unfold invoiceItem, bind, ret, fetchProcedureWithCache.
  destruct (proceduresCache st !! InvoiceItem.procedimento_id item);
    [now intros [= _ <-]|].
  destruct (Api.procedure api (InvoiceItem.procedimento_id item));
    now intros [= _ <-].
Qed.

Lemma invoiceItems_appointments api items st r st' :
  invoiceItems api items st = (r, st') ->
  appointmentsCache st' = appointmentsCache st.
Proof.
  revert st r st'.
  induction items as [|item items IH]; intros st r st'; simpl.
  - unfold ret. now intros [= _ <-].
  - unfold bind, ret.
    destruct (invoiceItem api item st) as [d st1] eqn:E1.
    destruct (invoiceItems api items st1) as [more st2] eqn:E2.
    intros [= _ <-]. apply invoiceItem_appointments in E1. apply IH in E2.
    congruence.
Qed.

Lemma enrichFromReport_appointments api transaction st e st' :
  enrichFromReport api transaction st = (e, st') ->
  appointmentsCache st' = appointmentsCache st.
Proof.
  unfold enrichFromReport.
  destruct (length (reportNames _) <=? 1)%nat; [now intros [= _ <-]|].
  destruct (Transaction.NumeroInvoice transaction) as [inv|];
    [|now intros [= _ <-]].
  destruct (truthyId (Some inv)); [|now intros [= _ <-]].
  destruct (Api.invoiceItems api inv (Transaction.Data transaction))
    as [|i items]; [now intros [= _ <-]|].
  unfold bind, ret.
  destruct (invoiceItems api (i :: items) st) as [detailed st1] eqn:E.
  intros [= _ <-]. now apply invoiceItems_appointments in E.
Qed.

Lemma enrichFromProposal_appointments api transaction st r st' :
  enrichFromProposal api transaction st = (r, st') ->
  appointmentsCache st' = appointmentsCache st.
Proof.
  unfold enrichFromProposal.
  destruct (Transaction.PacienteID transaction) as [pid|];
    [|now intros [= _ <-]].
  destruct (truthyId (Some pid)); [|now intros [= _ <-]].
  unfold bind.
  destruct (fetchPatientProposals api pid (Transaction.Data transaction) st)
    as [proposals st1] eqn:E.
  apply fetchPatientProposals_appointments in E.
  destruct (findMatchingProposal api transaction _) as [matched|];
    [|now intros [= _ <-]].
  destruct (Proposal.procedimentos matched); now intros [= _ <-].
Qed.

Lemma enrich_appointments api transaction st e st' :
  enrichTransactionWithItems api transaction st = (e, st') ->
  appointmentsCache st' = appointmentsCache st.
Proof.
  unfold enrichTransactionWithItems, enrichNormally, bind, ret.
  destruct (isPaymentOnly api transaction); [now intros [= _ <-]|].
  destruct (enrichFromProposal api transaction st) as [[e1|] st1] eqn:E;
    apply enrichFromProposal_appointments in E.
  - now intros [= _ <-].
  - intros H. apply enrichFromReport_appointments in H. congruence.
Qed.

Lemma enrichLoop_appointments world transactions :
  forall i st l st',
    enrichLoop world i transactions st = (l, st') ->
    appointmentsCache st' = appointmentsCache st.
Proof.
  induction transactions as [|mov rest IH]; intros i st l st'; simpl.
  - unfold ret. now intros [= _ <-].
  - unfold bind, ret.
    destruct (enrichTransactionWithItems (world i) mov st) as [e st1] eqn:E1.
    destruct (enrichLoop world (S i) rest st1) as [more st2] eqn:E2.
    intros [= _ <-]. apply enrich_appointments in E1. apply IH in E2.
    congruence.
Qed.

End AppointmentCacheFacts.

(** C9.  A batch enriches its transactions from a store in which
    [usedProposalIds] is empty, but the appointment cache is left as it
    is: whatever it holds when the batch starts it holds while the
    transactions are enriched and still when the batch ends.  An answer cached for
    patient 7 on the first day is therefore served on the second day,
    where it says that the patient has no appointment, although the
    platform has one and a cleared cache would report it. *)
Theorem appointment_cache_outlives_batch :
  (forall world transactions st,
     fetchDetailedTransactions world (Some transactions) st
     = (Some (fst (enrichLoop world 0 transactions (clearUsedProposalIds st))),
        snd (enrichLoop world 0 transactions (clearUsedProposalIds st)))) /\
  (forall st,
     usedProposalIds (clearUsedProposalIds st) = ∅ /\
     appointmentsCache (clearUsedProposalIds st) = appointmentsCache st) /\
  (forall world report st r st',
     fetchDetailedTransactions world report st = (r, st') ->
     appointmentsCache st' = appointmentsCache st) /\
  (let afterFirstDay :=
     snd (checkAppointmentDate (Scenario.appointmentsApi Scenario.firstDay)
            (Some 7) Scenario.firstDay emptyStore) in
   let secondBatch :=
     snd (fetchDetailedTransactions
            (fun _ => Scenario.appointmentsApi Scenario.secondDay)
            (Some []) afterFirstDay) in
   AppointmentCheck.hasAppointmentToday
     (fst (checkAppointmentDate (Scenario.appointmentsApi Scenario.secondDay)
             (Some 7) Scenario.secondDay secondBatch)) = false /\
   AppointmentCheck.hasAppointmentToday
     (fst (checkAppointmentDate (Scenario.appointmentsApi Scenario.secondDay)
             (Some 7) Scenario.secondDay
             (clearAppointmentsCache secondBatch))) = true).
Proof.
  split.
  { intros world transactions st. simpl.
    now destruct (enrichLoop world 0 transactions (clearUsedProposalIds st)). }
  split; [now split|]. split.
  - intros world [transactions|] st r st'; simpl.
    + destruct (enrichLoop world 0 transactions (clearUsedProposalIds st))
        as [l st2] eqn:E.
      intros [= _ <-]. now apply enrichLoop_appointments in E.
    + unfold ret. now intros [= _ <-].
  - split; vm_compute; reflexivity.
Qed.

(** ** The row builder *)

Section RowFacts.

Lemma letter_name column :
  In column procedureLetters ->
  default column (COLUMNS.COLUMN_NAMES !! column) <> "DESCARTADO".
Proof.
  intros H. unfold procedureLetters in H. cbn [In] in H.
  repeat (destruct H as [H|H]; [subst column; vm_compute; discriminate|]).
  destruct H.
Qed.

Lemma avaliacao_name :
  default COLUMNS.AVALIACAO (COLUMNS.COLUMN_NAMES !! COLUMNS.AVALIACAO)
  = "AVALIACAO".
Proof. vm_compute. reflexivity. Qed.

Lemma pattern_columns pattern column :
  In (pattern, column) PROCEDURE_MAPPING ->
  In column (List.map snd COLUMNS.entries).
Proof.
  intros H. unfold PROCEDURE_MAPPING in H. cbn [In] in H.
  repeat (destruct H as [H|H]; [injection H as _ <-; vm_compute; tauto|]).
  destruct H.
Qed.

Variable groupMapping : option (gmap Z (option string)).
Hypothesis loaded : LoadedMapping groupMapping.
Variables (api : Api.t) (referenceDate : FeegowDate.t) (group : Group.t).

Lemma processItem_details acc item st :
  (forall d, In d (RowAcc.classificationDetails acc) ->
             Detail.colunaDestinoNome d <> "DESCARTADO") ->
  forall d,
    In d (RowAcc.classificationDetails
            (fst (processItem groupMapping api referenceDate group acc item st)))
    -> Detail.colunaDestinoNome d <> "DESCARTADO".
Proof.
  intros Hacc d. unfold processItem.
  destruct (classify_letter groupMapping (DetailedItem.nome item)
              (DetailedItem.procedimento_id item) loaded)
    as [column [-> Hletter]].
  assert (Hadd : forall by' total,
            In d (RowAcc.classificationDetails
                    (addToColumn column by' item total acc)) ->
            Detail.colunaDestinoNome d <> "DESCARTADO").
  { intros by' total Hd. unfold addToColumn in Hd.
    cbn [RowAcc.classificationDetails] in Hd.
    apply in_app_or in Hd as [Hd|[<-|[]]].
    - now apply Hacc.
    - unfold detailOf. cbn [Detail.colunaDestinoNome]. now apply letter_name. }
  destruct (String.eqb column COLUMNS.AVALIACAO); [|apply Hadd].
  unfold bind, ret.
  destruct (checkAppointmentDate api _ referenceDate st) as [check st1].
  destruct (AppointmentCheck.apiError check); [apply Hadd|].
  destruct (AppointmentCheck.hasAppointmentToday check); [apply Hadd|].
  unfold recordOnly. cbn [fst negb RowAcc.classificationDetails].
  intros Hd. apply in_app_or in Hd as [Hd|[<-|[]]].
  - now apply Hacc.
  - unfold detailOf. cbn [Detail.colunaDestinoNome]. discriminate.
Qed.

Lemma processItems_details items :
  forall acc st,
    (forall d, In d (RowAcc.classificationDetails acc) ->
               Detail.colunaDestinoNome d <> "DESCARTADO") ->
    forall d,
      In d (RowAcc.classificationDetails
              (fst (processItems groupMapping api referenceDate group
                      acc items st)))
      -> Detail.colunaDestinoNome d <> "DESCARTADO".
Proof.
  induction items as [|item items IH]; intros acc st Hacc d; simpl.
  - apply Hacc.
  - unfold bind.
    pose proof (processItem_details acc item st Hacc) as Hstep.
    destruct (processItem groupMapping api referenceDate group acc item st)
      as [acc' st1].
    simpl in Hstep. now apply IH.
Qed.

End RowFacts.

(** C8.  An item classified into the evaluation column, for which the
    appointment check is consulted: when the check reports a failure of
    the API, the item is added to the evaluation column and recorded
    there as any other item would be, its discount included; when the
    check succeeds and finds no appointment on the processing date, the
    item is recorded as SINAL_ANTECIPADO in no column, the procedure
    columns keep their values, and the discount total is back to what it
    was before the item. *)
Theorem evaluation_without_appointment_is_advance_deposit
    (groupMapping : option (gmap Z (option string))) (api : Api.t)
    (referenceDate : FeegowDate.t) (group : Group.t)
    (acc : RowAcc.t) (item : DetailedItem.t) (classificadoPor : string)
    (st : Store) (check : AppointmentCheck.t) (st1 : Store) :
  classifyProcedure groupMapping (DetailedItem.nome item)
    (DetailedItem.procedimento_id item)
  = {| Classification.column := Some COLUMNS.AVALIACAO;
       Classification.classificadoPor := classificadoPor |} ->
  checkAppointmentDate api
    (Transaction.PacienteID
       (Enriched.transaction (Group.firstTransaction group)))
    referenceDate st = (check, st1) ->
  (AppointmentCheck.apiError check = true ->
   exists acc',
     processItem groupMapping api referenceDate group acc item st
     = (acc', st1) /\
     RowAcc.procedureValues acc'
     = <[COLUMNS.AVALIACAO :=
           (default 0%Q (RowAcc.procedureValues acc !! COLUMNS.AVALIACAO)
            + DetailedItem.valor item)%Q]> (RowAcc.procedureValues acc) /\
     RowAcc.classificationDetails acc'
     = (RowAcc.classificationDetails acc
        ++ [detailOf item (Some COLUMNS.AVALIACAO) "AVALIACAO"
              classificadoPor])%list /\
     RowAcc.discountTotal acc' = addDiscount item (RowAcc.discountTotal acc))
  /\
  (AppointmentCheck.apiError check = false ->
   AppointmentCheck.hasAppointmentToday check = false ->
   exists acc',
     processItem groupMapping api referenceDate group acc item st
     = (acc', st1) /\
     RowAcc.procedureValues acc' = RowAcc.procedureValues acc /\
     RowAcc.classificationDetails acc'
     = (RowAcc.classificationDetails acc
        ++ [detailOf item None "SINAL_ANTECIPADO" "agendamento-futuro"])%list
     /\
     (RowAcc.discountTotal acc' == RowAcc.discountTotal acc)%Q).
Proof.
  intros Hclass Hcheck. unfold processItem. rewrite Hclass.
  cbn [Classification.column Classification.classificadoPor].
  change (String.eqb COLUMNS.AVALIACAO COLUMNS.AVALIACAO) with true.
  cbv iota. unfold bind, ret. rewrite Hcheck. split.
  - intros ->. eexists. split; [reflexivity|].
    unfold addToColumn.
    cbn [RowAcc.procedureValues RowAcc.classificationDetails
         RowAcc.discountTotal].
    rewrite avaliacao_name. repeat split.
  - intros -> ->. cbn [negb]. eexists. split; [reflexivity|].
    unfold recordOnly.
    cbn [RowAcc.procedureValues RowAcc.classificationDetails
         RowAcc.discountTotal].
    repeat split.
    unfold undoDiscount, addDiscount.
    destruct (isPositive (DetailedItem.desconto item)); [ring|reflexivity].
Qed.

(** Scenario D. *)
Lemma evaluation_without_appointment_is_advance_deposit_witness :
  exists acc' st1,
    processItem None Scenario.noAppointmentApi Scenario.secondDay
      Scenario.evaluationGroup emptyRowAcc Scenario.evaluationItem emptyStore
    = (acc', st1) /\
    RowAcc.procedureValues acc' = ∅ /\
    RowAcc.classificationDetails acc'
    = [detailOf Scenario.evaluationItem None "SINAL_ANTECIPADO"
         "agendamento-futuro"] /\
    (RowAcc.discountTotal acc' == 0)%Q.
Proof.
  destruct (checkAppointmentDate Scenario.noAppointmentApi (Some 7)
              Scenario.secondDay emptyStore) as [check st1] eqn:E.
  assert (Herr : AppointmentCheck.apiError check = false)
    by (vm_compute in E; now injection E as <- _).
  assert (Hnone : AppointmentCheck.hasAppointmentToday check = false)
    by (vm_compute in E; now injection E as <- _).
  destruct (proj2 (evaluation_without_appointment_is_advance_deposit
                     None Scenario.noAppointmentApi Scenario.secondDay
                     Scenario.evaluationGroup emptyRowAcc
                     Scenario.evaluationItem "nome" emptyStore check st1
                     eq_refl E) Herr Hnone)
    as (acc' & Hrun & Hvalues & Hdetails & Htotal).
  exists acc', st1. split; [exact Hrun|]. split; [exact Hvalues|].
  split; [exact Hdetails | exact Htotal].
Defined.

(** C10.  With the category map as [fetchGroupMapping] loads it (or not
    loaded at all), the classifier gives every name and id one of the
    procedure columns, never null: a procedure whose override is the
    discard sentinel is not in the map, every column of the pattern table
    is a column of the sheet, and the rest is EXTRA.  So no item of a row
    is ever recorded as DESCARTADO. *)
Theorem classifier_never_returns_null
    (groupMapping : option (gmap Z (option string))) :
  LoadedMapping groupMapping ->
  (forall name id,
     exists column,
       Classification.column (classifyProcedure groupMapping name id)
       = Some column /\ In column procedureLetters) /\
  (forall response id,
     overrideOf id OVERRIDES = Some None ->
     fetchGroupMapping response !! id = None) /\
  (forall pattern column,
     In (pattern, column) PROCEDURE_MAPPING ->
     In column (List.map snd COLUMNS.entries)) /\
  (forall name,
     (forall p c, In (p, c) PROCEDURE_MAPPING -> ~ ContainsIgnoringCase name p)
     -> classifyProcedure groupMapping name None
        = {| Classification.column := Some COLUMNS.EXTRA;
             Classification.classificadoPor := "fallback" |}) /\
  (forall api referenceDate group st d,
     In d (RowAcc.classificationDetails
             (fst (buildRowItems groupMapping api referenceDate group st))) ->
     Detail.colunaDestinoNome d <> "DESCARTADO").
Proof.
  intros Hloaded. split; [|split; [|split; [|split]]].
  - intros name id. now apply classify_letter.
  - intros response id. apply fetchGroupMapping_discarded.
  - apply pattern_columns.
  - intros name Hnone. unfold classifyProcedure, classifyByName.
    now rewrite (firstPattern_none _ _ Hnone).
  - intros api referenceDate group st d. unfold buildRowItems.
    apply processItems_details; [exact Hloaded|]. intros d' [].
Qed.

Lemma classifier_never_returns_null_witness :
  exists column,
    Classification.column
      (classifyProcedure
         (Some (fetchGroupMapping
                  (Some [ {| ProcedureGroup.id := 3;
                             ProcedureGroup.procedimentos := [16; 20] |} ])))
         "Conversa" (Some 20))
    = Some column /\ In column procedureLetters.
Proof.
  apply (proj1 (classifier_never_returns_null
                  (Some (fetchGroupMapping
                           (Some [ {| ProcedureGroup.id := 3;
                                      ProcedureGroup.procedimentos :=
                                        [16; 20] |} ])))
                  (or_intror (ex_intro _ _ eq_refl)))).
Defined.

(** ** Further scenarios of the specification *)

(** Scenario A: the transaction is matched to the proposal and its item
    goes to DR_RIGATTI by id. *)
Example scenario_A :
  let enriched :=
    fst (enrichTransactionWithItems Scenario.scenarioAApi
           Scenario.transactionA emptyStore) in
  Enriched.fonteItens enriched = "proposal" /\
  List.map
    (fun item =>
       classifyProcedure
         (Some (fetchGroupMapping (Some Scenario.consultations)))
         (DetailedItem.nome item) (DetailedItem.procedimento_id item))
    (Enriched.detailedItems enriched)
  = [ {| Classification.column := Some COLUMNS.DR_RIGATTI;
         Classification.classificadoPor := "id" |} ].
Proof. split; vm_compute; reflexivity. Qed.

(** Scenario E: the value is spread equally over the two names. *)
Example scenario_E :
  let enriched :=
    fst (enrichTransactionWithItems Scenario.silentApi
           Scenario.transactionE emptyStore) in
  Enriched.fonteItens enriched = "report-distributed" /\
  List.map DetailedItem.nome (Enriched.detailedItems enriched)
  = ["Consulta"; "Nutri"] /\
  Forall (fun item => (DetailedItem.valor item == 100)%Q)
         (Enriched.detailedItems enriched).
Proof.
  split; [reflexivity|]. split; [reflexivity|].
  repeat constructor.
Qed.


(** * Further properties *)

(** ** Date texts *)

Section DateTextFacts.

Import DateText.

Lemma isDatePart_cons c s :
  isDatePart (String c s) = true ->
  Ascii.eqb c "-" = false /\ Ascii.eqb c "/" = false /\ isDatePart s = true.
Proof.
  unfold isDatePart. simpl. intros H.
  apply andb_true_iff in H as [H Hs]. apply andb_true_iff in H as [H1 H2].
  apply negb_true_iff in H1, H2. tauto.
Qed.

Lemma splitOn_nonempty sep s : splitOn sep s <> [].
Proof.
  destruct s as [|c r]; simpl; [discriminate|].
  destruct (Ascii.eqb c sep); [discriminate|].
  destruct (splitOn sep r); discriminate.
Qed.

Lemma splitOn_dash_part s : isDatePart s = true -> splitOn "-" s = [s].
Proof.
  induction s as [|c s IH]; [reflexivity|].
  intros H. apply isDatePart_cons in H as (H1 & _ & Hs).
  simpl. rewrite H1, (IH Hs). reflexivity.
Qed.

Lemma splitOn_slash_part s : isDatePart s = true -> splitOn "/" s = [s].
Proof.
  induction s as [|c s IH]; [reflexivity|].
  intros H. apply isDatePart_cons in H as (_ & H2 & Hs).
  simpl. rewrite H2, (IH Hs). reflexivity.
Qed.

Lemma splitOn_dash_app a b :
  isDatePart a = true -> splitOn "-" (a +:+ String "-" b) = a :: splitOn "-" b.
Proof.
  induction a as [|c a IH]; [reflexivity|].
  intros H. apply isDatePart_cons in H as (H1 & _ & Ha).
  rewrite append_cons. simpl. rewrite H1, (IH Ha). reflexivity.
Qed.

Lemma splitOn_slash_app a b :
  isDatePart a = true -> splitOn "/" (a +:+ String "/" b) = a :: splitOn "/" b.
Proof.
  induction a as [|c a IH]; [reflexivity|].
  intros H. apply isDatePart_cons in H as (_ & H2 & Ha).
  rewrite append_cons. simpl. rewrite H2, (IH Ha). reflexivity.
Qed.

(** The parts of a date of three parts. *)
Lemma splitOn_dash_date y m d :
  isDatePart y = true -> isDatePart m = true -> isDatePart d = true ->
  splitOn "-" (y +:+ "-" +:+ m +:+ "-" +:+ d) = [y; m; d].
Proof.
  intros Hy Hm Hd.
  change (y +:+ "-" +:+ m +:+ "-" +:+ d)
    with (y +:+ String "-" (m +:+ String "-" d)).
  now rewrite (splitOn_dash_app _ _ Hy), (splitOn_dash_app _ _ Hm),
    (splitOn_dash_part _ Hd).
Qed.

Lemma splitOn_slash_date d m y :
  isDatePart y = true -> isDatePart m = true -> isDatePart d = true ->
  splitOn "/" (d +:+ "/" +:+ m +:+ "/" +:+ y) = [d; m; y].
Proof.
  intros Hy Hm Hd.
  change (d +:+ "/" +:+ m +:+ "/" +:+ y)
    with (d +:+ String "/" (m +:+ String "/" y)).
  now rewrite (splitOn_slash_app _ _ Hd), (splitOn_slash_app _ _ Hm),
    (splitOn_slash_part _ Hy).
Qed.

End DateTextFacts.

(** X1.  [feegowToIso] undoes [isoToFeegow] and [isoToFeegow] undoes
    [feegowToIso] on every date of three parts that hold neither a dash
    nor a slash. *)
Theorem date_formats_round_trip (y m d : string) :
  isDatePart y = true -> isDatePart m = true -> isDatePart d = true ->
  DateText.isoToFeegow (y +:+ "-" +:+ m +:+ "-" +:+ d)
  = d +:+ "/" +:+ m +:+ "/" +:+ y /\
  DateText.feegowToIso (d +:+ "/" +:+ m +:+ "/" +:+ y)
  = y +:+ "-" +:+ m +:+ "-" +:+ d /\
  DateText.feegowToIso
    (DateText.isoToFeegow (y +:+ "-" +:+ m +:+ "-" +:+ d))
  = y +:+ "-" +:+ m +:+ "-" +:+ d /\
  DateText.isoToFeegow
    (DateText.feegowToIso (d +:+ "/" +:+ m +:+ "/" +:+ y))
  = d +:+ "/" +:+ m +:+ "/" +:+ y.
Proof.
  intros Hy Hm Hd.
  assert (H1 : DateText.isoToFeegow (y +:+ "-" +:+ m +:+ "-" +:+ d)
               = d +:+ "/" +:+ m +:+ "/" +:+ y).
  { unfold DateText.isoToFeegow.
    now rewrite (splitOn_dash_date y m d Hy Hm Hd). }
  assert (H2 : DateText.feegowToIso (d +:+ "/" +:+ m +:+ "/" +:+ y)
               = y +:+ "-" +:+ m +:+ "-" +:+ d).
  { unfold DateText.feegowToIso.
    now rewrite (splitOn_slash_date d m y Hy Hm Hd). }
  split; [exact H1|]. split; [exact H2|]. now rewrite H1, H2.
Qed.

Lemma date_formats_round_trip_witness :
  DateText.isoToFeegow "2026-02-05" = "05/02/2026" /\
  DateText.feegowToIso "05/02/2026" = "2026-02-05".
Proof.
  destruct (date_formats_round_trip "2026" "02" "05" eq_refl eq_refl eq_refl)
    as (H1 & H2 & _).
  split; [exact H1 | exact H2].
Defined.

Section DateTextMore.

Import DateText.

Lemma allChars_app class a b :
  allChars class (a +:+ b) = allChars class a && allChars class b.
Proof.
  induction a as [|c a IH]; [reflexivity|].
  rewrite append_cons. simpl. rewrite IH. now rewrite andb_assoc.
Qed.

(** A text without a character does not include it. *)
Lemma includes_char_false (sep : ascii) s :
  allChars (fun c => negb (Ascii.eqb c sep)) s = true ->
  includes s (String sep EmptyString) = false.
Proof.
  induction s as [|c s IH]; [reflexivity|].
  simpl. intros H. apply andb_true_iff in H as [Hc Hs].
  apply negb_true_iff in Hc. rewrite Ascii.eqb_sym in Hc.
  rewrite Hc. simpl. now apply IH.
Qed.

Lemma isDatePart_no_dash s :
  isDatePart s = true -> allChars (fun c => negb (Ascii.eqb c "-")) s = true.
Proof.
  induction s as [|c s IH]; [reflexivity|].
  intros H. apply isDatePart_cons in H as (H1 & _ & Hs).
  simpl. now rewrite H1, (IH Hs).
Qed.

Lemma isDatePart_no_slash s :
  isDatePart s = true -> allChars (fun c => negb (Ascii.eqb c "/")) s = true.
Proof.
  induction s as [|c s IH]; [reflexivity|].
  intros H. apply isDatePart_cons in H as (_ & H2 & Hs).
  simpl. now rewrite H2, (IH Hs).
Qed.

(** A text with a slash splits into two parts at least. *)
Lemma splitOn_slash_two s :
  includes s "/" = true -> exists a b rest, splitOn "/" s = a :: b :: rest.
Proof.
  induction s as [|c s IH]; [discriminate|].
  cbn [includes startsWith]. simpl splitOn.
  destruct (Ascii.eqb c "/") eqn:E.
  - intros _. pose proof (splitOn_nonempty "/" s) as Hne.
    destruct (splitOn "/" s) as [|b rest]; [congruence|].
    now exists EmptyString, b, rest.
  - rewrite Ascii.eqb_sym, E. simpl. intros H.
    destruct (IH H) as (a & b & rest & ->). now exists (String c a), b, rest.
Qed.

(** The parts of a split hold no separator. *)
Lemma splitOn_parts sep s :
  Forall (fun part => allChars (fun c => negb (Ascii.eqb c sep)) part = true)
         (splitOn sep s).
Proof.
  induction s as [|c s IH]; simpl; [now repeat constructor|].
  destruct (Ascii.eqb c sep) eqn:E; [now constructor|].
  destruct (splitOn sep s) as [|h t]; [now repeat constructor; simpl; rewrite E|].
  inversion IH as [|? ? Hh Ht]; subst. constructor; [|exact Ht].
  simpl. now rewrite E, Hh.
Qed.

Lemma padStart2_no_slash s :
  allChars (fun c => negb (Ascii.eqb c "/")) s = true ->
  allChars (fun c => negb (Ascii.eqb c "/")) (padStart2 s) = true.
Proof. destruct s as [|c [|d s]]; simpl; intros H; now rewrite ?H. Qed.

Lemma nth_error_no_slash (parts : list string) i :
  Forall (fun part => allChars (fun c => negb (Ascii.eqb c "/")) part = true)
         parts ->
  allChars (fun c => negb (Ascii.eqb c "/")) (show (nth_error parts i)) = true.
Proof.
  intros H. destruct (nth_error parts i) as [p|] eqn:E; [|reflexivity].
  simpl. apply nth_error_In in E.
  rewrite Forall_forall in H. apply H. now apply list_elem_of_In.
Qed.

End DateTextMore.

(** X2.  [normalizeDate] never throws; applying it to its own result
    changes nothing; and a date of three parts with slashes becomes year,
    month and day with dashes, month and day padded to two digits. *)
Theorem normalizeDate_settles :
  (forall date, exists r, DateText.normalizeDate date = Some r) /\
  (forall date r,
     DateText.normalizeDate date = Some r ->
     DateText.normalizeDate r = Some r) /\
  (forall d m y,
     isDatePart d = true -> isDatePart m = true -> isDatePart y = true ->
     DateText.normalizeDate (d +:+ "/" +:+ m +:+ "/" +:+ y)
     = Some (y +:+ "-" +:+ DateText.padStart2 m
             +:+ "-" +:+ DateText.padStart2 d)).
Proof.
  split; [|split].
  - intros date. unfold DateText.normalizeDate.
    destruct (includes date "-" && _); [eauto|].
    destruct (includes date "/") eqn:E; [|eauto].
    destruct (splitOn_slash_two date E) as (a & b & rest & ->).
    simpl. eauto.
  - intros date r. unfold DateText.normalizeDate at 1.
    destruct (includes date "-" && _) eqn:E1.
    { intros [= <-]. unfold DateText.normalizeDate. now rewrite E1. }
    destruct (includes date "/") eqn:E2.
    2: { intros [= <-]. unfold DateText.normalizeDate. now rewrite E1, E2. }
    pose proof (splitOn_parts "/" date) as Hparts.
    destruct (splitOn_slash_two date E2) as (a & b & rest & Hs).
    rewrite Hs in *. cbn [nth_error].
    intros [= <-].
    match goal with
    | |- DateText.normalizeDate ?r = _ =>
        assert (Hno : includes r "/" = false)
    end.
    { apply includes_char_false.
      inversion Hparts as [|? ? Ha Hrest]; subst.
      inversion Hrest as [|? ? Hb Hrest']; subst.
      rewrite !allChars_app.
      rewrite (padStart2_no_slash _ Ha), (padStart2_no_slash _ Hb).
      pose proof (nth_error_no_slash rest 0 Hrest') as H0.
      cbn [nth_error] in H0. rewrite H0. reflexivity. }
    unfold DateText.normalizeDate. rewrite Hno.
    match goal with
    | |- (if ?b then _ else _) = _ => destruct b
    end; reflexivity.
  - intros d m y Hd Hm Hy. unfold DateText.normalizeDate.
    assert (Hdash : includes (d +:+ "/" +:+ m +:+ "/" +:+ y) "-" = false).
    { apply includes_char_false. rewrite !allChars_app.
      now rewrite (isDatePart_no_dash d Hd), (isDatePart_no_dash m Hm),
        (isDatePart_no_dash y Hy). }
    rewrite Hdash. simpl.
    rewrite (includes_app d "/" (m +:+ "/" +:+ y)).
    now rewrite (splitOn_slash_date d m y Hy Hm Hd).
Qed.

Lemma normalizeDate_settles_witness :
  DateText.normalizeDate "5/2/2026" = Some "2026-02-05" /\
  DateText.normalizeDate "2026-02-05" = Some "2026-02-05".
Proof.
  pose proof (proj2 (proj2 normalizeDate_settles) "5" "2" "2026"
                eq_refl eq_refl eq_refl) as H.
  split; [exact H|].
  exact (proj1 (proj2 normalizeDate_settles) "5/2/2026" "2026-02-05" H).
Defined.

(** X3.  For a date of three parts, with dashes (year first) or with
    slashes (day first), whose month reads as a number from 1 to 12, the
    sheet is named by that month's name and the year, and the history
    file by the same name in lower case and the same year; the variable
    [EXCEL_ABA], when set, names the sheet whatever the date; and a date
    with neither a dash nor a slash gives the sheet ["Testes"]. *)
Theorem sheet_and_history_name_the_month :
  (forall y m d n,
     isDatePart y = true -> isDatePart m = true -> isDatePart d = true ->
     DateText.parseInt (Some m) = Some n -> 1 <= n <= 12 ->
     let name := nth (Z.to_nat (n - 1)) DateText.MONTH_NAMES_PT EmptyString in
     DateText.resolveSheetName None (y +:+ "-" +:+ m +:+ "-" +:+ d)
     = name +:+ " " +:+ y /\
     DateText.resolveSheetName None (d +:+ "/" +:+ m +:+ "/" +:+ y)
     = name +:+ " " +:+ y /\
     DateText.resolveHistoryFilename (y +:+ "-" +:+ m +:+ "-" +:+ d)
     = "historico-" +:+ toLowerCase name +:+ "-" +:+ y +:+ ".json" /\
     DateText.resolveHistoryFilename (d +:+ "/" +:+ m +:+ "/" +:+ y)
     = "historico-" +:+ toLowerCase name +:+ "-" +:+ y +:+ ".json") /\
  (forall c r date,
     DateText.resolveSheetName (Some (String c r)) date = String c r) /\
  (forall date,
     includes date "-" = false -> includes date "/" = false ->
     DateText.resolveSheetName None date = "Testes" /\
     DateText.resolveHistoryFilename date = "historico-desconhecido.json").
Proof.
  split; [|split].
  - intros y m d n Hy Hm Hd Hn Hrange name.
    assert (Hiso : DateText.monthAndYear (y +:+ "-" +:+ m +:+ "-" +:+ d)
                   = Some (Some m, Some y)).
    { unfold DateText.monthAndYear.
      rewrite (includes_app y "-" (m +:+ "-" +:+ d)).
      now rewrite (splitOn_dash_date y m d Hy Hm Hd). }
    assert (Hfee : DateText.monthAndYear (d +:+ "/" +:+ m +:+ "/" +:+ y)
                   = Some (Some m, Some y)).
    { unfold DateText.monthAndYear.
      assert (Hdash : includes (d +:+ "/" +:+ m +:+ "/" +:+ y) "-" = false).
      { apply includes_char_false. rewrite !allChars_app.
        now rewrite (isDatePart_no_dash d Hd), (isDatePart_no_dash m Hm),
          (isDatePart_no_dash y Hy). }
      rewrite Hdash, (includes_app d "/" (m +:+ "/" +:+ y)).
      now rewrite (splitOn_slash_date d m y Hy Hm Hd). }
    assert (Hname : exists c r,
               DateText.monthNameOf (Some m) = Some (String c r) /\
               name = String c r).
    { unfold DateText.monthNameOf. rewrite Hn. subst name.
      assert (Hcases : n = 1 \/ n = 2 \/ n = 3 \/ n = 4 \/ n = 5 \/ n = 6 \/
                       n = 7 \/ n = 8 \/ n = 9 \/ n = 10 \/ n = 11 \/ n = 12)
        by lia.
      repeat (destruct Hcases as [->|Hcases];
              [eexists _, _; split; reflexivity|]).
      subst n. eexists _, _; split; reflexivity. }
    destruct Hname as (c & r & Hmonth & ->).
    unfold DateText.resolveSheetName, DateText.resolveHistoryFilename.
    rewrite Hiso, Hfee, Hmonth. repeat split.
  - reflexivity.
  - intros date H1 H2.
    unfold DateText.resolveSheetName, DateText.resolveHistoryFilename,
      DateText.monthAndYear.
    now rewrite H1, H2.
Qed.

Lemma sheet_and_history_name_the_month_witness :
  DateText.resolveSheetName None "2026-03-05"
  = "MAR" +:+ chr 199 +:+ "O 2026" /\
  DateText.resolveHistoryFilename "05/03/2026"
  = "historico-mar" +:+ chr 231 +:+ "o-2026.json".
Proof.
  destruct (proj1 sheet_and_history_name_the_month "2026" "03" "05" 3
              eq_refl eq_refl eq_refl eq_refl ltac:(lia))
    as (H1 & _ & _ & H4).
  split; [exact H1 | exact H4].
Defined.

(** ** Payment columns *)

Section PaymentFacts.

Import Payment.

Lemma append_assoc' (a b c : string) : (a +:+ b) +:+ c = a +:+ (b +:+ c).
Proof.
  induction a as [|x a IH]; [reflexivity|].
  rewrite !append_cons. now rewrite IH.
Qed.

Lemma includes_safra_pay s :
  includes s "safra pay" = true -> includes s "safra" = true.
Proof.
  intros H. destruct (includes_inv _ _ H) as (a & b & ->).
  change "safra pay" with ("safra" +:+ " pay").
  rewrite append_assoc'. apply includes_app.
Qed.

Lemma PAYMENT_MAPPING_columns f column :
  PAYMENT_MAPPING f = Some column ->
  In column [ COLUMNS.DINHEIRO; COLUMNS.CHEQUE; COLUMNS.PIX; COLUMNS.BOLETO;
              COLUMNS.INFINITE ].
Proof.
  unfold PAYMENT_MAPPING.
  destruct f as [[|p|p]|]; try discriminate.
  repeat (match goal with
          | |- context [match ?q with _ => _ end] => destruct q
          end; try discriminate);
    intros [= <-]; simpl; tauto.
Qed.

(** The account name or the cash method decides: sheet and history
    agree. *)
Lemma paymentColumn_decided f a :
  accountDecides a = true \/ f = Some 1 ->
  identifyPaymentColumn f a = Some (fst (historyPaymentColumn f a)).
Proof.
  intros H.
  unfold identifyPaymentColumn, historyPaymentColumn, accountDecides in *.
  assert (H1 : f = Some 1 -> isMethod 1 f = true) by now intros ->.
  destruct (includes (accountOf a) "caixa"); [reflexivity|].
  destruct (isMethod 1 f) eqn:E1; [reflexivity|]. simpl.
  destruct (includes (accountOf a) "sicoob"); [reflexivity|].
  destruct (includes (accountOf a) "safra pay"); [reflexivity|].
  destruct (includes (accountOf a) "safra"); simpl.
  { now destruct (isMethod 4 f). }
  destruct (includes (accountOf a) "infinte"); [reflexivity|].
  destruct (includes (accountOf a) "infinite"); [reflexivity|].
  destruct (includes (accountOf a) "cora"); [reflexivity|].
  simpl in H. destruct H as [H|H]; [discriminate|].
  specialize (H1 H). discriminate.
Qed.

(** Neither decides: the history says PIX, the sheet asks the table. *)
Lemma paymentColumn_undecided f a :
  accountDecides a = false -> f <> Some 1 ->
  historyPaymentColumn f a = (COLUMNS.PIX, "PIX") /\
  identifyPaymentColumn f a = PAYMENT_MAPPING f.
Proof.
  intros H Hf.
  unfold identifyPaymentColumn, historyPaymentColumn, accountDecides in *.
  pose proof (includes_safra_pay (accountOf a)) as Hpay.
  assert (E1 : isMethod 1 f = false).
  { destruct f as [z|]; [|reflexivity]. simpl.
    destruct (Z.eqb_spec z 1); [congruence|reflexivity]. }
  rewrite E1.
  destruct (includes (accountOf a) "caixa"); [discriminate|].
  destruct (includes (accountOf a) "sicoob"); [discriminate|].
  destruct (includes (accountOf a) "safra"); [discriminate|].
  destruct (includes (accountOf a) "safra pay");
    [specialize (Hpay eq_refl); discriminate|].
  destruct (includes (accountOf a) "infinte"); [discriminate|].
  destruct (includes (accountOf a) "infinite"); [discriminate|].
  destruct (includes (accountOf a) "cora"); [discriminate|].
  split; reflexivity.
Qed.

Lemma historyPaymentColumn_letters f a :
  In (fst (historyPaymentColumn f a))
     [ COLUMNS.DINHEIRO; COLUMNS.SICOOB; COLUMNS.SAFRA; COLUMNS.PIX_SAFRA;
       COLUMNS.INFINITE; COLUMNS.PIX; COLUMNS.CHEQUE; COLUMNS.BOLETO ].
Proof.
  unfold historyPaymentColumn.
  repeat match goal with
         | |- context [if ?b then _ else _] => destruct b
         end; simpl; tauto.
Qed.

End PaymentFacts.

(** X4.  The column the history records for a payment is the column the
    sheet uses whenever the account name holds one of the known words or
    the method is cash; otherwise the history always says PIX while the
    sheet goes by the payment method, so the two differ for every method
    the table sends elsewhere (a card payment, method 8, is INFINITE on
    the sheet and PIX in the history). *)
Theorem history_payment_column_agrees_on_accounts :
  (forall f a,
     Payment.accountDecides a = true \/ f = Some 1 ->
     Payment.identifyPaymentColumn f a
     = Some (fst (Payment.historyPaymentColumn f a))) /\
  (forall f a,
     Payment.accountDecides a = false -> f <> Some 1 ->
     Payment.historyPaymentColumn f a = (COLUMNS.PIX, "PIX") /\
     Payment.identifyPaymentColumn f a = Payment.PAYMENT_MAPPING f) /\
  (forall f a,
     COLUMNS.get (snd (Payment.historyPaymentColumn f a))
     = Some (fst (Payment.historyPaymentColumn f a))) /\
  Payment.identifyPaymentColumn (Some 8) None = Some COLUMNS.INFINITE /\
  Payment.identifyPaymentColumnName (Some 8) None = "V (PIX)".
Proof.
  split; [|split; [|split; [|split; reflexivity]]].
  - apply paymentColumn_decided.
  - apply paymentColumn_undecided.
  - intros f a. unfold Payment.historyPaymentColumn.
    repeat match goal with
           | |- context [if ?b then _ else _] => destruct b
           end; reflexivity.
Qed.

Lemma history_payment_column_agrees_on_accounts_witness :
  Payment.identifyPaymentColumn (Some 8) (Some "Safra Pay - Maquininha")
  = Some COLUMNS.SAFRA /\
  Payment.historyPaymentColumn (Some 8) (Some "Safra Pay - Maquininha")
  = (COLUMNS.SAFRA, "SAFRA").
Proof.
  pose proof (proj1 history_payment_column_agrees_on_accounts (Some 8)
                (Some "Safra Pay - Maquininha") (or_introl eq_refl)) as H.
  split; [exact H | reflexivity].
Defined.

(** X5.  A payment gets no column on the sheet exactly when its account
    name holds none of the known words and its method is not in the
    payment table; in every other case the column is one of the eight
    payment columns. *)
Theorem payment_without_column :
  forall f a,
    (Payment.identifyPaymentColumn f a = None <->
     Payment.accountDecides a = false /\ Payment.PAYMENT_MAPPING f = None) /\
    (forall column,
       Payment.identifyPaymentColumn f a = Some column ->
       In column [ COLUMNS.DINHEIRO; COLUMNS.SICOOB; COLUMNS.SAFRA;
                   COLUMNS.PIX_SAFRA; COLUMNS.INFINITE; COLUMNS.PIX;
                   COLUMNS.CHEQUE; COLUMNS.BOLETO ]).
Proof.
  intros f a.
  destruct (Payment.accountDecides a) eqn:D.
  - pose proof (paymentColumn_decided f a (or_introl D)) as H.
    rewrite H. split.
    + split; [discriminate | intros [? _]; discriminate].
    + intros column [= <-]. apply historyPaymentColumn_letters.
  - destruct (decide (f = Some 1)) as [->|Hf].
    + rewrite (paymentColumn_decided (Some 1) a) by now right.
      split.
      * split; [discriminate | intros [_ ?]; discriminate].
      * intros column [= <-]. apply historyPaymentColumn_letters.
    + destruct (paymentColumn_undecided f a D Hf) as [_ ->]. split.
      * tauto.
      * intros column Hc. apply PAYMENT_MAPPING_columns in Hc.
        simpl in *. tauto.
Qed.

(** ** Grouping *)

Section GroupingFacts.

Import Grouping.

Lemma addToGroups_keys mov groups :
  List.map groupKey (addToGroups mov groups)
  = if bool_decide (keyOf mov ∈ List.map groupKey groups)
    then List.map groupKey groups
    else (List.map groupKey groups ++ [keyOf mov])%list.
Proof.
  induction groups as [|g groups IH]; cbn [addToGroups List.map].
  - rewrite bool_decide_eq_false_2 by apply not_elem_of_nil. reflexivity.
  - destruct (decide (groupKey g = keyOf mov)) as [E|E].
    + rewrite (bool_decide_eq_true_2 _ E). cbn [List.map].
      rewrite bool_decide_eq_true_2 by (rewrite <- E; apply list_elem_of_here).
      reflexivity.
    + rewrite (bool_decide_eq_false_2 _ E). cbn [List.map]. rewrite IH.
      destruct (decide (keyOf mov ∈ List.map groupKey groups)) as [I|I].
      * rewrite (bool_decide_eq_true_2 _ I).
        rewrite bool_decide_eq_true_2 by now apply list_elem_of_further.
        reflexivity.
      * rewrite (bool_decide_eq_false_2 _ I).
        rewrite bool_decide_eq_false_2; [reflexivity|].
        intros H. apply elem_of_cons in H as [H|H]; congruence.
Qed.

Lemma addToGroups_firsts mov groups :
  List.map Group.firstTransaction (addToGroups mov groups)
  = if bool_decide (keyOf mov ∈ List.map groupKey groups)
    then List.map Group.firstTransaction groups
    else (List.map Group.firstTransaction groups ++ [mov])%list.
Proof.
  induction groups as [|g groups IH]; cbn [addToGroups List.map].
  - rewrite bool_decide_eq_false_2 by apply not_elem_of_nil. reflexivity.
  - destruct (decide (groupKey g = keyOf mov)) as [E|E].
    + rewrite (bool_decide_eq_true_2 _ E). cbn [List.map].
      rewrite bool_decide_eq_true_2 by (rewrite <- E; apply list_elem_of_here).
      reflexivity.
    + rewrite (bool_decide_eq_false_2 _ E). cbn [List.map]. rewrite IH.
      destruct (decide (keyOf mov ∈ List.map groupKey groups)) as [I|I].
      * rewrite (bool_decide_eq_true_2 _ I).
        rewrite bool_decide_eq_true_2 by now apply list_elem_of_further.
        reflexivity.
      * rewrite (bool_decide_eq_false_2 _ I).
        rewrite bool_decide_eq_false_2; [reflexivity|].
        intros H. apply elem_of_cons in H as [H|H]; congruence.
Qed.

(** Where a group of the new list comes from. *)
Lemma addToGroups_In mov groups g' :
  NoDup (List.map groupKey groups) ->
  In g' (addToGroups mov groups) ->
  (In g' groups /\ groupKey g' <> keyOf mov) \/
  (exists g, In g groups /\ groupKey g = keyOf mov /\ g' = pushInto g mov) \/
  (g' = newGroup mov /\ ~ In (keyOf mov) (List.map groupKey groups)).
Proof.
  induction groups as [|g groups IH]; simpl; intros Hnd Hin.
  - destruct Hin as [<-|[]]. right. right. tauto.
  - inversion Hnd as [|? ? Hfresh Hnd']; subst.
    destruct (decide (groupKey g = keyOf mov)) as [E|E].
    + rewrite (bool_decide_eq_true_2 _ E) in Hin.
      destruct Hin as [<-|Hin].
      * right. left. exists g. tauto.
      * left. split; [now right|]. intros Heq. apply Hfresh.
        rewrite E, <- Heq. apply list_elem_of_In. now apply in_map.
    + rewrite (bool_decide_eq_false_2 _ E) in Hin.
      destruct Hin as [<-|Hin]; [left; tauto|].
      destruct (IH Hnd' Hin) as [[H1 H2] | [(g0 & H1 & H2 & H3) | [H1 H2]]].
      * left. tauto.
      * right. left. exists g0. tauto.
      * right. right. split; [exact H1|]. intros [H|H]; [congruence|tauto].
Qed.

Lemma filter_snoc {A : Type} (f : A -> bool) l x :
  List.filter f (l ++ [x])
  = (List.filter f l ++ if f x then [x] else [])%list.
Proof. rewrite List.filter_app. reflexivity. Qed.

Lemma Grouped_step seen groups mov :
  Grouped seen groups -> Grouped (seen ++ [mov]) (addToGroups mov groups).
Proof.
  intros (Hnd & Hgroups & Hseen & Hsub).
  split; [|split; [|split]].
  - rewrite addToGroups_keys.
    destruct (decide (keyOf mov ∈ List.map groupKey groups)) as [I|I].
    + now rewrite (bool_decide_eq_true_2 _ I).
    + rewrite (bool_decide_eq_false_2 _ I).
      apply NoDup_app. split; [exact Hnd|]. split.
      * intros k Hk Hk'.
        apply list_elem_of_singleton in Hk'. subst k. tauto.
      * apply NoDup_singleton.
  - intros g' Hin.
    destruct (addToGroups_In mov groups g' Hnd Hin)
      as [[H1 H2] | [(g & H1 & H2 & ->) | [-> H2]]].
    + destruct (Hgroups g' H1) as (Ht & Hi & Hp).
      split; [|tauto]. rewrite filter_snoc, <- Ht. unfold sameKey.
      rewrite bool_decide_eq_false_2 by congruence.
      now rewrite app_nil_r.
    + destruct (Hgroups g H1) as (Ht & Hi & Hp).
      assert (Hk : groupKey (pushInto g mov) = groupKey g) by reflexivity.
      assert (Hx : transactionsOf (pushInto g mov)
                   = (transactionsOf g ++ [mov])%list) by reflexivity.
      rewrite Hk, Hx. split; [|split].
      * rewrite filter_snoc, <- Ht. unfold sameKey.
        now rewrite bool_decide_eq_true_2 by congruence.
      * simpl Group.detailedItems. rewrite Hi.
        rewrite List.map_app, List.concat_app. simpl.
        now rewrite app_nil_r.
      * exact Hp.
    + split; [|split; [|reflexivity]].
      * change (transactionsOf (newGroup mov)) with [mov].
        change (groupKey (newGroup mov)) with (keyOf mov).
        rewrite filter_snoc. unfold sameKey at 2.
        rewrite bool_decide_eq_true_2 by reflexivity.
        replace (List.filter (sameKey (keyOf mov)) seen) with (@nil Enriched.t);
          [reflexivity|].
        symmetry. clear - Hseen H2.
        induction seen as [|t seen IH]; [reflexivity|]. simpl.
        unfold sameKey at 1.
        destruct (decide (keyOf t = keyOf mov)) as [E|E].
        -- exfalso. apply H2. rewrite <- E. apply Hseen. now left.
        -- rewrite (bool_decide_eq_false_2 _ E). apply IH.
           intros m Hm. apply Hseen. now right.
      * simpl. now rewrite app_nil_r.
  - intros t Ht. rewrite addToGroups_keys.
    apply in_app_or in Ht as [Ht|[<-|[]]].
    + specialize (Hseen t Ht).
      destruct (bool_decide _); [exact Hseen|]. apply in_or_app. now left.
    + destruct (decide (keyOf mov ∈ List.map groupKey groups)) as [I|I].
      * rewrite (bool_decide_eq_true_2 _ I). now apply list_elem_of_In.
      * rewrite (bool_decide_eq_false_2 _ I). apply in_or_app. right. now left.
  - rewrite addToGroups_firsts.
    destruct (bool_decide _).
    + now apply sublist_inserts_r.
    + now apply sublist_app.
Qed.

Lemma Grouped_loop rest :
  forall seen groups,
    Grouped seen groups ->
    Grouped (seen ++ rest)
      (List.fold_left (fun groups mov => addToGroups mov groups) rest groups).
Proof.
  induction rest as [|mov rest IH]; intros seen groups H; simpl.
  - now rewrite app_nil_r.
  - replace (seen ++ mov :: rest)%list with ((seen ++ [mov]) ++ rest)%list
      by now rewrite <- app_assoc.
    apply IH. now apply Grouped_step.
Qed.

End GroupingFacts.

(** X6.  [groupTransactions] makes one group for each pair of patient and
    date: no two groups share the pair, every transaction's pair has a
    group, a group holds exactly the transactions of its pair in their
    order of arrival and the items of those transactions in that order,
    and the groups follow each other as their first transactions do. *)
Theorem groupTransactions_partitions (transactions : list Enriched.t) :
  NoDup (List.map Grouping.groupKey (Grouping.groupTransactions transactions))
  /\
  (forall g,
     In g (Grouping.groupTransactions transactions) ->
     Grouping.transactionsOf g
     = List.filter (fun mov => bool_decide (Grouping.keyOf mov
                                            = Grouping.groupKey g))
                   transactions /\
     Group.detailedItems g
     = List.concat (List.map Enriched.detailedItems
                      (Grouping.transactionsOf g))) /\
  (forall mov,
     In mov transactions ->
     exists g, In g (Grouping.groupTransactions transactions) /\
               Grouping.groupKey g = Grouping.keyOf mov) /\
  sublist (List.map Group.firstTransaction
             (Grouping.groupTransactions transactions))
          transactions.
Proof.
  assert (H0 : Grouped [] []).
  { split; [constructor|]. split; [intros g []|].
    split; [intros m []|constructor]. }
  pose proof (Grouped_loop transactions [] [] H0) as (Hnd & Hg & Hs & Hsub).
  simpl in *. fold (Grouping.groupTransactions transactions) in *.
  split; [exact Hnd|]. split; [|split; [|exact Hsub]].
  - intros g Hin. destruct (Hg g Hin) as (Ht & Hi & _). split; assumption.
  - intros mov Hin. specialize (Hs mov Hin).
    apply in_map_iff in Hs as (g & Hk & Hg'). now exists g.
Qed.

(** ** More on the splitter *)

Section SplitterMore.

Lemma isComma_eq c : isComma c = true -> c = ","%char.
Proof. by_code c. Qed.

Lemma concat_consFirst sep c pieces :
  pieces <> [] ->
  String.concat sep (consFirst c pieces)
  = String c (String.concat sep pieces).
Proof.
  destruct pieces as [|h [|h' t]]; [congruence| |]; intros _; reflexivity.
Qed.

Lemma trimEnd_idempotent s : trimEnd (trimEnd s) = trimEnd s.
Proof.
  induction s as [|c s IH]; [reflexivity|]. simpl.
  destruct (isWhiteSpace c && isEmpty (trimEnd s)) eqn:E; [reflexivity|].
  simpl. now rewrite IH, E.
Qed.

Lemma trimStart_first s :
  match trimStart s with
  | EmptyString => True
  | String c _ => isWhiteSpace c = false
  end.
Proof.
  induction s as [|c s IH]; simpl; [exact I|].
  destruct (isWhiteSpace c) eqn:E; [exact IH | exact E].
Qed.

Lemma trimStart_trim s : trimStart (trim s) = trim s.
Proof.
  unfold trim. pose proof (trimStart_first s) as H.
  destruct (trimStart s) as [|c r]; [reflexivity|].
  simpl. rewrite H. simpl. now rewrite H.
Qed.

Lemma trim_idempotent s : trim (trim s) = trim s.
Proof.
  unfold trim at 1. rewrite trimStart_trim. unfold trim.
  apply trimEnd_idempotent.
Qed.

End SplitterMore.

(** X7.  The split loses nothing: its pieces joined with commas are the
    name again. *)
Theorem split_then_join (s : string) : String.concat "," (split s) = s.
Proof.
  induction s as [|c s IH]; [reflexivity|]. simpl.
  pose proof (split_nonempty s) as Hne.
  destruct (isComma c && commaSplits s) eqn:E.
  - apply andb_true_iff in E as [Hc _]. apply isComma_eq in Hc as ->.
    destruct (split s) as [|h t]; [congruence|].
    change (String.concat "," (EmptyString :: h :: t))
      with (String "," (String.concat "," (h :: t))).
    now rewrite IH.
  - rewrite (concat_consFirst _ _ _ Hne). now rewrite IH.
Qed.

(** X8.  Every token of the report's procedure names is non-empty and
    has no white space at either end; an absent or empty name has no
    token. *)
Theorem report_names_are_trimmed :
  (forall name token,
     In token (reportNames name) ->
     token <> EmptyString /\ trim token = token) /\
  reportNames None = [] /\ reportNames (Some EmptyString) = [].
Proof.
  split; [|split; reflexivity].
  intros [[|c r]|] token; simpl; try tauto.
  unfold splitNames. intros H.
  apply filter_In in H as [H Hne].
  apply in_map_iff in H as (piece & <- & _).
  split; [|apply trim_idempotent].
  intros Heq. rewrite Heq in Hne. discriminate.
Qed.

(** ** More on the matcher *)

Section MatcherMore.

Variable transaction : Transaction.t.

(** The head of the sorted candidates is the earliest of the nearest. *)
Lemma sort_head_first (l : list Proposal.t) :
  match head (sort (byDistance transaction) l) with
  | None => l = []
  | Some m =>
      exists pre post,
        l = (pre ++ m :: post)%list /\
        (forall c, In c pre ->
                   (distance transaction m < distance transaction c)%Q) /\
        (forall c, In c post ->
                   (distance transaction m <= distance transaction c)%Q)
  end.
Proof.
  induction l as [|x l IH]; simpl; [reflexivity|].
  destruct (sort (byDistance transaction) l) as [|m s]; simpl in *.
  - subst l. exists [], []. split; [reflexivity|]. split; intros c [].
  - destruct IH as (pre & post & -> & Hpre & Hpost).
    destruct (Qle_bool (byDistance transaction x m) 0) eqn:E; simpl.
    + apply byDistance_le in E. exists [], (pre ++ m :: post)%list.
      split; [reflexivity|]. split; [intros c []|].
      intros c Hc. apply in_app_or in Hc as [Hc|[<-|Hc]].
      * specialize (Hpre c Hc). lra.
      * exact E.
      * specialize (Hpost c Hc). lra.
    + assert (Hlt : (distance transaction m < distance transaction x)%Q).
      { apply Qnot_le_lt. intros Hle. apply byDistance_le in Hle. congruence. }
      exists (x :: pre), post. split; [reflexivity|]. split; [|exact Hpost].
      intros c [<-|Hc]; [exact Hlt | now apply Hpre].
Qed.

Lemma matchSingle_first procedimentoID proposals m :
  matchSingle transaction procedimentoID proposals = Some m ->
  exists pre post,
    candidatesFor procedimentoID proposals = (pre ++ m :: post)%list /\
    (forall c, In c pre ->
               (distance transaction m < distance transaction c)%Q) /\
    (forall c, In c post ->
               (distance transaction m <= distance transaction c)%Q).
Proof.
  unfold matchSingle.
  destruct (candidatesFor procedimentoID proposals) as [|c1 [|c2 r]] eqn:E.
  - discriminate.
  - intros [= <-]. exists [], []. split; [reflexivity|]. split; intros c [].
  - intros H. pose proof (sort_head_first (c1 :: c2 :: r)) as Hs.
    rewrite H in Hs. exact Hs.
Qed.

Lemma findMatchingProposal_single api procedimentoID proposals :
  isMultiProcedure transaction = false ->
  Transaction.ProcedimentoID transaction = Some procedimentoID ->
  procedimentoID <> 0 ->
  findMatchingProposal api transaction proposals
  = matchSingle transaction procedimentoID proposals.
Proof.
  intros Hmulti Hpid Hne.
  unfold findMatchingProposal. rewrite Hmulti, Hpid. unfold truthyId.
  destruct (Z.eqb_spec procedimentoID 0) as [->|_]; [congruence|]. simpl.
  destruct proposals; reflexivity.
Qed.

Lemma findMatchingProposal_multi api proposals :
  isMultiProcedure transaction = true ->
  findMatchingProposal api transaction proposals
  = match Transaction.NumeroInvoice transaction with
    | Some invoice =>
        if truthyId (Some invoice) then
          matchMulti
            (Api.invoiceItems api invoice (Transaction.Data transaction))
            proposals
        else None
    | None => None
    end.
Proof.
  intros Hmulti. unfold findMatchingProposal. rewrite Hmulti.
  cbn [negb andb].
  destruct proposals as [|p0 ps].
  - destruct (Transaction.NumeroInvoice transaction) as [inv|];
      [|reflexivity].
    destruct (truthyId (Some inv)); [|reflexivity]. unfold matchMulti.
    now destruct (Api.invoiceItems _ _ _).
  - destruct (Transaction.NumeroInvoice transaction) as [inv|];
      [|reflexivity].
    now destruct (truthyId (Some inv)).
Qed.

End MatcherMore.

Section OverlapMore.

Variable invoiceProcIds : gset Z.

(** The loop keeps the earliest of the proposals that share most. *)
Lemma bestLoop_first rest :
  forall seen best,
    match fst best with
    | None =>
        snd best = 0%nat /\
        forall q, In q seen -> matchCount invoiceProcIds q = 0%nat
    | Some p =>
        exists pre post,
          seen = (pre ++ p :: post)%list /\
          matchCount invoiceProcIds p = snd best /\
          (forall q, In q pre ->
                     (matchCount invoiceProcIds q < snd best)%nat) /\
          (forall q, In q post ->
                     (matchCount invoiceProcIds q <= snd best)%nat)
    end ->
    match List.fold_left (bestStep invoiceProcIds) rest best with
    | (None, _) =>
        forall q, In q (seen ++ rest) -> matchCount invoiceProcIds q = 0%nat
    | (Some p, n) =>
        exists pre post,
          (seen ++ rest)%list = (pre ++ p :: post)%list /\
          matchCount invoiceProcIds p = n /\
          (forall q, In q pre -> (matchCount invoiceProcIds q < n)%nat) /\
          (forall q, In q post -> (matchCount invoiceProcIds q <= n)%nat)
    end.
Proof.
  induction rest as [|x rest IH]; intros seen [b n] H; simpl in *.
  - rewrite app_nil_r. destruct b as [p|]; [exact H | tauto].
  - replace (seen ++ x :: rest)%list with ((seen ++ [x]) ++ rest)%list
      by now rewrite <- app_assoc.
    apply IH. unfold bestStep. simpl.
    destruct (Nat.ltb_spec n (matchCount invoiceProcIds x)) as [Hlt|Hge];
      simpl.
    + exists seen, []. split; [reflexivity|]. split; [reflexivity|].
      split; [|intros q []].
      intros q Hq. destruct b as [p|].
      * destruct H as (pre & post & -> & Hp & Hpre & Hpost).
        apply in_app_or in Hq as [Hq|[<-|Hq]].
        -- specialize (Hpre q Hq). lia.
        -- lia.
        -- specialize (Hpost q Hq). lia.
      * destruct H as [-> H0]. rewrite (H0 q Hq). lia.
    + destruct b as [p|].
      * destruct H as (pre & post & -> & Hp & Hpre & Hpost).
        exists pre, (post ++ [x])%list.
        split; [now rewrite <- app_assoc|]. split; [exact Hp|].
        split; [exact Hpre|].
        intros q Hq. apply in_app_or in Hq as [Hq|[<-|[]]];
          [now apply Hpost | exact Hge].
      * destruct H as [-> H0]. split; [reflexivity|].
        intros q Hq. apply in_app_or in Hq as [Hq|[<-|[]]];
          [now apply H0 | lia].
Qed.

End OverlapMore.

(** Sorting with two comparators that agree in sign on the elements. *)
Lemma insertSorted_ext {A : Type} (f g : A -> A -> Q) x (l : list A) :
  (forall y, In y l -> Qle_bool (f x y) 0 = Qle_bool (g x y) 0) ->
  insertSorted f x l = insertSorted g x l.
Proof.
  induction l as [|y l IH]; intros H; [reflexivity|].
  cbn [insertSorted]. rewrite (H y) by now left.
  rewrite IH by (intros z Hz; apply H; now right). reflexivity.
Qed.

Lemma insertSorted_In {A : Type} (f : A -> A -> Q) x (l : list A) z :
  In z (insertSorted f x l) -> z = x \/ In z l.
Proof.
  induction l as [|y l IH]; cbn [insertSorted].
  - intros [<-|[]]. now left.
  - destruct (Qle_bool (f x y) 0).
    + intros [<-|H]; [now left | now right].
    + intros [<-|H]; [right; now left|].
      destruct (IH H) as [->|Hz]; [now left | right; now right].
Qed.

Lemma sort_In {A : Type} (f : A -> A -> Q) (l : list A) z :
  In z (sort f l) -> In z l.
Proof.
  revert z. induction l as [|x l IH]; intros z; [intros []|].
  unfold sort. cbn [fold_right]. fold (sort f l). intros H.
  destruct (insertSorted_In f x (sort f l) z H) as [->|Hz];
    [now left | right; now apply IH].
Qed.

Lemma sort_ext {A : Type} (f g : A -> A -> Q) (l : list A) :
  (forall a b, In a l -> In b l ->
               Qle_bool (f a b) 0 = Qle_bool (g a b) 0) ->
  sort f l = sort g l.
Proof.
  induction l as [|x l IH]; intros H; [reflexivity|].
  unfold sort. cbn [fold_right]. fold (sort f l). fold (sort g l).
  rewrite <- IH by (intros a b Ha Hb; apply H; now right).
  apply insertSorted_ext. intros y Hy. apply H; [now left|].
  right. now apply (sort_In f).
Qed.

(** On whole amounts every subtraction of the comparator is exact. *)
Lemma byDistanceWith_whole fl transaction a b :
  ExactOnWhole fl ->
  isWholeAmount (Transaction.Value transaction) ->
  isWholeAmount (Proposal.value a) ->
  isWholeAmount (Proposal.value b) ->
  (byDistanceWith fl transaction a b == byDistance transaction a b)%Q.
Proof.
  intros Hfl (v & Hv & Bv) (x & Hx & Bx) (y & Hy & By).
  assert (Hdist : forall p n,
            (Proposal.value p == inject_Z n)%Q ->
            Z.abs n <= 4503599627370496 ->
            (distanceWith fl transaction p == inject_Z (Z.abs (n - v)))%Q /\
            (distance transaction p == inject_Z (Z.abs (n - v)))%Q).
  { intros p n Hn Bn.
    assert (Hsub : (Proposal.value p - Transaction.Value transaction
                    == inject_Z (n - v))%Q).
    { rewrite Hn, Hv. unfold Qminus.
      rewrite <- inject_Z_opp, <- inject_Z_plus. reflexivity. }
    unfold distanceWith, distance. split.
    - rewrite (Hfl _ (n - v) Hsub) by lia. reflexivity.
    - rewrite Hsub. reflexivity. }
  destruct (Hdist a x Hx Bx) as [Hwa Ha].
  destruct (Hdist b y Hy By) as [Hwb Hb].
  unfold byDistanceWith, byDistance.
  assert (Hsub : (distanceWith fl transaction a - distanceWith fl transaction b
                  == inject_Z (Z.abs (x - v) - Z.abs (y - v)))%Q).
  { rewrite Hwa, Hwb. unfold Qminus.
    rewrite <- inject_Z_opp, <- inject_Z_plus. reflexivity. }
  rewrite (Hfl _ _ Hsub) by lia.
  rewrite Ha, Hb. unfold Qminus.
  rewrite <- inject_Z_opp, <- inject_Z_plus. reflexivity.
Qed.

Lemma matchSingleWith_whole fl transaction procedimentoID proposals :
  ExactOnWhole fl ->
  isWholeAmount (Transaction.Value transaction) ->
  Forall (fun p => isWholeAmount (Proposal.value p)) proposals ->
  matchSingleWith fl transaction procedimentoID proposals
  = matchSingle transaction procedimentoID proposals.
Proof.
  intros Hfl Hvalue Hvalues. unfold matchSingleWith, matchSingle.
  assert (Hin : forall c,
            In c (candidatesFor procedimentoID proposals) ->
            isWholeAmount (Proposal.value c)).
  { intros c Hc. unfold candidatesFor in Hc. apply filter_In in Hc as [Hc _].
    rewrite Forall_forall in Hvalues. apply Hvalues.
    now apply list_elem_of_In. }
  destruct (candidatesFor procedimentoID proposals) as [|c1 [|c2 r]];
    [reflexivity | reflexivity |].
  f_equal. apply sort_ext. intros a b Ha Hb.
  now rewrite (byDistanceWith_whole fl transaction a b Hfl Hvalue
                 (Hin a Ha) (Hin b Hb)).
Qed.

(** X9.  When the amounts are whole numbers and several proposals hold
    the procedure of a single-procedure transaction, the one returned
    comes before every other candidate that is as near to the
    transaction's value: each earlier candidate is strictly farther, each
    later one is not nearer.  On such amounts the single-procedure case
    computed with rounded subtractions, as the code computes it in
    doubles, returns that same proposal, whatever rounding leaves the
    whole numbers up to 2^53 as they are. *)
Theorem single_procedure_tie_goes_to_first_offered
    (fl : Q -> Q) (api : Api.t) (transaction : Transaction.t)
    (procedimentoID : Z) (proposals : list Proposal.t) (m : Proposal.t) :
  ExactOnWhole fl ->
  isWholeAmount (Transaction.Value transaction) ->
  Forall (fun p => isWholeAmount (Proposal.value p)) proposals ->
  isMultiProcedure transaction = false ->
  Transaction.ProcedimentoID transaction = Some procedimentoID ->
  procedimentoID <> 0 ->
  findMatchingProposal api transaction proposals = Some m ->
  matchSingleWith fl transaction procedimentoID proposals = Some m /\
  exists pre post,
    candidatesFor procedimentoID proposals = (pre ++ m :: post)%list /\
    (forall c, In c pre ->
               (distance transaction m < distance transaction c)%Q) /\
    (forall c, In c post ->
               (distance transaction m <= distance transaction c)%Q).
Proof.
  intros Hfl Hvalue Hvalues Hmulti Hpid Hne Hfind.
  rewrite (findMatchingProposal_single transaction api procedimentoID
             proposals Hmulti Hpid Hne) in Hfind.
  split.
  - now rewrite (matchSingleWith_whole fl transaction procedimentoID
                   proposals Hfl Hvalue Hvalues).
  - now apply matchSingle_first.
Qed.

(** Scenario B with a third proposal, under a rounding to multiples of
    1/1024. *)
Lemma single_procedure_tie_goes_to_first_offered_witness :
  matchSingleWith (fun q => (inject_Z (Qfloor (q * 1024)) / 1024)%Q)
    Scenario.transactionB 58
    [Scenario.proposal320; Scenario.proposal300; Scenario.proposal300]
  = Some Scenario.proposal300 /\
  exists pre post,
    candidatesFor 58 [Scenario.proposal320; Scenario.proposal300;
                      Scenario.proposal300]
    = (pre ++ Scenario.proposal300 :: post)%list /\
    (forall c, In c pre ->
               (distance Scenario.transactionB Scenario.proposal300
                < distance Scenario.transactionB c)%Q) /\
    (forall c, In c post ->
               (distance Scenario.transactionB Scenario.proposal300
                <= distance Scenario.transactionB c)%Q).
Proof.
  refine (single_procedure_tie_goes_to_first_offered
            (fun q => (inject_Z (Qfloor (q * 1024)) / 1024)%Q)
            Scenario.silentApi Scenario.transactionB 58
            [Scenario.proposal320; Scenario.proposal300;
             Scenario.proposal300]
            Scenario.proposal300 _ _ _ _ _ _ _).
  - intros q k Hq _. rewrite Hq. change 1024%Q with (inject_Z 1024).
    rewrite <- inject_Z_mult, Qfloor_Z.
    unfold Qeq, Qdiv, Qmult, Qinv, inject_Z. simpl. lia.
  - exists 305. split; [reflexivity | lia].
  - repeat constructor;
      [exists 320 | exists 300 | exists 300]; (split; [reflexivity | lia]).
  - reflexivity.
  - reflexivity.
  - discriminate.
  - reflexivity.
Defined.

(** X10.  For a transaction of several procedures, the proposal returned
    is the earliest offered among those that share most procedure ids
    with the invoice: each earlier proposal shares strictly fewer, each
    later one no more. *)
Theorem multi_procedure_tie_goes_to_first_offered
    (api : Api.t) (transaction : Transaction.t) (invoice : Z)
    (proposals : list Proposal.t) (p : Proposal.t) :
  isMultiProcedure transaction = true ->
  Transaction.NumeroInvoice transaction = Some invoice ->
  findMatchingProposal api transaction proposals = Some p ->
  exists pre post,
    proposals = (pre ++ p :: post)%list /\
    (forall q, In q pre ->
       (matchCount
          (invoiceProcIdsOf
             (Api.invoiceItems api invoice (Transaction.Data transaction))) q
        < matchCount
            (invoiceProcIdsOf
               (Api.invoiceItems api invoice (Transaction.Data transaction)))
            p)%nat) /\
    (forall q, In q post ->
       (matchCount
          (invoiceProcIdsOf
             (Api.invoiceItems api invoice (Transaction.Data transaction))) q
        <= matchCount
             (invoiceProcIdsOf
                (Api.invoiceItems api invoice (Transaction.Data transaction)))
             p)%nat).
Proof.
  intros Hmulti Hinv Hfind.
  rewrite (findMatchingProposal_multi transaction api proposals Hmulti),
    Hinv in Hfind.
  destruct (truthyId (Some invoice)); [|discriminate].
  unfold matchMulti in Hfind.
  destruct (Api.invoiceItems api invoice (Transaction.Data transaction))
    as [|i rest]; [discriminate|].
  pose proof (bestLoop_first (invoiceProcIdsOf (i :: rest)) proposals []
                (None, 0%nat)) as H.
  simpl in H. specialize (H (conj eq_refl (fun q (F : False) => match F with end))).
  destruct (List.fold_left _ proposals (None, 0%nat)) as [[b|] n];
    [|discriminate].
  destruct (2 <=? n)%nat; [|discriminate].
  injection Hfind as ->.
  destruct H as (pre & post & Hsplit & Hp & Hpre & Hpost).
  exists pre, post. rewrite Hp. tauto.
Qed.

Lemma multi_procedure_tie_goes_to_first_offered_witness :
  exists pre post,
    [Scenario.proposalOne; Scenario.proposalBoth; Scenario.proposalBoth]
    = (pre ++ Scenario.proposalBoth :: post)%list /\
    (forall q, In q pre ->
       (matchCount
          (invoiceProcIdsOf
             (Api.invoiceItems Scenario.invoiceApi 900
                (Transaction.Data Scenario.transactionMulti))) q
        < matchCount
            (invoiceProcIdsOf
               (Api.invoiceItems Scenario.invoiceApi 900
                  (Transaction.Data Scenario.transactionMulti)))
            Scenario.proposalBoth)%nat) /\
    (forall q, In q post ->
       (matchCount
          (invoiceProcIdsOf
             (Api.invoiceItems Scenario.invoiceApi 900
                (Transaction.Data Scenario.transactionMulti))) q
        <= matchCount
             (invoiceProcIdsOf
                (Api.invoiceItems Scenario.invoiceApi 900
                   (Transaction.Data Scenario.transactionMulti)))
             Scenario.proposalBoth)%nat).
Proof.
  apply (multi_procedure_tie_goes_to_first_offered Scenario.invoiceApi
           Scenario.transactionMulti 900
           [Scenario.proposalOne; Scenario.proposalBoth; Scenario.proposalBoth]
           Scenario.proposalBoth);
    reflexivity.
Defined.

(** ** More on the enricher *)

Section EnricherMore.

Lemma invoiceItem_spec api item st :
  let detailed := fst (invoiceItem api item st) in
  DetailedItem.procedimento_id detailed
  = Some (InvoiceItem.procedimento_id item) /\
  DetailedItem.valor detailed = (InvoiceItem.valor item / 100)%Q /\
  DetailedItem.nome detailed <> EmptyString.
Proof.
  unfold invoiceItem, bind, ret.
  destruct (fetchProcedureWithCache api _ st) as [[[|c r]|] st1];
    cbn [fst DetailedItem.procedimento_id DetailedItem.valor
         DetailedItem.nome];
    repeat split; try discriminate.
Qed.

(** The invoice path makes one item of every line, in order. *)
Lemma invoiceItems_spec api items :
  forall st,
    Forall2
      (fun detailed item =>
         DetailedItem.procedimento_id detailed
         = Some (InvoiceItem.procedimento_id item) /\
         DetailedItem.valor detailed = (InvoiceItem.valor item / 100)%Q /\
         DetailedItem.nome detailed <> EmptyString)
      (fst (invoiceItems api items st)) items.
Proof.
  induction items as [|item items IH]; intros st; simpl; [constructor|].
  unfold bind at 1.
  pose proof (invoiceItem_spec api item st) as Hitem.
  destruct (invoiceItem api item st) as [d st1].
  unfold bind, ret. specialize (IH st1).
  destruct (invoiceItems api items st1) as [more st2]. simpl in *.
  now constructor.
Qed.

(** The four ways the fallback on report and invoice ends. *)
Lemma enrichFromReport_cases api transaction st :
  let names := reportNames (Transaction.NomeProcedimento transaction) in
  let e := fst (enrichFromReport api transaction st) in
  (e = reportSingleResult transaction /\ (length names <= 1)%nat) \/
  (e = distributedResult transaction names /\ (2 <= length names)%nat) \/
  (exists invoice,
     Transaction.NumeroInvoice transaction = Some invoice /\
     Api.invoiceItems api invoice (Transaction.Data transaction) <> [] /\
     e = {| Enriched.transaction := transaction;
            Enriched.paymentOnly := false;
            Enriched.fonteItens := "invoice";
            Enriched.detailedItems :=
              fst (invoiceItems api
                     (Api.invoiceItems api invoice
                        (Transaction.Data transaction)) st);
            Enriched.proposalId := None |}).
Proof.
  intros names e. subst e names. unfold enrichFromReport.
  destruct (Nat.leb_spec
              (length (reportNames (Transaction.NomeProcedimento transaction)))
              1) as [Hle|Hgt].
  { left. split; [reflexivity | exact Hle]. }
  assert (Hd : forall st0,
            fst (ret (distributedResult transaction
                        (reportNames
                           (Transaction.NomeProcedimento transaction))) st0)
            = distributedResult transaction
                (reportNames (Transaction.NomeProcedimento transaction)))
    by reflexivity.
  destruct (Transaction.NumeroInvoice transaction) as [inv|];
    [|right; left; split; [apply Hd | lia]].
  destruct (truthyId (Some inv)); [|right; left; split; [apply Hd | lia]].
  destruct (Api.invoiceItems api inv (Transaction.Data transaction))
    as [|i items] eqn:E; [right; left; split; [apply Hd | lia]|].
  right. right. exists inv. rewrite E.
  split; [reflexivity|]. split; [discriminate|].
  unfold bind, ret.
  now destruct (invoiceItems api (i :: items) st).
Qed.

(** The ways an enrichment ends. *)
Lemma enrich_cases api transaction st :
  let e := fst (enrichTransactionWithItems api transaction st) in
  e = paymentOnlyResult transaction \/
  (exists matched,
     Proposal.procedimentos matched <> [] /\
     e = proposalResult transaction matched) \/
  (exists st1, e = fst (enrichFromReport api transaction st1)).
Proof.
  intros e. subst e.
  unfold enrichTransactionWithItems, enrichNormally, bind, ret.
  destruct (isPaymentOnly api transaction); [now left|]. right.
  unfold enrichFromProposal.
  destruct (Transaction.PacienteID transaction) as [pid|];
    [|right; now exists st].
  destruct (truthyId (Some pid)); [|right; now exists st].
  unfold bind.
  destruct (fetchPatientProposals api pid (Transaction.Data transaction) st)
    as [proposals st1].
  destruct (findMatchingProposal api transaction _) as [matched|];
    [|right; now exists st1].
  destruct (Proposal.procedimentos matched) as [|l ls] eqn:P;
    [right; now exists st1|].
  left. exists matched. split; [|reflexivity]. rewrite P. discriminate.
Qed.

Lemma totalValue_constant (v : Q) (names : list string) :
  (totalValue
     (List.map (fun nome =>
                  {| DetailedItem.procedimento_id := None;
                     DetailedItem.nome := nome;
                     DetailedItem.valor := v;
                     DetailedItem.quantidade := 1;
                     DetailedItem.desconto := 0;
                     DetailedItem.acrescimo := 0 |}) names)
   == inject_Z (Z.of_nat (length names)) * v)%Q.
Proof.
  induction names as [|n names IH].
  - simpl. ring.
  - cbn [List.map totalValue List.fold_right DetailedItem.valor length].
    fold (totalValue
            (List.map (fun nome =>
                  {| DetailedItem.procedimento_id := None;
                     DetailedItem.nome := nome;
                     DetailedItem.valor := v;
                     DetailedItem.quantidade := 1;
                     DetailedItem.desconto := 0;
                     DetailedItem.acrescimo := 0 |}) names)).
    rewrite IH. rewrite Nat2Z.inj_succ. unfold Z.succ.
    rewrite inject_Z_plus. ring.
Qed.

End EnricherMore.

Section EnricherShape.

Lemma enrich_keeps_transaction api transaction st :
  Enriched.transaction (fst (enrichTransactionWithItems api transaction st))
  = transaction.
Proof.
  destruct (enrich_cases api transaction st)
    as [H | [(matched & _ & H) | (st1 & H)]]; rewrite H; try reflexivity.
  destruct (enrichFromReport_cases api transaction st1)
    as [[H1 _] | [[H1 _] | (inv & _ & _ & H1)]]; now rewrite H1.
Qed.

Lemma enrichLoop_transactions world transactions :
  forall i st,
    List.map Enriched.transaction
      (fst (enrichLoop world i transactions st)) = transactions.
Proof.
  induction transactions as [|mov rest IH]; intros i st; simpl;
    [reflexivity|].
  unfold bind at 1.
  pose proof (enrich_keeps_transaction (world i) mov st) as Ht.
  destruct (enrichTransactionWithItems (world i) mov st) as [e st1].
  unfold bind, ret. specialize (IH (S i) st1).
  destruct (enrichLoop world (S i) rest st1) as [more st2].
  simpl in *. now rewrite Ht, IH.
Qed.

End EnricherShape.

(** X11.  Every enrichment carries its transaction unchanged, and it has
    no item only when it is payment-only, which is exactly when its
    source is ['payment-only']: the proposal, report and invoice paths
    always give at least one item. *)
Theorem enrichment_has_items_unless_payment_only
    (api : Api.t) (transaction : Transaction.t) (st : Store) :
  Enriched.transaction (fst (enrichTransactionWithItems api transaction st))
  = transaction /\
  (Enriched.detailedItems (fst (enrichTransactionWithItems api transaction st))
   = [] <->
   Enriched.paymentOnly (fst (enrichTransactionWithItems api transaction st))
   = true) /\
  (Enriched.paymentOnly (fst (enrichTransactionWithItems api transaction st))
   = true <->
   Enriched.fonteItens (fst (enrichTransactionWithItems api transaction st))
   = "payment-only").
Proof.
  set (e := fst (enrichTransactionWithItems api transaction st)).
  destruct (enrich_cases api transaction st)
    as [H | [(matched & Hne & H) | (st1 & H)]]; fold e in H.
  - rewrite H. simpl. repeat split; intros; reflexivity.
  - rewrite H. simpl. split; [reflexivity|]. split; split; try discriminate.
    intros Hnil. apply map_eq_nil in Hnil. congruence.
  - destruct (enrichFromReport_cases api transaction st1)
      as [[H1 _] | [[H1 Hlen] | (inv & _ & Hitems & H1)]];
      rewrite <- H in H1; rewrite H1; simpl.
    + split; [reflexivity|]. split; split; discriminate.
    + split; [reflexivity|]. split; split; try discriminate.
      intros Hnil. apply map_eq_nil in Hnil. rewrite Hnil in Hlen.
      simpl in Hlen. lia.
    + split; [reflexivity|]. split; split; try discriminate.
      intros Hnil.
      pose proof (invoiceItems_spec api
                    (Api.invoiceItems api inv (Transaction.Data transaction))
                    st1) as HF.
      rewrite Hnil in HF. inversion HF as [E|]. congruence.
Qed.


(** X12.  An enrichment with source ['report-distributed'] has one item
    for each name of the report, two at least, in the order of the names
    and without procedure id, and the values of the items add up to the
    value of the transaction. *)
Theorem distributed_items_share_the_value
    (api : Api.t) (transaction : Transaction.t) (st : Store) :
  Enriched.fonteItens (fst (enrichTransactionWithItems api transaction st))
  = "report-distributed" ->
  List.map DetailedItem.nome
    (Enriched.detailedItems
       (fst (enrichTransactionWithItems api transaction st)))
  = reportNames (Transaction.NomeProcedimento transaction) /\
  (2 <= length (reportNames (Transaction.NomeProcedimento transaction)))%nat /\
  Forall (fun item => DetailedItem.procedimento_id item = None)
    (Enriched.detailedItems
       (fst (enrichTransactionWithItems api transaction st))) /\
  (totalValue
     (Enriched.detailedItems
        (fst (enrichTransactionWithItems api transaction st)))
   == Transaction.Value transaction)%Q.
Proof.
  intros Hsrc.
  assert (He : fst (enrichTransactionWithItems api transaction st)
               = distributedResult transaction
                   (reportNames (Transaction.NomeProcedimento transaction))
               /\ (2 <= length (reportNames
                                  (Transaction.NomeProcedimento transaction)))
                  %nat).
  { destruct (enrich_cases api transaction st)
      as [H | [(matched & _ & H) | (st1 & H)]];
      [rewrite H in Hsrc; discriminate | rewrite H in Hsrc; discriminate |].
    destruct (enrichFromReport_cases api transaction st1)
      as [[H1 _] | [[H1 Hlen] | (inv & _ & _ & H1)]]; rewrite <- H in H1.
    - rewrite H1 in Hsrc. discriminate.
    - tauto.
    - rewrite H1 in Hsrc. discriminate. }
  destruct He as [-> Hlen].
  unfold distributedResult. cbn [Enriched.detailedItems].
  split; [|split; [exact Hlen|split]].
  - rewrite List.map_map. simpl. apply List.map_id.
  - apply Forall_forall. intros item Hin.
    apply list_elem_of_In, in_map_iff in Hin as (n & <- & _). reflexivity.
  - rewrite totalValue_constant.
    assert (Hn : ~ (inject_Z
                      (Z.of_nat
                         (length
                            (reportNames
                               (Transaction.NomeProcedimento transaction))))
                    == 0)%Q).
    { intros H0. unfold Qeq in H0. simpl in H0. lia. }
    field. exact Hn.
Qed.

(** Scenario E. *)
Lemma distributed_items_share_the_value_witness :
  List.map DetailedItem.nome
    (Enriched.detailedItems
       (fst (enrichTransactionWithItems Scenario.silentApi
               Scenario.transactionE emptyStore)))
  = ["Consulta"; "Nutri"] /\
  (totalValue
     (Enriched.detailedItems
        (fst (enrichTransactionWithItems Scenario.silentApi
                Scenario.transactionE emptyStore)))
   == 200)%Q.
Proof.
  destruct (distributed_items_share_the_value Scenario.silentApi
              Scenario.transactionE emptyStore eq_refl)
    as (Hnames & _ & _ & Htotal).
  split; [exact Hnames | exact Htotal].
Defined.

(** X13.  An enrichment with source ['invoice'] has one item for each
    line of the transaction's invoice, in the order of the lines: the
    line's procedure id, its value in cents divided by 100, and a name
    that is never empty. *)
Theorem invoice_items_follow_the_lines
    (api : Api.t) (transaction : Transaction.t) (st : Store) :
  Enriched.fonteItens (fst (enrichTransactionWithItems api transaction st))
  = "invoice" ->
  exists invoice,
    Transaction.NumeroInvoice transaction = Some invoice /\
    Forall2
      (fun detailed line =>
         DetailedItem.procedimento_id detailed
         = Some (InvoiceItem.procedimento_id line) /\
         DetailedItem.valor detailed = (InvoiceItem.valor line / 100)%Q /\
         DetailedItem.nome detailed <> EmptyString)
      (Enriched.detailedItems
         (fst (enrichTransactionWithItems api transaction st)))
      (Api.invoiceItems api invoice (Transaction.Data transaction)).
Proof.
  intros Hsrc.
  destruct (enrich_cases api transaction st)
    as [H | [(matched & _ & H) | (st1 & H)]];
    [rewrite H in Hsrc; discriminate | rewrite H in Hsrc; discriminate |].
  destruct (enrichFromReport_cases api transaction st1)
    as [[H1 _] | [[H1 _] | (inv & Hinv & _ & H1)]]; rewrite <- H in H1.
  - rewrite H1 in Hsrc. discriminate.
  - rewrite H1 in Hsrc. discriminate.
  - exists inv. split; [exact Hinv|]. rewrite H1.
    cbn [Enriched.detailedItems]. apply invoiceItems_spec.
Qed.

Lemma invoice_items_follow_the_lines_witness :
  exists invoice,
    Transaction.NumeroInvoice Scenario.transactionMulti = Some invoice /\
    Forall2
      (fun detailed line =>
         DetailedItem.procedimento_id detailed
         = Some (InvoiceItem.procedimento_id line) /\
         DetailedItem.valor detailed = (InvoiceItem.valor line / 100)%Q /\
         DetailedItem.nome detailed <> EmptyString)
      (Enriched.detailedItems
         (fst (enrichTransactionWithItems Scenario.invoiceApi
                 Scenario.transactionMulti emptyStore)))
      (Api.invoiceItems Scenario.invoiceApi invoice
         (Transaction.Data Scenario.transactionMulti)).
Proof.
  apply (invoice_items_follow_the_lines Scenario.invoiceApi
           Scenario.transactionMulti emptyStore).
  vm_compute. reflexivity.
Defined.

(** X14.  A batch returns one enriched transaction for each transaction
    of the report, in the order of the report. *)
Theorem batch_keeps_the_order
    (world : nat -> Api.t) (transactions : list Transaction.t)
    (st : Store) (enriched : list Enriched.t) (st' : Store) :
  fetchDetailedTransactions world (Some transactions) st
  = (Some enriched, st') ->
  List.map Enriched.transaction enriched = transactions.
Proof.
  unfold fetchDetailedTransactions.
  pose proof (enrichLoop_transactions world transactions 0%nat
                (clearUsedProposalIds st)) as H.
  destruct (enrichLoop world 0 transactions (clearUsedProposalIds st))
    as [l st2].
  intros [= <- _]. exact H.
Qed.

Lemma batch_keeps_the_order_witness :
  List.map Enriched.transaction
    (default []
       (fst (fetchDetailedTransactions (fun _ => Scenario.twoProposalsApi)
               (Some Scenario.twoPayments) emptyStore)))
  = Scenario.twoPayments.
Proof.
  destruct (fetchDetailedTransactions (fun _ => Scenario.twoProposalsApi)
              (Some Scenario.twoPayments) emptyStore) as [[l|] st'] eqn:E.
  - exact (batch_keeps_the_order _ _ _ _ _ E).
  - vm_compute in E. discriminate.
Defined.

(** ** The caches *)

(** X15.  A procedure found once is answered from the cache ever after,
    whatever the platform says then; a procedure not found is not
    remembered, so the next call asks the platform again; and what is
    cached for other procedures is never touched. *)
Theorem procedure_cache_keeps_hits_only :
  (forall api procedureId st name st1,
     fetchProcedureWithCache api procedureId st = (Some name, st1) ->
     forall api',
       fetchProcedureWithCache api' procedureId st1 = (Some name, st1)) /\
  (forall api procedureId st st1,
     fetchProcedureWithCache api procedureId st = (None, st1) ->
     st1 = st /\
     forall api',
       fst (fetchProcedureWithCache api' procedureId st1)
       = Api.procedure api' procedureId) /\
  (forall api procedureId st r st1 other,
     fetchProcedureWithCache api procedureId st = (r, st1) ->
     other <> procedureId ->
     proceduresCache st1 !! other = proceduresCache st !! other).
Proof.
  split; [|split].
  - intros api id st name st1. unfold fetchProcedureWithCache.
    destruct (proceduresCache st !! id) as [cached|] eqn:E.
    + intros [= <- <-] api'. now rewrite E.
    + destruct (Api.procedure api id) as [found|]; [|discriminate].
      intros [= <- <-] api'. simpl. now rewrite lookup_insert_eq.
  - intros api id st st1. unfold fetchProcedureWithCache.
    destruct (proceduresCache st !! id) as [cached|] eqn:E; [discriminate|].
    destruct (Api.procedure api id) as [found|]; [discriminate|].
    intros [= <-]. split; [reflexivity|]. intros api'. rewrite E.
    now destruct (Api.procedure api' id).
  - intros api id st r st1 other. unfold fetchProcedureWithCache.
    destruct (proceduresCache st !! id) as [cached|];
      [now intros [= _ <-]|].
    destruct (Api.procedure api id) as [found|]; [|now intros [= _ <-]].
    intros [= _ <-] Hne. simpl. now rewrite lookup_insert_ne.
Qed.

Section ProposalCacheFacts.

Lemma fetchPatientProposals_cache api pacienteId date st proposals st1 :
  fetchPatientProposals api pacienteId date st = (proposals, st1) ->
  proposalsCache st1 !! (pacienteId, date) = Some proposals /\
  proposalsCache st ⊆ proposalsCache st1.
Proof.
  unfold fetchPatientProposals.
  destruct (proposalsCache st !! (pacienteId, date)) as [cached|] eqn:E;
    cbv zeta.
  - intros [= <- <-]. split; [exact E | reflexivity].
  - intros [= <- <-]. simpl. split; [apply lookup_insert_eq|].
    now apply insert_subseteq.
Qed.

Lemma invoiceItem_proposals api item st r st1 :
  invoiceItem api item st = (r, st1) ->
  proposalsCache st1 = proposalsCache st.
Proof.
  unfold invoiceItem, bind, ret, fetchProcedureWithCache.
  destruct (proceduresCache st !! InvoiceItem.procedimento_id item);
    [now intros [= _ <-]|].
  destruct (Api.procedure api (InvoiceItem.procedimento_id item));
    now intros [= _ <-].
Qed.

Lemma invoiceItems_proposals api items :
  forall st r st1,
    invoiceItems api items st = (r, st1) ->
    proposalsCache st1 = proposalsCache st.
Proof.
  induction items as [|item items IH]; intros st r st1; simpl.
  - unfold ret. now intros [= _ <-].
  - unfold bind, ret.
    destruct (invoiceItem api item st) as [d st2] eqn:E1.
    destruct (invoiceItems api items st2) as [more st3] eqn:E2.
    intros [= _ <-]. apply invoiceItem_proposals in E1. apply IH in E2.
    congruence.
Qed.

Lemma enrich_proposals api transaction st e st1 :
  enrichTransactionWithItems api transaction st = (e, st1) ->
  proposalsCache st ⊆ proposalsCache st1.
Proof.
  unfold enrichTransactionWithItems, enrichNormally, bind, ret.
  destruct (isPaymentOnly api transaction); [now intros [= _ <-]|].
  assert (Hreport : forall st0 e0 st2,
            enrichFromReport api transaction st0 = (e0, st2) ->
            proposalsCache st2 = proposalsCache st0).
  { intros st0 e0 st2. unfold enrichFromReport.
    destruct (length (reportNames _) <=? 1)%nat; [now intros [= _ <-]|].
    destruct (Transaction.NumeroInvoice transaction) as [inv|];
      [|now intros [= _ <-]].
    destruct (truthyId (Some inv)); [|now intros [= _ <-]].
    destruct (Api.invoiceItems api inv (Transaction.Data transaction))
      as [|i items]; [now intros [= _ <-]|].
    unfold bind, ret.
    destruct (invoiceItems api (i :: items) st0) as [detailed st3] eqn:E.
    intros [= _ <-]. now apply invoiceItems_proposals in E. }
  unfold enrichFromProposal.
  destruct (Transaction.PacienteID transaction) as [pid|].
  2: { intros H. apply Hreport in H. now rewrite H. }
  destruct (truthyId (Some pid)).
  2: { intros H. apply Hreport in H. now rewrite H. }
  unfold bind.
  destruct (fetchPatientProposals api pid (Transaction.Data transaction) st)
    as [proposals st2] eqn:E.
  apply fetchPatientProposals_cache in E as [_ Hsub].
  destruct (findMatchingProposal api transaction _) as [matched|].
  2: { intros H. apply Hreport in H. now rewrite H. }
  destruct (Proposal.procedimentos matched).
  { intros H. apply Hreport in H. now rewrite H. }
  now intros [= _ <-].
Qed.

Lemma enrichLoop_proposals world transactions :
  forall i st l st1,
    enrichLoop world i transactions st = (l, st1) ->
    proposalsCache st ⊆ proposalsCache st1.
Proof.
  induction transactions as [|mov rest IH]; intros i st l st1; simpl.
  - unfold ret. now intros [= _ <-].
  - unfold bind, ret.
    destruct (enrichTransactionWithItems (world i) mov st) as [e st2] eqn:E1.
    destruct (enrichLoop world (S i) rest st2) as [more st3] eqn:E2.
    intros [= _ <-]. apply enrich_proposals in E1. apply IH in E2.
    now transitivity (proposalsCache st2).
Qed.

End ProposalCacheFacts.

(** X16.  The proposals of a patient on a date are fetched once: the
    first answer, also the empty one of a failed request, is what every
    later call for that patient and date returns, whatever the platform
    would answer then; and when the cache holds executed proposals only,
    so does every answer and so does the cache afterwards. *)
Theorem proposals_are_fetched_once :
  (forall api pacienteId date st proposals st1,
     fetchPatientProposals api pacienteId date st = (proposals, st1) ->
     forall api',
       fetchPatientProposals api' pacienteId date st1 = (proposals, st1)) /\
  (forall api pacienteId date st,
     proposalsCache st !! (pacienteId, date) = None ->
     Api.proposalList api pacienteId date = None ->
     fst (fetchPatientProposals api pacienteId date st) = []) /\
  (forall api pacienteId date st proposals st1,
     CacheExecuted st ->
     fetchPatientProposals api pacienteId date st = (proposals, st1) ->
     Forall (fun p => Proposal.status p = "Executada") proposals /\
     CacheExecuted st1).
Proof.
  split; [|split].
  - intros api pid date st proposals st1 H api'.
    apply fetchPatientProposals_cache in H as [H _].
    unfold fetchPatientProposals. now rewrite H.
  - intros api pid date st Hmiss Hfail.
    unfold fetchPatientProposals. now rewrite Hmiss, Hfail.
  - intros api pid date st proposals st1 Hinv.
    unfold fetchPatientProposals.
    destruct (proposalsCache st !! (pid, date)) as [cached|] eqn:E; cbv zeta.
    + intros [= <- <-]. split; [now apply (Hinv (pid, date)) | exact Hinv].
    + intros [= <- <-].
      assert (Hnew : Forall (fun p => Proposal.status p = "Executada")
                       match Api.proposalList api pid date with
                       | Some content =>
                           List.filter
                             (fun p => String.eqb (Proposal.status p)
                                                  "Executada") content
                       | None => []
                       end).
      { destruct (Api.proposalList api pid date) as [content|];
          [|constructor].
        apply Forall_forall. intros p Hp.
        apply list_elem_of_In, filter_In in Hp as [_ Hp].
        now apply String.eqb_eq in Hp. }
      split; [exact Hnew|].
      intros key l. simpl. rewrite lookup_insert.
      destruct (decide ((pid, date) = key)) as [<-|Hne].
      * now intros [= <-].
      * apply Hinv.
Qed.

Lemma proposals_are_fetched_once_witness :
  Forall (fun p => Proposal.status p = "Executada")
    (fst (fetchPatientProposals Scenario.twoProposalsApi 7
            (Scenario.date 5 2 2026) emptyStore)) /\
  CacheExecuted
    (snd (fetchPatientProposals Scenario.twoProposalsApi 7
            (Scenario.date 5 2 2026) emptyStore)).
Proof.
  apply (proj2 (proj2 proposals_are_fetched_once) Scenario.twoProposalsApi 7
           (Scenario.date 5 2 2026) emptyStore).
  - intros key l H. simpl in H. now rewrite lookup_empty in H.
  - now destruct (fetchPatientProposals _ _ _ _).
Defined.

(** X17.  The cache of proposals is not emptied by a batch: what it holds
    when a batch starts it still holds when the batch ends, so a later
    batch of the same process is answered from it. *)
Theorem proposal_cache_outlives_batch
    (world : nat -> Api.t) (report : option (list Transaction.t))
    (st : Store) (r : option (list Enriched.t)) (st' : Store) :
  fetchDetailedTransactions world report st = (r, st') ->
  proposalsCache st ⊆ proposalsCache st' /\
  forall pacienteId date proposals api,
    proposalsCache st !! (pacienteId, date) = Some proposals ->
    fetchPatientProposals api pacienteId date st' = (proposals, st').
Proof.
  intros H.
  assert (Hsub : proposalsCache st ⊆ proposalsCache st').
  { destruct report as [transactions|]; simpl in H.
    - destruct (enrichLoop world 0 transactions (clearUsedProposalIds st))
        as [l st2] eqn:E.
      injection H as _ <-. now apply enrichLoop_proposals in E.
    - unfold ret in H. now injection H as _ <-. }
  split; [exact Hsub|].
  intros pid date proposals api Hc.
  unfold fetchPatientProposals.
  now rewrite (lookup_weaken _ _ _ _ Hc Hsub).
Qed.

Lemma proposal_cache_outlives_batch_witness :
  fetchPatientProposals Scenario.silentApi 7 (Scenario.date 5 2 2026)
    (snd (fetchDetailedTransactions (fun _ => Scenario.silentApi)
            (Some [])
            (snd (fetchPatientProposals Scenario.twoProposalsApi 7
                    (Scenario.date 5 2 2026) emptyStore))))
  = ([Scenario.proposal300; Scenario.proposal320],
     snd (fetchDetailedTransactions (fun _ => Scenario.silentApi)
            (Some [])
            (snd (fetchPatientProposals Scenario.twoProposalsApi 7
                    (Scenario.date 5 2 2026) emptyStore)))).
Proof.
  apply (proposal_cache_outlives_batch (fun _ => Scenario.silentApi)
           (Some [])
           (snd (fetchPatientProposals Scenario.twoProposalsApi 7
                   (Scenario.date 5 2 2026) emptyStore))
           (Some [])).
  - reflexivity.
  - vm_compute. reflexivity.
Defined.

(** ** Appointments *)

(** X18.  The appointment search is tried three times at most: it
    succeeds exactly when one of the first three attempts is answered and
    every attempt before it failed with a retryable status (no status,
    409, or 500 and above), and then gives that answer's appointments;
    otherwise it reports [apiError] with no appointment; what a fourth or
    later attempt would answer never matters. *)
Theorem appointment_search_retries_thrice
    (api : Api.t) (patientId : option Z) (date : FeegowDate.t) :
  (AppointmentsResult.apiError
     (searchAppointments api patientId date 1 MAX_RETRIES) = false <->
   exists k content,
     (1 <= k <= 3)%nat /\
     Api.appointSearch api patientId date k = Api.Ok content /\
     AppointmentsResult.appointments
       (searchAppointments api patientId date 1 MAX_RETRIES) = content /\
     forall j, (1 <= j < k)%nat ->
               exists status,
                 Api.appointSearch api patientId date j = Api.Failed status /\
                 isRetryable status = true) /\
  (AppointmentsResult.apiError
     (searchAppointments api patientId date 1 MAX_RETRIES) = true ->
   AppointmentsResult.appointments
     (searchAppointments api patientId date 1 MAX_RETRIES) = []) /\
  (forall api',
     (forall k, (1 <= k <= 3)%nat ->
                Api.appointSearch api' patientId date k
                = Api.appointSearch api patientId date k) ->
     searchAppointments api' patientId date 1 MAX_RETRIES
     = searchAppointments api patientId date 1 MAX_RETRIES).
Proof.
  split; [|split].
  - unfold MAX_RETRIES. cbn [searchAppointments]. unfold MAX_RETRIES.
    split.
    + destruct (Api.appointSearch api patientId date 1) as [c1|s1] eqn:E1.
      { intros _. exists 1%nat, c1. split; [lia|]. split; [exact E1|].
        split; [reflexivity|]. intros j Hj. lia. }
      destruct (isRetryable s1) eqn:R1; [|discriminate].
      cbn [andb Nat.ltb Nat.leb].
      destruct (Api.appointSearch api patientId date 2) as [c2|s2] eqn:E2.
      { intros _. exists 2%nat, c2. split; [lia|]. split; [exact E2|].
        split; [reflexivity|]. intros j Hj.
        assert (j = 1%nat) as -> by lia. eauto. }
      destruct (isRetryable s2) eqn:R2; [|discriminate].
      cbn [andb Nat.ltb Nat.leb].
      destruct (Api.appointSearch api patientId date 3) as [c3|s3] eqn:E3.
      { intros _. exists 3%nat, c3. split; [lia|]. split; [exact E3|].
        split; [reflexivity|]. intros j Hj.
        assert (j = 1 \/ j = 2)%nat as [-> | ->] by lia; eauto. }
      rewrite andb_false_r. discriminate.
    + intros (k & content & Hk & Hok & _ & Hbefore).
      assert (k = 1 \/ k = 2 \/ k = 3)%nat as [-> | [-> | ->]] by lia.
      * now rewrite Hok.
      * destruct (Hbefore 1%nat ltac:(lia)) as (s1 & -> & ->).
        cbn [andb Nat.ltb Nat.leb]. now rewrite Hok.
      * destruct (Hbefore 1%nat ltac:(lia)) as (s1 & -> & ->).
        destruct (Hbefore 2%nat ltac:(lia)) as (s2 & -> & ->).
        cbn [andb Nat.ltb Nat.leb]. now rewrite Hok.
  - unfold MAX_RETRIES. cbn [searchAppointments]. unfold MAX_RETRIES.
    destruct (Api.appointSearch api patientId date 1) as [c1|s1];
      [discriminate|].
    destruct (isRetryable s1 && (1 <? 3)%nat); [|reflexivity].
    destruct (Api.appointSearch api patientId date 2) as [c2|s2];
      [discriminate|].
    destruct (isRetryable s2 && (2 <? 3)%nat); [|reflexivity].
    destruct (Api.appointSearch api patientId date 3) as [c3|s3];
      [discriminate|].
    now destruct (isRetryable s3 && (3 <? 3)%nat).
  - intros api' Hsame.
    unfold MAX_RETRIES. cbn [searchAppointments]. unfold MAX_RETRIES.
    rewrite (Hsame 1%nat), (Hsame 2%nat), (Hsame 3%nat) by lia.
    destruct (Api.appointSearch api patientId date 1); [reflexivity|].
    destruct (isRetryable status && (1 <? 3)%nat); [|reflexivity].
    destruct (Api.appointSearch api patientId date 2); [reflexivity|].
    destruct (isRetryable status0 && (2 <? 3)%nat); [|reflexivity].
    destruct (Api.appointSearch api patientId date 3); [reflexivity|].
    now rewrite andb_false_r.
Qed.

Lemma replaceAll_part (from to : ascii) s :
  allChars (fun c => negb (Ascii.eqb c from)) s = true ->
  DateText.replaceAll from to s = s.
Proof.
  induction s as [|c s IH]; [reflexivity|].
  simpl. intros H. apply andb_true_iff in H as [Hc Hs].
  apply negb_true_iff in Hc. now rewrite Hc, (IH Hs).
Qed.

Lemma replaceAll_app (from to : ascii) a b :
  DateText.replaceAll from to (a +:+ b)
  = DateText.replaceAll from to a +:+ DateText.replaceAll from to b.
Proof.
  induction a as [|c a IH]; [reflexivity|].
  rewrite append_cons. simpl. now rewrite IH, append_cons.
Qed.

(** The processing date in the order of the appointments' dates. *)
Lemma procDateNorm_date d m y :
  isDatePart d = true -> isDatePart m = true -> isDatePart y = true ->
  DateText.procDateNorm (d +:+ "/" +:+ m +:+ "/" +:+ y)
  = d +:+ "-" +:+ m +:+ "-" +:+ y /\
  DateText.procDateNorm (y +:+ "-" +:+ m +:+ "-" +:+ d)
  = d +:+ "-" +:+ m +:+ "-" +:+ y.
Proof.
  intros Hd Hm Hy. unfold DateText.procDateNorm. split.
  - rewrite (includes_app d "/" (m +:+ "/" +:+ y)).
    rewrite !replaceAll_app.
    rewrite (replaceAll_part "/" "-" d (isDatePart_no_slash d Hd)).
    rewrite (replaceAll_part "/" "-" m (isDatePart_no_slash m Hm)).
    rewrite (replaceAll_part "/" "-" y (isDatePart_no_slash y Hy)).
    reflexivity.
  - assert (Hno : includes (y +:+ "-" +:+ m +:+ "-" +:+ d) "/" = false).
    { apply includes_char_false. rewrite !allChars_app.
      now rewrite (isDatePart_no_slash d Hd), (isDatePart_no_slash m Hm),
        (isDatePart_no_slash y Hy). }
    rewrite Hno, (splitOn_dash_date y m d Hy Hm Hd). reflexivity.
Qed.

(** X19.  The first answer of the appointment search for a patient, a
    failure as well, is what every later call for that patient gets,
    whatever the date it asks about and whatever the platform would
    answer then: the check for a later date reports a failure if the
    first search failed, and else an appointment on that date exactly
    when the first answer holds one whose date text is the text of the
    processing date put into the order day, month, year with dashes.
    The texts are compared as they are written: a date of three parts
    is only reordered, none of its parts is padded. *)
Theorem appointments_answer_sticks_to_patient
    (api : Api.t) (patientId : option Z) (date : FeegowDate.t)
    (st : Store) (found : AppointmentsResult.t) (st1 : Store) :
  fetchPatientAppointments api patientId date st = (found, st1) ->
  (forall api' date',
     fetchPatientAppointments api' patientId date' st1 = (found, st1) /\
     AppointmentCheck.apiError
       (fst (checkAppointmentDate api' patientId date' st1))
     = AppointmentsResult.apiError found /\
     (AppointmentsResult.apiError found = true ->
      AppointmentCheck.hasAppointmentToday
        (fst (checkAppointmentDate api' patientId date' st1)) = false) /\
     (AppointmentsResult.apiError found = false ->
      (AppointmentCheck.hasAppointmentToday
         (fst (checkAppointmentDate api' patientId date' st1)) = true <->
       exists apt,
         In apt (AppointmentsResult.appointments found) /\
         Appointment.data apt
         = DateText.procDateNorm (FeegowDate.text date')))) /\
  (forall d m y,
     isDatePart d = true -> isDatePart m = true -> isDatePart y = true ->
     DateText.procDateNorm (d +:+ "/" +:+ m +:+ "/" +:+ y)
     = d +:+ "-" +:+ m +:+ "-" +:+ y /\
     DateText.procDateNorm (y +:+ "-" +:+ m +:+ "-" +:+ d)
     = d +:+ "-" +:+ m +:+ "-" +:+ y).
Proof.
  intros H. split; [|apply procDateNorm_date]. intros api' date'.
  assert (Hc : appointmentsCache st1 !! patientId = Some found).
  { unfold fetchPatientAppointments in H.
    destruct (appointmentsCache st !! patientId) as [cached|] eqn:E.
    - now injection H as <- <-.
    - injection H as <- <-. simpl. apply lookup_insert_eq. }
  assert (Hf : fetchPatientAppointments api' patientId date' st1
               = (found, st1)).
  { unfold fetchPatientAppointments. now rewrite Hc. }
  split; [exact Hf|].
  unfold checkAppointmentDate, bind, ret. rewrite Hf.
  destruct (AppointmentsResult.apiError found) eqn:E;
    cbn [fst AppointmentCheck.apiError AppointmentCheck.hasAppointmentToday].
  - split; [reflexivity|]. split; [reflexivity | discriminate].
  - split; [reflexivity|]. split; [discriminate|]. intros _.
    rewrite existsb_exists. split.
    + intros (apt & Hin & Hd). exists apt. split; [exact Hin|].
      now apply bool_decide_eq_true in Hd.
    + intros (apt & Hin & Hd). exists apt. split; [exact Hin|].
      now apply bool_decide_eq_true.
Qed.

(** The failure of the first day is what the second day gets; an
    unpadded date stays unpadded. *)
Lemma appointments_answer_sticks_to_patient_witness :
  fetchPatientAppointments (Scenario.appointmentsApi Scenario.secondDay)
    (Some 7) Scenario.secondDay
    (snd (fetchPatientAppointments Scenario.silentApi (Some 7)
            Scenario.firstDay emptyStore))
  = ({| AppointmentsResult.appointments := [];
        AppointmentsResult.apiError := true |},
     snd (fetchPatientAppointments Scenario.silentApi (Some 7)
            Scenario.firstDay emptyStore)) /\
  DateText.procDateNorm "5/2/2026" = "5-2-2026" /\
  DateText.procDateNorm "2026-02-05" = "05-02-2026".
Proof.
  assert (Hfirst : fetchPatientAppointments Scenario.silentApi (Some 7)
                     Scenario.firstDay emptyStore
                   = ({| AppointmentsResult.appointments := [];
                         AppointmentsResult.apiError := true |},
                      snd (fetchPatientAppointments Scenario.silentApi
                             (Some 7) Scenario.firstDay emptyStore)))
    by (vm_compute; reflexivity).
  split.
  - apply (proj1 (appointments_answer_sticks_to_patient Scenario.silentApi
                    (Some 7) Scenario.firstDay emptyStore _ _ Hfirst)).
  - split.
    + apply (proj1 (proj2 (appointments_answer_sticks_to_patient
                             Scenario.silentApi (Some 7) Scenario.firstDay
                             emptyStore _ _ Hfirst)
                      "5" "2" "2026" eq_refl eq_refl eq_refl)).
    + apply (proj2 (proj2 (appointments_answer_sticks_to_patient
                             Scenario.silentApi (Some 7) Scenario.firstDay
                             emptyStore _ _ Hfirst)
                      "05" "02" "2026" eq_refl eq_refl eq_refl)).
Defined.

(** ** More on the category map *)

Section OverrideFacts.

Variable id : Z.

Lemma knownKeys_nonempty key : In key knownKeys -> isEmpty key = false.
Proof.
  unfold knownKeys. cbn [In]. intros H.
  repeat (destruct H as [<-|H]; [reflexivity|]). destruct H.
Qed.

Lemma mapProcedure_other groupColumn mapping procId :
  procId <> id ->
  mapProcedure groupColumn mapping procId !! id = mapping !! id.
Proof.
  intros Hne. unfold mapProcedure.
  destruct (overrideOf procId OVERRIDES) as [[column|]|].
  - destruct (isEmpty column); [reflexivity|]. now rewrite lookup_insert_ne.
  - reflexivity.
  - destruct groupColumn; [|reflexivity]. now rewrite lookup_insert_ne.
Qed.

Lemma mapProcedure_same groupColumn mapping :
  mapProcedure groupColumn mapping id !! id
  = match overrideOf id OVERRIDES with
    | Some (Some column) => Some (Some column)
    | Some None => mapping !! id
    | None =>
        match groupColumn with
        | Some col => Some (Some col)
        | None => mapping !! id
        end
    end.
Proof.
  unfold mapProcedure.
  destruct (overrideOf id OVERRIDES) as [[column|]|] eqn:E.
  - rewrite (knownKeys_nonempty column (overrides_known id column E)).
    apply lookup_insert_eq.
  - reflexivity.
  - destruct groupColumn; [apply lookup_insert_eq | reflexivity].
Qed.

(** A procedure no group lists is not in the map. *)
Lemma mapGroup_unlisted mapping group :
  ~ In id (ProcedureGroup.procedimentos group) ->
  mapGroup mapping group !! id = mapping !! id.
Proof.
  unfold mapGroup.
  generalize (GROUP_TO_COLUMN (ProcedureGroup.id group)) as gc.
  intros gc. revert mapping.
  induction (ProcedureGroup.procedimentos group) as [|p procs IH];
    intros mapping Hnot; simpl; [reflexivity|].
  rewrite IH by (intros H; apply Hnot; now right).
  apply mapProcedure_other. intros ->. apply Hnot. now left.
Qed.

Lemma groups_unlisted groups :
  forall mapping,
    (forall g, In g groups -> ~ In id (ProcedureGroup.procedimentos g)) ->
    List.fold_left mapGroup groups mapping !! id = mapping !! id.
Proof.
  induction groups as [|g groups IH]; intros mapping Hnot; simpl;
    [reflexivity|].
  rewrite IH by (intros g' Hg'; apply Hnot; now right).
  apply mapGroup_unlisted. apply Hnot. now left.
Qed.

(** An override, once set, stays whatever follows. *)
Lemma procs_override column gc procs :
  overrideOf id OVERRIDES = Some (Some column) ->
  forall mapping,
    mapping !! id = Some (Some column) \/ In id procs ->
    List.fold_left (mapProcedure gc) procs mapping !! id
    = Some (Some column).
Proof.
  intros Hov. induction procs as [|p procs IH]; intros mapping H; simpl.
  - destruct H as [H|[]]. exact H.
  - apply IH. destruct (decide (p = id)) as [->|Hne].
    + left. now rewrite mapProcedure_same, Hov.
    + destruct H as [H|[H|H]]; [|congruence|now right].
      left. now rewrite mapProcedure_other.
Qed.

Lemma groups_override column groups :
  overrideOf id OVERRIDES = Some (Some column) ->
  forall mapping,
    mapping !! id = Some (Some column) \/
    (exists g, In g groups /\ In id (ProcedureGroup.procedimentos g)) ->
    List.fold_left mapGroup groups mapping !! id = Some (Some column).
Proof.
  intros Hov. induction groups as [|g groups IH]; intros mapping H; simpl.
  - destruct H as [H|(g & [] & _)]. exact H.
  - apply IH.
    destruct (in_dec Z.eq_dec id (ProcedureGroup.procedimentos g)) as [Hin|Hnot].
    + left. unfold mapGroup. apply (procs_override column); [exact Hov|].
      now right.
    + destruct H as [H|(g' & [<-|Hg'] & Hin)].
      * left. unfold mapGroup. apply (procs_override column); [exact Hov|].
        now left.
      * contradiction.
      * right. now exists g'.
Qed.

(** Without an override, an entry comes from a group that lists the
    procedure and has a column. *)
Lemma procs_from_group groups g procs :
  overrideOf id OVERRIDES = None ->
  In g groups ->
  (forall p, In p procs -> In p (ProcedureGroup.procedimentos g)) ->
  forall mapping,
    FromGroup id groups mapping ->
    FromGroup id groups
      (List.fold_left (mapProcedure (GROUP_TO_COLUMN (ProcedureGroup.id g)))
         procs mapping).
Proof.
  intros Hov Hg. induction procs as [|p procs IH]; intros Hsub mapping H;
    simpl; [exact H|].
  apply IH; [intros q Hq; apply Hsub; now right|].
  intros v. destruct (decide (p = id)) as [->|Hne].
  - rewrite mapProcedure_same, Hov.
    destruct (GROUP_TO_COLUMN (ProcedureGroup.id g)) as [col|] eqn:E;
      [|apply H].
    intros [= <-]. exists g, col. split; [exact Hg|].
    split; [apply Hsub; now left|]. tauto.
  - rewrite mapProcedure_other by exact Hne. apply H.
Qed.

Lemma groups_from_group all groups :
  overrideOf id OVERRIDES = None ->
  (forall g, In g groups -> In g all) ->
  forall mapping,
    FromGroup id all mapping ->
    FromGroup id all (List.fold_left mapGroup groups mapping).
Proof.
  intros Hov. induction groups as [|g groups IH]; intros Hsub mapping H;
    simpl; [exact H|].
  apply IH; [intros g' Hg'; apply Hsub; now right|].
  unfold mapGroup. apply procs_from_group; try assumption.
  - apply Hsub. now left.
  - tauto.
Qed.

End OverrideFacts.

(** X20.  In the category map a procedure that no group of the answer
    lists has no entry; a procedure with an override to a column has that
    column as soon as any group lists it, whatever the groups' own
    columns and their order; and a procedure without override has an
    entry only from a group that lists it and has a column of its own. *)
Theorem overrides_beat_groups (groups : list ProcedureGroup.t) (id : Z) :
  ((forall g, In g groups -> ~ In id (ProcedureGroup.procedimentos g)) ->
   fetchGroupMapping (Some groups) !! id = None) /\
  (forall column,
     overrideOf id OVERRIDES = Some (Some column) ->
     (exists g, In g groups /\ In id (ProcedureGroup.procedimentos g)) ->
     fetchGroupMapping (Some groups) !! id = Some (Some column)) /\
  (overrideOf id OVERRIDES = None ->
   forall v,
     fetchGroupMapping (Some groups) !! id = Some v ->
     exists g col,
       In g groups /\ In id (ProcedureGroup.procedimentos g) /\
       GROUP_TO_COLUMN (ProcedureGroup.id g) = Some col /\ v = Some col).
Proof.
  unfold fetchGroupMapping. split; [|split].
  - intros Hnot. rewrite (groups_unlisted id groups ∅ Hnot).
    apply lookup_empty.
  - intros column Hov Hlisted.
    apply (groups_override id column groups Hov). now right.
  - intros Hov.
    apply (groups_from_group id groups groups Hov); [tauto|].
    intros v. now rewrite lookup_empty.
Qed.

Lemma overrides_beat_groups_witness :
  fetchGroupMapping
    (Some [ {| ProcedureGroup.id := 2;
               ProcedureGroup.procedimentos := [58; 60] |} ]) !! 58
  = Some (Some "TIRZEPATIDA").
Proof.
  apply (proj1 (proj2 (overrides_beat_groups
                         [ {| ProcedureGroup.id := 2;
                              ProcedureGroup.procedimentos := [58; 60] |} ]
                         58)) "TIRZEPATIDA" eq_refl).
  eexists. split; [now left|]. now left.
Defined.

(** ** The items of a row *)

Section RowItemFacts.

Lemma columnTotal_snoc column details d :
  (columnTotal column (details ++ [d])
   == columnTotal column details
      + (if bool_decide (Detail.colunaDestino d = Some column)
         then Detail.valor d else 0))%Q.
Proof.
  induction details as [|d' details IH]; cbn [columnTotal fold_right app].
  - destruct (bool_decide _); ring.
  - fold (columnTotal column (details ++ [d])).
    fold (columnTotal column details).
    destruct (bool_decide (Detail.colunaDestino d' = Some column));
      rewrite IH; ring.
Qed.

Lemma discountsOf_snoc keep details d :
  (discountsOf keep (details ++ [d])
   == discountsOf keep details + (if keep d then discountOf d else 0))%Q.
Proof.
  induction details as [|d' details IH]; cbn [discountsOf fold_right app].
  - destruct (keep d); ring.
  - fold (discountsOf keep (details ++ [d])).
    fold (discountsOf keep details).
    destruct (keep d'); rewrite IH; ring.
Qed.

Lemma discountsOf_ext keep keep' details :
  (forall d, In d details -> keep d = keep' d) ->
  discountsOf keep details = discountsOf keep' details.
Proof.
  induction details as [|d details IH]; intros H; [reflexivity|].
  cbn [discountsOf fold_right].
  fold (discountsOf keep details). fold (discountsOf keep' details).
  rewrite (H d) by now left.
  rewrite IH by (intros d' Hd'; apply H; now right). reflexivity.
Qed.

Lemma orElse_zero x : (orElse x 0 == x)%Q.
Proof.
  unfold orElse. destruct (Qeq_bool x 0) eqn:E; [|reflexivity].
  apply Qeq_bool_iff in E. now rewrite E.
Qed.

Lemma isPositive_orElse x : isPositive (orElse x 0) = isPositive x.
Proof.
  unfold orElse. destruct (Qeq_bool x 0) eqn:E; [|reflexivity].
  apply Qeq_bool_iff in E. unfold isPositive. f_equal.
  change (Qle_bool 0 0) with true. symmetry. apply Qle_bool_iff.
  rewrite E. apply Qle_refl.
Qed.

(** The discount of a detail is the one the loop adds for its item. *)
Lemma addDiscount_detail item column name by' total :
  (addDiscount item total
   == total + discountOf (detailOf item column name by'))%Q.
Proof.
  unfold addDiscount, discountOf, detailOf.
  cbn [Detail.desconto Detail.quantidade].
  rewrite isPositive_orElse.
  destruct (isPositive (DetailedItem.desconto item)); [|ring].
  rewrite orElse_zero. reflexivity.
Qed.

Lemma undoDiscount_addDiscount item total :
  (undoDiscount item (addDiscount item total) == total)%Q.
Proof.
  unfold undoDiscount, addDiscount.
  destruct (isPositive (DetailedItem.desconto item)); [ring|reflexivity].
Qed.

(** The classifier never signs as the appointment check does. *)
Lemma classify_by gm name id :
  String.eqb (Classification.classificadoPor (classifyProcedure gm name id))
             "agendamento-futuro" = false.
Proof.
  assert (Hname : String.eqb
                    (Classification.classificadoPor (classifyByName name))
                    "agendamento-futuro" = false).
  { unfold classifyByName.
    now destruct (firstPattern (toLowerCase name) PROCEDURE_MAPPING). }
  unfold classifyProcedure.
  destruct id as [n|]; [|exact Hname].
  destruct gm as [mapping|]; [|exact Hname].
  destruct (truthyId (Some n)); [|exact Hname].
  destruct (mapping !! n); [reflexivity | exact Hname].
Qed.

Variable groupMapping : option (gmap Z (option string)).
Variables (api : Api.t) (referenceDate : FeegowDate.t) (group : Group.t).

(** What one turn of the loop does to the accumulators. *)
Lemma processItem_step acc item st :
  exists d,
    let acc' :=
      fst (processItem groupMapping api referenceDate group acc item st) in
    RowAcc.classificationDetails acc'
    = (RowAcc.classificationDetails acc ++ [d])%list /\
    sameItem d item /\
    RowAcc.procedureValues acc'
    = match Detail.colunaDestino d with
      | Some column =>
          <[column :=
              (default 0%Q (RowAcc.procedureValues acc !! column)
               + Detail.valor d)%Q]> (RowAcc.procedureValues acc)
      | None => RowAcc.procedureValues acc
      end /\
    (RowAcc.discountTotal acc'
     == RowAcc.discountTotal acc
        + (if isAdvanceDeposit d then 0 else discountOf d))%Q /\
    (isAdvanceDeposit d = true -> Detail.colunaDestino d = None) /\
    (LoadedMapping groupMapping ->
     Detail.colunaDestino d = None -> isAdvanceDeposit d = true).
Proof.
  pose proof (classify_by groupMapping (DetailedItem.nome item)
                (DetailedItem.procedimento_id item)) as Hby.
  assert (Hadd : forall column st',
            let d := detailOf item (Some column)
                       (default column (COLUMNS.COLUMN_NAMES !! column))
                       (Classification.classificadoPor
                          (classifyProcedure groupMapping
                             (DetailedItem.nome item)
                             (DetailedItem.procedimento_id item))) in
            let acc' :=
              fst (addToColumn column (Detail.classificadoPor d) item
                     (addDiscount item (RowAcc.discountTotal acc)) acc,
                   st' : Store) in
            RowAcc.classificationDetails acc'
            = (RowAcc.classificationDetails acc ++ [d])%list /\
            sameItem d item /\
            RowAcc.procedureValues acc'
            = <[column :=
                  (default 0%Q (RowAcc.procedureValues acc !! column)
                   + Detail.valor d)%Q]> (RowAcc.procedureValues acc) /\
            (RowAcc.discountTotal acc'
             == RowAcc.discountTotal acc
                + (if isAdvanceDeposit d then 0 else discountOf d))%Q /\
            (isAdvanceDeposit d = true -> Detail.colunaDestino d = None) /\
            (LoadedMapping groupMapping ->
             Detail.colunaDestino d = None -> isAdvanceDeposit d = true)).
  { intros column st' d acc'. subst d acc'. unfold addToColumn, isAdvanceDeposit.
    cbn [fst RowAcc.classificationDetails RowAcc.procedureValues
         RowAcc.discountTotal].
    unfold detailOf at 1 2 3 4 5 6 7 8.
    cbn [Detail.classificadoPor Detail.colunaDestino Detail.valor
         Detail.nome Detail.procedimentoId].
    rewrite Hby. unfold sameItem, formatValue.
    cbn [Detail.classificadoPor Detail.colunaDestino Detail.valor
         Detail.nome Detail.procedimentoId].
    repeat split; try discriminate.
    apply addDiscount_detail. }
  unfold processItem.
  destruct (Classification.column
              (classifyProcedure groupMapping (DetailedItem.nome item)
                 (DetailedItem.procedimento_id item)))
    as [column|] eqn:Hcol.
  - assert (Hkeep : exists d,
              let acc' :=
                fst (addToColumn column
                       (Classification.classificadoPor
                          (classifyProcedure groupMapping
                             (DetailedItem.nome item)
                             (DetailedItem.procedimento_id item)))
                       item (addDiscount item (RowAcc.discountTotal acc)) acc,
                     st) in
              RowAcc.classificationDetails acc'
              = (RowAcc.classificationDetails acc ++ [d])%list /\
              sameItem d item /\
              RowAcc.procedureValues acc'
              = match Detail.colunaDestino d with
                | Some column =>
                    <[column :=
                        (default 0%Q (RowAcc.procedureValues acc !! column)
                         + Detail.valor d)%Q]> (RowAcc.procedureValues acc)
                | None => RowAcc.procedureValues acc
                end /\
              (RowAcc.discountTotal acc'
               == RowAcc.discountTotal acc
                  + (if isAdvanceDeposit d then 0 else discountOf d))%Q /\
              (isAdvanceDeposit d = true -> Detail.colunaDestino d = None) /\
              (LoadedMapping groupMapping ->
               Detail.colunaDestino d = None -> isAdvanceDeposit d = true)).
    { eexists. exact (Hadd column st). }
    destruct (String.eqb column COLUMNS.AVALIACAO); [|exact Hkeep].
    unfold bind, ret.
    destruct (checkAppointmentDate api _ referenceDate st) as [check st1].
    destruct (AppointmentCheck.apiError check);
      [eexists; exact (Hadd column st1)|].
    destruct (AppointmentCheck.hasAppointmentToday check);
      [eexists; exact (Hadd column st1)|].
    exists (detailOf item None "SINAL_ANTECIPADO" "agendamento-futuro").
    unfold recordOnly, isAdvanceDeposit, sameItem, detailOf, formatValue.
    cbn [negb fst RowAcc.classificationDetails RowAcc.procedureValues
         RowAcc.discountTotal Detail.classificadoPor Detail.colunaDestino
         Detail.valor Detail.nome Detail.procedimentoId].
    change (String.eqb "agendamento-futuro" "agendamento-futuro") with true.
    cbv iota. repeat split.
    rewrite undoDiscount_addDiscount. ring.
  - exists (detailOf item None "DESCARTADO"
              (Classification.classificadoPor
                 (classifyProcedure groupMapping (DetailedItem.nome item)
                    (DetailedItem.procedimento_id item)))).
    unfold ret, recordOnly, isAdvanceDeposit, sameItem.
    cbn [fst RowAcc.classificationDetails RowAcc.procedureValues
         RowAcc.discountTotal].
    unfold detailOf at 1 2 3 4 5 6 7 8. unfold formatValue.
    cbn [Detail.classificadoPor Detail.colunaDestino Detail.valor
         Detail.nome Detail.procedimentoId].
    rewrite Hby. repeat split; try discriminate.
    + apply addDiscount_detail.
    + intros Hloaded _.
      destruct (classify_letter groupMapping (DetailedItem.nome item)
                  (DetailedItem.procedimento_id item) Hloaded)
        as [column [Hsome _]].
      congruence.
Qed.

End RowItemFacts.

Section RowLoopFacts.

Variable groupMapping : option (gmap Z (option string)).
Variables (api : Api.t) (referenceDate : FeegowDate.t) (group : Group.t).

Lemma RowInvariant_empty : RowInvariant groupMapping emptyRowAcc [].
Proof.
  unfold RowInvariant, emptyRowAcc.
  cbn [RowAcc.classificationDetails RowAcc.procedureValues
       RowAcc.discountTotal].
  split; [constructor|]. split.
  { intros column. rewrite lookup_empty. reflexivity. }
  split.
  { intros column. rewrite lookup_empty. split; [intros _ d []|reflexivity]. }
  split; [reflexivity|]. split; [intros d []|intros _ d []].
Qed.

Lemma RowInvariant_step acc seen item st :
  RowInvariant groupMapping acc seen ->
  RowInvariant groupMapping
    (fst (processItem groupMapping api referenceDate group acc item st))
    (seen ++ [item])%list.
Proof.
  intros (Hsame & Hsum & Hnone & Hdisc & Hadv & Hland).
  destruct (processItem_step groupMapping api referenceDate group acc item st)
    as (d & Hd & Hitem & Hpv & Htotal & Hd1 & Hd2).
  cbv zeta in Hd, Hpv, Htotal.
  unfold RowInvariant. rewrite Hd, Hpv. split.
  { apply Forall2_app; [exact Hsame|]. now constructor. }
  split.
  { intros column. rewrite columnTotal_snoc. rewrite <- (Hsum column).
    destruct (Detail.colunaDestino d) as [c|] eqn:Ec.
    - destruct (decide (c = column)) as [->|Hne].
      + rewrite lookup_insert_eq, bool_decide_eq_true_2 by reflexivity.
        reflexivity.
      + rewrite lookup_insert_ne by exact Hne.
        rewrite bool_decide_eq_false_2 by congruence. ring.
    - rewrite bool_decide_eq_false_2 by discriminate. ring. }
  split.
  { intros column. split.
    - intros Hlook d' Hd'. apply in_app_or in Hd' as [Hd'|[<-|[]]].
      + apply (proj1 (Hnone column)); [|exact Hd'].
        destruct (Detail.colunaDestino d) as [c|]; [|exact Hlook].
        destruct (decide (c = column)) as [->|Hne].
        * now rewrite lookup_insert_eq in Hlook.
        * now rewrite lookup_insert_ne in Hlook.
      + intros Ec. rewrite Ec in Hlook.
        now rewrite lookup_insert_eq in Hlook.
    - intros Hall.
      assert (Hd' : Detail.colunaDestino d <> Some column)
        by (apply Hall, in_or_app; right; now left).
      assert (Hold : RowAcc.procedureValues acc !! column = None).
      { apply (proj2 (Hnone column)). intros d' Hin.
        apply Hall, in_or_app. now left. }
      destruct (Detail.colunaDestino d) as [c|]; [|exact Hold].
      rewrite lookup_insert_ne by congruence. exact Hold. }
  split.
  { rewrite discountsOf_snoc, Htotal, Hdisc.
    destruct (isAdvanceDeposit d); reflexivity. }
  split.
  - intros d' Hd'. apply in_app_or in Hd' as [Hd'|[<-|[]]];
      [now apply Hadv | exact Hd1].
  - intros Hloaded d' Hd'. apply in_app_or in Hd' as [Hd'|[<-|[]]];
      [now apply Hland | now apply Hd2].
Qed.

Lemma RowInvariant_loop items :
  forall acc seen st,
    RowInvariant groupMapping acc seen ->
    RowInvariant groupMapping
      (fst (processItems groupMapping api referenceDate group acc items st))
      (seen ++ items)%list.
Proof.
  induction items as [|item items IH]; intros acc seen st H.
  - rewrite app_nil_r. exact H.
  - cbn [processItems]. unfold bind.
    pose proof (RowInvariant_step acc seen item st H) as Hstep.
    destruct (processItem groupMapping api referenceDate group acc item st)
      as [acc' st1].
    cbn [fst] in Hstep.
    replace (seen ++ item :: items)%list
      with ((seen ++ [item]) ++ items)%list
      by (rewrite <- app_assoc; reflexivity).
    now apply IH.
Qed.

End RowLoopFacts.

(** X21.  After the loop over a group's items the classification details
    are the items' own, one per item and in their order; every procedure
    column holds the sum of the values of the details sent to it; and a
    column no detail was sent to has no value at all. *)
Theorem row_columns_add_up
    (groupMapping : option (gmap Z (option string))) (api : Api.t)
    (referenceDate : FeegowDate.t) (group : Group.t) (st : Store) :
  let acc := fst (buildRowItems groupMapping api referenceDate group st) in
  Forall2 sameItem (RowAcc.classificationDetails acc)
          (Group.detailedItems group) /\
  (forall column,
     (default 0%Q (RowAcc.procedureValues acc !! column)
      == columnTotal column (RowAcc.classificationDetails acc))%Q) /\
  (forall column,
     RowAcc.procedureValues acc !! column = None <->
     forall d, In d (RowAcc.classificationDetails acc) ->
               Detail.colunaDestino d <> Some column).
Proof.
  intros acc. subst acc. unfold buildRowItems.
  destruct (RowInvariant_loop groupMapping api referenceDate group
              (Group.detailedItems group) emptyRowAcc [] st
              (RowInvariant_empty groupMapping))
    as (Hsame & Hsum & Hnone & _).
  cbn [app] in Hsame. split; [exact Hsame|]. split; assumption.
Qed.

(** X22.  The discount total of a row is the sum of the discounts (per
    unit, times the quantity, when positive) of every item but the
    evaluations recorded as advance deposits; with the category map as it
    is loaded, that is the sum over the items that went to a column. *)
Theorem discount_total_skips_advance_deposits
    (groupMapping : option (gmap Z (option string))) (api : Api.t)
    (referenceDate : FeegowDate.t) (group : Group.t) (st : Store) :
  let acc := fst (buildRowItems groupMapping api referenceDate group st) in
  (RowAcc.discountTotal acc
   == discountsOf (fun d => negb (isAdvanceDeposit d))
        (RowAcc.classificationDetails acc))%Q /\
  (LoadedMapping groupMapping ->
   (RowAcc.discountTotal acc
    == discountsOf landed (RowAcc.classificationDetails acc))%Q).
Proof.
  intros acc. subst acc. unfold buildRowItems.
  destruct (RowInvariant_loop groupMapping api referenceDate group
              (Group.detailedItems group) emptyRowAcc [] st
              (RowInvariant_empty groupMapping))
    as (_ & _ & _ & Hdisc & Hadv & Hland).
  split; [exact Hdisc|]. intros Hloaded. rewrite Hdisc.
  rewrite (discountsOf_ext (fun d => negb (isAdvanceDeposit d)) landed);
    [reflexivity|].
  intros d Hd. unfold landed.
  destruct (Detail.colunaDestino d) as [c|] eqn:Ec.
  - destruct (isAdvanceDeposit d) eqn:Ea; [|reflexivity].
    specialize (Hadv d Hd Ea). congruence.
  - now rewrite (Hland Hloaded d Hd Ec).
Qed.

(** ** The diagnostic classifier *)

Lemma diagnostic_byName name :
  includes (toLowerCase name) "online" = false ->
  columnOfKey (Diagnostic.classifyByName name)
  = Classification.column (classifyByName name).
Proof.
  intros Hno. unfold Diagnostic.classifyByName, classifyByName.
  unfold Diagnostic.PROCEDURE_MAPPING, PROCEDURE_MAPPING.
  cbn [firstPattern].
  change (toLowerCase "online") with "online". rewrite Hno.
  repeat
    match goal with
    | |- context [if includes (toLowerCase name) ?p then _ else _] =>
        destruct (includes (toLowerCase name) p); [reflexivity|]
    end.
  reflexivity.
Qed.

Lemma diagnostic_never_online name :
  columnOfKey (Diagnostic.classifyByName name) <> Some COLUMNS.ONLINE.
Proof.
  unfold Diagnostic.classifyByName, Diagnostic.PROCEDURE_MAPPING.
  cbn [firstPattern].
  repeat
    match goal with
    | |- context [if includes (toLowerCase name) ?p then _ else _] =>
        destruct (includes (toLowerCase name) p); [discriminate|]
    end.
  discriminate.
Qed.

(** X23.  The diagnostic script's classifier answers with the key of the
    column the row builder's classifier chooses whenever the id decides
    or the name does not contain "online"; by name it never answers
    ONLINE, its table having no such pattern, so a procedure the row
    builder sends to ONLINE by its name is reported under another
    column. *)
Theorem diagnostic_classifier_misses_online
    (groupMapping : option (gmap Z (option string))) (name : string)
    (procedureId : option Z) :
  (includes (toLowerCase name) "online" = false \/
   Classification.classificadoPor
     (classifyProcedure groupMapping name procedureId) = "id" ->
   columnOfKey (Diagnostic.classifyProcedure groupMapping name procedureId)
   = Classification.column (classifyProcedure groupMapping name procedureId))
  /\
  (Classification.classificadoPor
     (classifyProcedure groupMapping name procedureId) = "nome" ->
   Classification.column (classifyProcedure groupMapping name procedureId)
   = Some COLUMNS.ONLINE ->
   columnOfKey (Diagnostic.classifyProcedure groupMapping name procedureId)
   <> Some COLUMNS.ONLINE /\
   includes (toLowerCase name) "online" = true).
Proof.
  assert (Hname : forall by',
            Classification.classificadoPor (classifyByName name) = by' ->
            by' <> "id").
  { intros by' <-. unfold classifyByName.
    now destruct (firstPattern (toLowerCase name) PROCEDURE_MAPPING). }
  assert (Hagree :
            includes (toLowerCase name) "online" = false \/
            Classification.classificadoPor (classifyByName name) = "id" ->
            columnOfKey (Diagnostic.classifyByName name)
            = Classification.column (classifyByName name)).
  { intros [Hno|Hid]; [now apply diagnostic_byName|].
    now destruct (Hname _ Hid). }
  assert (Hmiss :
            Classification.column (classifyByName name)
            = Some COLUMNS.ONLINE ->
            columnOfKey (Diagnostic.classifyByName name)
            <> Some COLUMNS.ONLINE /\
            includes (toLowerCase name) "online" = true).
  { intros Hon. split; [apply diagnostic_never_online|].
    destruct (includes (toLowerCase name) "online") eqn:E; [reflexivity|].
    rewrite <- (diagnostic_byName name E) in Hon.
    now destruct (diagnostic_never_online name). }
  unfold Diagnostic.classifyProcedure, classifyProcedure.
  destruct procedureId as [id|]; [|split; [exact Hagree | intros _; exact Hmiss]].
  destruct groupMapping as [mapping|];
    [|split; [exact Hagree | intros _; exact Hmiss]].
  destruct (truthyId (Some id));
    [|split; [exact Hagree | intros _; exact Hmiss]].
  destruct (mapping !! id) as [columnById|];
    [|split; [exact Hagree | intros _; exact Hmiss]].
  cbn [Classification.column Classification.classificadoPor].
  split; [reflexivity | discriminate].
Qed.

Lemma diagnostic_classifier_misses_online_witness :
  columnOfKey (Diagnostic.classifyProcedure None "Atendimento Online" None)
  <> Some COLUMNS.ONLINE /\
  includes (toLowerCase "Atendimento Online") "online" = true.
Proof.
  apply (proj2 (diagnostic_classifier_misses_online
                  None "Atendimento Online" None));
    vm_compute; reflexivity.
Defined.

(** ** The totals of a row *)

Section TotalFacts.

Lemma columnTotal_nil_sum (cols : list string) :
  (List.fold_right (fun c acc => columnTotal c [] + acc) 0 cols == 0)%Q.
Proof.
  induction cols as [|c cols IH]; cbn [fold_right]; [reflexivity|].
  rewrite IH. unfold columnTotal. cbn [fold_right]. ring.
Qed.

(** A detail is counted for one column at most. *)
Lemma one_column_sum (d : Detail.t) (cols : list string) :
  NoDup cols ->
  (List.fold_right
     (fun c acc =>
        (if bool_decide (Detail.colunaDestino d = Some c)
         then Detail.valor d else 0) + acc) 0 cols
   == if match Detail.colunaDestino d with
         | Some column => bool_decide (column ∈ cols)
         | None => false
         end
      then Detail.valor d else 0)%Q.
Proof.
  induction cols as [|c cols IH]; intros Hnd; cbn [fold_right].
  - destruct (Detail.colunaDestino d) as [column|]; [|reflexivity].
    rewrite bool_decide_eq_false_2 by apply not_elem_of_nil. reflexivity.
  - apply NoDup_cons in Hnd as [Hc Hnd]. rewrite (IH Hnd).
    destruct (Detail.colunaDestino d) as [column|].
    + destruct (decide (column = c)) as [->|Hne].
      * rewrite (bool_decide_eq_true_2 (Some c = Some c)) by reflexivity.
        rewrite (bool_decide_eq_false_2 (c ∈ cols)) by exact Hc.
        rewrite (bool_decide_eq_true_2 (c ∈ c :: cols))
          by apply list_elem_of_here.
        ring.
      * rewrite (bool_decide_eq_false_2 (Some column = Some c))
          by congruence.
        destruct (bool_decide (column ∈ cols)) eqn:E.
        -- apply bool_decide_eq_true_1 in E.
           rewrite (bool_decide_eq_true_2 (column ∈ c :: cols))
             by now apply list_elem_of_further.
           ring.
        -- apply bool_decide_eq_false_1 in E.
           rewrite (bool_decide_eq_false_2 (column ∈ c :: cols)).
           ++ ring.
           ++ intros Hin. apply elem_of_cons in Hin as [Heq|Hin];
                [now apply Hne | now apply E].
    + rewrite (bool_decide_eq_false_2 (None = Some c)) by discriminate.
      ring.
Qed.

Lemma columns_sum (cols : list string) (details : list Detail.t) :
  NoDup cols ->
  (List.fold_right (fun c acc => columnTotal c details + acc) 0 cols
   == valuesOf
        (fun d =>
           match Detail.colunaDestino d with
           | Some column => bool_decide (column ∈ cols)
           | None => false
           end) details)%Q.
Proof.
  intros Hnd. induction details as [|d details IH].
  - apply columnTotal_nil_sum.
  - assert (Hsplit :
              (List.fold_right
                 (fun c acc => columnTotal c (d :: details) + acc) 0 cols
               == List.fold_right
                    (fun c acc =>
                       (if bool_decide (Detail.colunaDestino d = Some c)
                        then Detail.valor d else 0) + acc) 0 cols
                  + List.fold_right
                      (fun c acc => columnTotal c details + acc) 0 cols)%Q).
    { clear. induction cols as [|c cols IHc]; cbn [fold_right]; [ring|].
      rewrite IHc. unfold columnTotal at 1. cbn [fold_right].
      fold (columnTotal c details).
      destruct (bool_decide (Detail.colunaDestino d = Some c)); ring. }
    rewrite Hsplit, (one_column_sum d cols Hnd), IH.
    unfold valuesOf. cbn [fold_right].
    destruct (match Detail.colunaDestino d with
              | Some column => bool_decide (column ∈ cols)
              | None => false
              end); ring.
Qed.

Lemma columnsForTotal_NoDup : NoDup columnsForTotal.
Proof.
  apply (bool_decide_unpack (NoDup columnsForTotal)). vm_compute. exact I.
Qed.

Lemma isPositive_spec x : isPositive x = true <-> (0 < x)%Q.
Proof.
  unfold isPositive. rewrite negb_true_iff. split.
  - intros H. apply Qnot_le_lt. intros Hle.
    apply Qle_bool_iff in Hle. congruence.
  - intros H. destruct (Qle_bool x 0) eqn:E; [|reflexivity].
    apply Qle_bool_iff in E. exfalso. apply (Qlt_not_le _ _ H E).
Qed.

Lemma treatmentTotal_columns procedureValues details :
  (forall column,
     (default 0%Q (procedureValues !! column)
      == columnTotal column details)%Q) ->
  (treatmentTotal procedureValues == valuesOf inTreatment details)%Q.
Proof.
  intros Hsum.
  assert (Hv : forall c,
            (valueOrZero procedureValues c == columnTotal c details)%Q).
  { intros c. rewrite <- (Hsum c). unfold valueOrZero.
    destruct (procedureValues !! c); [apply orElse_zero | reflexivity]. }
  change (valuesOf inTreatment details)
    with (valuesOf
            (fun d =>
               match Detail.colunaDestino d with
               | Some column => bool_decide (column ∈ columnsForTotal)
               | None => false
               end) details).
  rewrite <- (columns_sum columnsForTotal details columnsForTotal_NoDup).
  unfold treatmentTotal, columnsForTotal. cbn [fold_left fold_right].
  rewrite !Hv. ring.
Qed.

End TotalFacts.

Section TreatmentColumn.

Variable groupMapping : option (gmap Z (option string)).
Hypothesis loaded : LoadedMapping groupMapping.
Variables (api : Api.t) (referenceDate : FeegowDate.t) (group : Group.t).

(** With the category map as it is loaded, every column an item is sent
    to is one of the procedure columns. *)
Lemma processItem_letters acc item st :
  (forall d c, In d (RowAcc.classificationDetails acc) ->
               Detail.colunaDestino d = Some c -> In c procedureLetters) ->
  forall d c,
    In d (RowAcc.classificationDetails
            (fst (processItem groupMapping api referenceDate group acc item st)))
    -> Detail.colunaDestino d = Some c -> In c procedureLetters.
Proof.
  intros Hacc d c. unfold processItem.
  destruct (classify_letter groupMapping (DetailedItem.nome item)
              (DetailedItem.procedimento_id item) loaded)
    as [column [-> Hletter]].
  assert (Hadd : forall by' total,
            In d (RowAcc.classificationDetails
                    (addToColumn column by' item total acc)) ->
            Detail.colunaDestino d = Some c -> In c procedureLetters).
  { intros by' total Hd. unfold addToColumn in Hd.
    cbn [RowAcc.classificationDetails] in Hd.
    apply in_app_or in Hd as [Hd|[<-|[]]].
    - now apply Hacc.
    - unfold detailOf. cbn [Detail.colunaDestino]. now intros [= <-]. }
  destruct (String.eqb column COLUMNS.AVALIACAO); [|apply Hadd].
  unfold bind, ret.
  destruct (checkAppointmentDate api _ referenceDate st) as [check st1].
  destruct (AppointmentCheck.apiError check); [apply Hadd|].
  destruct (AppointmentCheck.hasAppointmentToday check); [apply Hadd|].
  unfold recordOnly. cbn [fst negb RowAcc.classificationDetails].
  intros Hd. apply in_app_or in Hd as [Hd|[<-|[]]].
  - now apply Hacc.
  - unfold detailOf. cbn [Detail.colunaDestino]. discriminate.
Qed.

Lemma processItems_letters items :
  forall acc st,
    (forall d c, In d (RowAcc.classificationDetails acc) ->
                 Detail.colunaDestino d = Some c -> In c procedureLetters) ->
    forall d c,
      In d (RowAcc.classificationDetails
              (fst (processItems groupMapping api referenceDate group
                      acc items st)))
      -> Detail.colunaDestino d = Some c -> In c procedureLetters.
Proof.
  induction items as [|item items IH]; intros acc st Hacc d c;
    cbn [processItems].
  - apply Hacc.
  - unfold bind.
    pose proof (processItem_letters acc item st Hacc) as Hstep.
    destruct (processItem groupMapping api referenceDate group acc item st)
      as [acc' st1].
    cbn [fst] in Hstep. now apply IH.
Qed.

End TreatmentColumn.

(** X24.  The treatment total of a row is the sum of the values of the
    items that went to the nine treatment columns, so not of evaluations,
    refunds and card interest.  When that sum is positive, the treatment
    cell of the returned row holds it less the row's whole discount
    total, the discounts of items outside the nine columns included;
    when it is not, the cell holds 0, no item having been sent to the
    treatment column itself, which is so with the category map as it is
    loaded. *)
Theorem treatment_total_is_the_nine_columns
    (groupMapping : option (gmap Z (option string))) (api : Api.t)
    (referenceDate : FeegowDate.t) (group : Group.t) (st : Store) :
  let acc := fst (buildRowItems groupMapping api referenceDate group st) in
  let details := RowAcc.classificationDetails acc in
  (treatmentTotal (RowAcc.procedureValues acc)
   == valuesOf inTreatment details)%Q /\
  ((0 < valuesOf inTreatment details)%Q ->
   (treatmentCell acc
    == valuesOf inTreatment details
       - discountsOf (fun d => negb (isAdvanceDeposit d)) details)%Q) /\
  ((valuesOf inTreatment details <= 0)%Q ->
   (forall d, In d details ->
              Detail.colunaDestino d <> Some COLUMNS.TRATAMENTO) ->
   (treatmentCell acc == 0)%Q) /\
  (LoadedMapping groupMapping ->
   forall d, In d details ->
             Detail.colunaDestino d <> Some COLUMNS.TRATAMENTO).
Proof.
  intros acc details. subst details acc.
  destruct (RowInvariant_loop groupMapping api referenceDate group
              (Group.detailedItems group) emptyRowAcc [] st
              (RowInvariant_empty groupMapping))
    as (_ & Hsum & Hnone & Hdisc & _).
  unfold buildRowItems.
  pose proof (treatmentTotal_columns _ _ Hsum) as Htotal.
  split; [exact Htotal|]. split; [|split].
  - intros Hpos. unfold treatmentCell.
    rewrite <- Htotal in Hpos. apply isPositive_spec in Hpos.
    rewrite Hpos. rewrite <- Htotal, <- Hdisc. reflexivity.
  - intros Hle Hnot. unfold treatmentCell.
    destruct (isPositive (treatmentTotal _)) eqn:Epos.
    + apply isPositive_spec in Epos. rewrite Htotal in Epos.
      exfalso. apply (Qlt_not_le _ _ Epos Hle).
    + rewrite (proj2 (Hnone COLUMNS.TRATAMENTO) Hnot). reflexivity.
  - intros Hloaded d Hd Hcol.
    pose proof (processItems_letters groupMapping Hloaded api referenceDate
                  group (Group.detailedItems group) emptyRowAcc st
                  (fun d c (H : In d []) => match H with end)
                  d COLUMNS.TRATAMENTO Hd Hcol) as Hin.
    unfold procedureLetters in Hin. cbn [In] in Hin.
    repeat (destruct Hin as [Hin|Hin]; [discriminate Hin|]).
    destruct Hin.
Qed.

(** Scenario D: the evaluation is an advance deposit, nothing goes to the
    treatment columns and the treatment cell is 0. *)
Lemma treatment_total_is_the_nine_columns_witness :
  (treatmentCell
     (fst (buildRowItems None Scenario.noAppointmentApi Scenario.secondDay
             Scenario.evaluationGroup emptyStore)) == 0)%Q.
Proof.
  destruct (treatment_total_is_the_nine_columns None
              Scenario.noAppointmentApi Scenario.secondDay
              Scenario.evaluationGroup emptyStore)
    as (_ & _ & Hzero & Hletters).
  apply Hzero; [vm_compute; discriminate | apply Hletters; now left].
Defined.


(** ** The day numbers of dates *)



